(** * Google-Research-MCP: contextual navigation core

    A shallow embedding of the services behind the [contextual_navigation]
    tool and of the properties stated about them:

    - [ContentExtractor]           (content-extractor.service.ts)
    - [EnhancedContentExtractor]   (enhanced-content-extractor.service.ts)
    - [BrowsingSessionService]     (browsing-session.service.ts)
    - [NavigationService]          (navigation.service.ts)

    Conventions of the embedding.
    - JavaScript strings are [string]; [toLowerCase] lower-cases the ASCII
      letters, [includes] is substring search.
    - JavaScript numbers that carry scores are exact rationals [Q]; integers
      (timestamps, depths, counts) are [Z] or [nat].
    - What the services obtain from outside the repository (the URL parser,
      the regular-expression engine, the clock, the uuid generator, the
      network and the HTML pipeline built on it) is a parameter: pure
      library functions are gathered in [Platform], effects in [World].
    - The mutable fields of the services form the record [State]; a method
      is a function [M A] from a state to an outcome and a new state, an
      outcome being a value or a thrown error. *)

From Stdlib Require Import String Ascii List ZArith QArith Qminmax Lqa Lia Bool.
From Stdlib Require Import DecimalString.
From stdpp Require Import base gmap strings list.
Import ListNotations.

Local Open Scope string_scope.
Local Open Scope Z_scope.

(** ** JavaScript strings *)

Definition lowerAscii (c : ascii) : ascii :=
  let n := nat_of_ascii c in
  if ((65 <=? n) && (n <=? 90))%nat then ascii_of_nat (n + 32) else c.

Fixpoint toLowerCase (s : string) : string :=
  match s with
  | EmptyString => EmptyString
  | String c s' => String (lowerAscii c) (toLowerCase s')
  end.

(** [s.startsWith(p)] *)
Definition startsWith (s p : string) : bool := String.prefix p s.

(** [s.includes(sub)] *)
Fixpoint includes (s sub : string) : bool :=
  if String.prefix sub s then true
  else match s with
       | EmptyString => false
       | String _ s' => includes s' sub
       end.

(** [xs.join(sep)] *)
Fixpoint join (sep : string) (xs : list string) : string :=
  match xs with
  | [] => ""
  | [x] => x
  | x :: rest => x ++ sep ++ join sep rest
  end.

(** Truthiness of a string: the empty string is falsy. *)
Definition truthy (s : string) : bool :=
  match s with EmptyString => false | _ => true end.

(** [a || b] on strings. *)
Definition orElse (a b : string) : string := if truthy a then a else b.

Definition strlen (s : string) : Z := Z.of_nat (String.length s).

(** ** Data model (types/enhanced-types.ts, types.ts) *)

Inductive OutputFormat := Markdown | Html | Text.

Definition formatName (f : OutputFormat) : string :=
  match f with Markdown => "markdown" | Html => "html" | Text => "text" end.

(** Of each interface the fields the four services read or write; the
    optional [isRelevant] and [visited] of a link, the [meta_tags], [stats]
    and [content_preview] of a page are written once and never read by
    them. An image and each piece of structured data is kept as a string. *)
Record ExtractedLink := {
  link_url : string;
  link_text : string;
  link_context : string;
  link_relevanceScore : option Q
}.

Record StructuredData := {
  sd_tables : list string;
  sd_lists : list string;
  sd_hierarchies : list string;
  sd_keyValuePairs : list (string * string)
}.

Record WebpageContent := {
  wc_url : string;
  wc_title : string;
  wc_description : string;
  wc_content : string;
  wc_format : OutputFormat;
  wc_summary : string;
  wc_headings : list string
}.

Record EnhancedWebpageContent := {
  base : WebpageContent;
  links : list ExtractedLink;
  images : list string;
  structuredData : StructuredData;
  lastVisited : Z;
  sourceCredibility : option Q
}.

(** ** Library functions the services call *)

Record Platform := {
  (** [new URL(s).hostname]; [None] when the constructor throws. *)
  urlHostname : string -> option string;
  (** [new URL(rel, base).href]; [None] when the constructor throws. *)
  urlResolve : string -> string -> option string;
  (** number of matches of [new RegExp("\\b" + kw + "\\b", "gi")] in a text;
      [None] when the pattern is not a valid regular expression. *)
  regexWordMatches : string -> string -> option nat;
  (** [s.split(/(?<=[.!?])\s+/)] *)
  splitSentences : string -> list string;
  (** [s.toLowerCase().replace(/[^\w\s]/g, '').split(/\s+/)] *)
  titleWords : string -> list string
}.

(** ** NavigationService.calculateLinkRelevance *)

Section LinkRelevance.
Context (P : Platform).
Local Open Scope Q_scope.

(** The three per-keyword tests of the scoring loop. *)
Definition textSignal (link : ExtractedLink) (keyword : string) : bool :=
  includes (toLowerCase (link_text link ++ " " ++ orElse (link_context link) ""))
           (toLowerCase keyword).

Definition urlSignal (link : ExtractedLink) (keyword : string) : bool :=
  includes (toLowerCase (link_url link)) (toLowerCase keyword).

Definition contextSignal (link : ExtractedLink) (keyword : string) : bool :=
  truthy (link_context link)
  && includes (toLowerCase (link_context link)) (toLowerCase keyword).

(** The body of [keywords.forEach]. *)
Definition keywordStep (link : ExtractedLink) (score : Q) (keyword : string) : Q :=
  let score := if textSignal link keyword then score + (3#10) else score in
  let score := if urlSignal link keyword then score + (2#10) else score in
  let score := if contextSignal link keyword then score + (2#10) else score in
  score.

(** The guarded comparison of the two host names. *)
Definition sameDomain (link : ExtractedLink) (parentUrl : string) : bool :=
  match urlHostname P (link_url link) with
  | Some linkDomain =>
      match urlHostname P parentUrl with
      | Some parentDomain => String.eqb linkDomain parentDomain
      | None => false
      end
  | None => false
  end.

Definition calculateLinkRelevance
    (link : ExtractedLink) (keywords : list string)
    (parentContent : EnhancedWebpageContent) : Q :=
  match keywords with
  | [] => 6#10
  | _ =>
      let score := fold_left (keywordStep link) keywords 0 in
      let score :=
        if sameDomain link (wc_url (base parentContent))
        then score + (1#10) else score in
      let score := if (strlen (link_text link) <? 5)%Z then score * (5#10) else score in
      let score := if (20 <? strlen (link_text link))%Z then score + (1#10) else score in
      Qmin (score / inject_Z (Z.of_nat (List.length keywords))) 1
  end.

(** *** The scoring rule as section 4.3 words it

    Base score: 0.6 without keywords, otherwise the mean per-keyword
    contribution clamped to [0,1]; then the domain bonus, the text-length
    adjustment and a final clamp. *)

Definition clamp01 (q : Q) : Q := Qmax 0 (Qmin q 1).

Definition keywordContribution (link : ExtractedLink) (keyword : string) : Q :=
  (if textSignal link keyword then 3#10 else 0)
  + (if urlSignal link keyword then 2#10 else 0)
  + (if contextSignal link keyword then 2#10 else 0).

Definition keywordSum (link : ExtractedLink) (keywords : list string) : Q :=
  fold_right (fun keyword acc => keywordContribution link keyword + acc) 0 keywords.

Definition referenceLinkScore
    (link : ExtractedLink) (keywords : list string)
    (parentContent : EnhancedWebpageContent) : Q :=
  match keywords with
  | [] => 6#10
  | _ =>
      let mean :=
        clamp01 (keywordSum link keywords / inject_Z (Z.of_nat (List.length keywords))) in
      let s := if sameDomain link (wc_url (base parentContent))
               then mean + (1#10) else mean in
      let s := if (strlen (link_text link) <? 5)%Z then s * (5#10) else s in
      let s := if (20 <? strlen (link_text link))%Z then s + (1#10) else s in
      clamp01 s
  end.

(** *** The rule in the order the code applies it

    The adjustments are made on the keyword sum and the division by the
    keyword count comes last, followed by the cap at 1. *)

Definition adjustedLinkScore
    (link : ExtractedLink) (keywords : list string)
    (parentContent : EnhancedWebpageContent) : Q :=
  match keywords with
  | [] => 6#10
  | _ =>
      let bonus := if sameDomain link (wc_url (base parentContent)) then 1#10 else 0 in
      let factor := if (strlen (link_text link) <? 5)%Z then 5#10 else 1 in
      let long := if (20 <? strlen (link_text link))%Z then 1#10 else 0 in
      Qmin (((keywordSum link keywords + bonus) * factor + long)
            / inject_Z (Z.of_nat (List.length keywords))) 1
  end.

End LinkRelevance.

(** ** The breadth cap of NavigationService.followLinksRecursive

    [Math.min(3, Math.max(1, 4 - remainingDepth))] *)

Definition deeperLinkCap (remainingDepth : Z) : Z :=
  Z.min 3 (Z.max 1 (4 - remainingDepth)).

(** ** Sessions (types/enhanced-types.ts) *)

Record BrowsingHistoryPage := {
  hp_url : string;
  hp_title : string;
  hp_visitTime : Z;
  hp_summary : string;
  hp_keywords : list string;
  hp_parentUrl : option string
}.

Record BrowsingSession := {
  bs_id : string;
  bs_startTime : Z;
  bs_lastActivityTime : Z;
  bs_topic : option string;
  bs_currentUrl : option string;
  bs_history : list BrowsingHistoryPage;
  bs_bookmarks : list string;
  bs_sessionSummary : string;
  bs_researchQuestions : list string
}.

(** ** The outside world *)

(** What the HTML pipeline of [extractContent] derives from a response. *)
Record PageData := {
  pd_title : string;
  pd_description : string;
  pd_content : string;
  pd_summary : string;
  pd_headings : list string
}.

(** Outcome of [axios.get] followed by the pipeline of [extractContent]. *)
Inductive Response :=
| Extracted (page : PageData)
| AxiosFailure (message : string)
| PipelineFailure (message : string).

(** What the [try] block of [enhanceContent] computes when nothing throws. *)
Record Enhancement := {
  en_links : list ExtractedLink;
  en_images : list string;
  en_structuredData : StructuredData;
  en_credibility : Q
}.

(** Every observation of the world happens at a tick of the state's
    counter; the world answers as a function of the tick. *)
Record World := {
  clock : nat -> Z;
  uuidv4 : nat -> string;
  axiosGet : nat -> string -> OutputFormat -> Response;
  fetchEnhance : nat -> string -> option Enhancement
}.

Inductive Event :=
| EvExtract (url : string)
| EvAxiosGet (url : string)
| EvFetch (url : string).

Inductive Error :=
| InvalidUrl
| FetchError (message : string)
| PipelineError (message : string)
| SessionNotFound (sessionId : string)
| UrlTypeError.

(** ** Service state and the method monad *)

Record ContentCacheEntry := {
  timestamp : Z;
  content : WebpageContent
}.

Record State := {
  contentCache : list (string * ContentCacheEntry);
  sessions : gmap string BrowsingSession;
  tick : nat;
  trace : list Event
}.

Definition withCache (c : list (string * ContentCacheEntry)) (s : State) : State :=
  {| contentCache := c; sessions := sessions s; tick := tick s; trace := trace s |}.

Definition withSessions (m : gmap string BrowsingSession) (s : State) : State :=
  {| contentCache := contentCache s; sessions := m; tick := tick s; trace := trace s |}.

Definition withTick (n : nat) (s : State) : State :=
  {| contentCache := contentCache s; sessions := sessions s; tick := n; trace := trace s |}.

Definition withTrace (t : list Event) (s : State) : State :=
  {| contentCache := contentCache s; sessions := sessions s; tick := tick s; trace := t |}.

Inductive Outcome (A : Type) :=
| Ok (a : A)
| Throw (e : Error).
Arguments Ok {A} a.
Arguments Throw {A} e.

Definition M (A : Type) : Type := State -> Outcome A * State.

Definition ret {A} (a : A) : M A := fun s => (Ok a, s).

Definition throw {A} (e : Error) : M A := fun s => (Throw e, s).

Definition bind {A B} (m : M A) (k : A -> M B) : M B :=
  fun s => match m s with
           | (Ok a, s') => k a s'
           | (Throw e, s') => (Throw e, s')
           end.

Definition gets {A} (f : State -> A) : M A := fun s => (Ok (f s), s).

Definition modify (f : State -> State) : M unit := fun s => (Ok tt, f s).

Declare Scope method_scope.
Delimit Scope method_scope with method.
Notation "x <- c1 ;; c2" := (bind c1 (fun x => c2))
  (at level 100, c1 at next level, right associativity) : method_scope.
Notation "c1 ;; c2" := (bind c1 (fun _ => c2))
  (at level 100, right associativity) : method_scope.

Definition log (ev : Event) : M unit :=
  modify (fun s => withTrace (trace s ++ [ev])%list s).

Section Services.
Context (P : Platform) (W : World).
Local Open Scope method_scope.

(** [Date.now()] and [new Date()] *)
Definition dateNow : M Z :=
  fun s => (Ok (clock W (tick s)), withTick (S (tick s)) s).

(** *** ContentExtractor *)

Definition cacheTTL : Z := 30 * 60 * 1000.

Definition maxCacheEntries : nat := 50.

Definition isValidUrl (url : string) : bool :=
  match urlHostname P url with Some _ => true | None => false end.

Definition generateCacheKey (url : string) (format : OutputFormat) : string :=
  url ++ "|" ++ formatName format.

(** [Map.prototype.get], [set] and [delete] on a map kept in insertion
    order. *)
Fixpoint cacheGet (key : string) (cache : list (string * ContentCacheEntry))
    : option ContentCacheEntry :=
  match cache with
  | [] => None
  | (k, e) :: rest => if String.eqb k key then Some e else cacheGet key rest
  end.

Fixpoint cacheSet (key : string) (entry : ContentCacheEntry)
    (cache : list (string * ContentCacheEntry)) : list (string * ContentCacheEntry) :=
  match cache with
  | [] => [(key, entry)]
  | (k, e) :: rest =>
      if String.eqb k key then (k, entry) :: rest
      else (k, e) :: cacheSet key entry rest
  end.

Fixpoint cacheDelete (key : string) (cache : list (string * ContentCacheEntry))
    : list (string * ContentCacheEntry) :=
  match cache with
  | [] => []
  | (k, e) :: rest =>
      if String.eqb k key then rest else (k, e) :: cacheDelete key rest
  end.

(** [entries.sort((a, b) => a[1].timestamp - b[1].timestamp)]: the sort is
    stable, entries with equal timestamps keep their insertion order. *)
Fixpoint insertByTimestamp (x : string * ContentCacheEntry)
    (sorted : list (string * ContentCacheEntry)) : list (string * ContentCacheEntry) :=
  match sorted with
  | [] => [x]
  | y :: rest =>
      if timestamp (snd y) <? timestamp (snd x)
      then y :: insertByTimestamp x rest
      else x :: y :: rest
  end.

Definition sortByTimestamp (cache : list (string * ContentCacheEntry))
    : list (string * ContentCacheEntry) :=
  fold_right insertByTimestamp [] cache.

Definition isCacheValid (entry : ContentCacheEntry) : M bool :=
  now <- dateNow ;;
  ret (now - timestamp entry <? cacheTTL).

Definition cacheContent (url : string) (format : OutputFormat)
    (c : WebpageContent) : M unit :=
  let cacheKey := generateCacheKey url format in
  now <- dateNow ;;
  modify (fun s =>
    withCache (cacheSet cacheKey {| timestamp := now; content := c |} (contentCache s)) s) ;;
  cache <- gets contentCache ;;
  if (maxCacheEntries <? List.length cache)%nat then
    match sortByTimestamp cache with
    | (oldestKey, _) :: _ =>
        modify (fun s => withCache (cacheDelete oldestKey (contentCache s)) s)
    | [] => ret tt
    end
  else ret tt.

(** [axios.get(url, ...)] and everything up to the assembled page. *)
Definition httpGet (url : string) (format : OutputFormat) : M Response :=
  fun s =>
    (Ok (axiosGet W (tick s) url format),
     withTick (S (tick s)) (withTrace (trace s ++ [EvAxiosGet url]) s)).

(** The [content] object [extractContent] builds from what the pipeline
    found. *)
Definition assemble (url : string) (format : OutputFormat) (page : PageData)
    : WebpageContent :=
  {| wc_url := url;
     wc_title := pd_title page;
     wc_description := pd_description page;
     wc_content := pd_content page;
     wc_format := format;
     wc_summary := pd_summary page;
     wc_headings := firstn 20 (pd_headings page) |}.

Definition extractContent (url : string) (format : OutputFormat) : M WebpageContent :=
  if negb (isValidUrl url) then throw InvalidUrl
  else
    let cacheKey := generateCacheKey url format in
    cachedContent <- gets (fun s => cacheGet cacheKey (contentCache s)) ;;
    hit <- match cachedContent with
           | Some entry => isCacheValid entry
           | None => ret false
           end ;;
    match cachedContent, hit with
    | Some entry, true => ret (content entry)
    | _, _ =>
        response <- httpGet url format ;;
        match response with
        | Extracted page =>
            let c := assemble url format page in
            cacheContent url format c ;;
            ret c
        | AxiosFailure message => throw (FetchError message)
        | PipelineFailure message => throw (PipelineError message)
        end
    end.

(** *** EnhancedContentExtractor *)

Definition emptyStructuredData : StructuredData :=
  {| sd_tables := []; sd_lists := []; sd_hierarchies := []; sd_keyValuePairs := [] |}.

(** [fetch(url)] and the rest of the [try] block of [enhanceContent]. *)
Definition httpFetch (url : string) : M (option Enhancement) :=
  fun s =>
    (Ok (fetchEnhance W (tick s) url),
     withTick (S (tick s)) (withTrace (trace s ++ [EvFetch url]) s)).

Definition enhanceContent (baseContent : WebpageContent) (url : string)
    : M EnhancedWebpageContent :=
  attempt <- httpFetch url ;;
  now <- dateNow ;;
  match attempt with
  | Some e =>
      ret {| base := baseContent;
             links := en_links e;
             images := en_images e;
             structuredData := en_structuredData e;
             lastVisited := now;
             sourceCredibility := Some (en_credibility e) |}
  | None =>
      ret {| base := baseContent;
             links := [];
             images := [];
             structuredData := emptyStructuredData;
             lastVisited := now;
             sourceCredibility := None |}
  end.

Definition extractEnhancedContent (url : string) (format : OutputFormat)
    : M EnhancedWebpageContent :=
  log (EvExtract url) ;;
  baseContent <- extractContent url format ;;
  enhanceContent baseContent url.

End Services.

(** ** Navigation data (types/enhanced-types.ts) *)

Record NavigationOptions := {
  opt_followLinks : bool;
  opt_maxDepth : Z;
  opt_relevanceThreshold : Q;
  opt_filterByKeywords : option (list string);
  opt_excludeDomains : list string;
  opt_includeDomains : list string
}.

Record FollowLinksParams := {
  fp_url : string;
  fp_keywords : option (list string);
  fp_maxLinksToFollow : Z;
  fp_depth : Z;
  fp_stayOnDomain : bool
}.

Record PageVisited := {
  pv_url : string;
  pv_title : string;
  pv_relevance : Q;
  pv_summary : string
}.

Record FollowLinksResult := {
  startUrl : string;
  pagesVisited : list PageVisited;
  navigationPath : list string;
  relatedTopics : list string
}.

(** The two objects a traversal mutates while it recurses: the set
    [visitedUrls] and the [result] under construction. *)
Record Traversal := {
  visitedUrls : gset string;
  result : FollowLinksResult
}.

Definition dquote : string := String (ascii_of_nat 34) "".
Definition newline : string := String (ascii_of_nat 10) "".

(** Insertion-ordered [Set] of strings, read back with [Array.from]. *)
Definition dedupe (l : list string) : list string :=
  fold_left (fun acc w => if existsb (String.eqb w) acc then acc else (acc ++ [w])%list) l [].

Definition keywordsOrEmpty (keywords : option (list string)) : list string :=
  match keywords with Some ks => ks | None => [] end.

Definition scoreOf (link : ExtractedLink) : Q :=
  match link_relevanceScore link with Some q => q | None => 0%Q end.

Definition withScore (link : ExtractedLink) (q : Q) : ExtractedLink :=
  {| link_url := link_url link; link_text := link_text link;
     link_context := link_context link; link_relevanceScore := Some q |}.

Definition withUrl (link : ExtractedLink) (u : string) : ExtractedLink :=
  {| link_url := u; link_text := link_text link;
     link_context := link_context link; link_relevanceScore := link_relevanceScore link |}.

(** [links.sort((a, b) => b.relevanceScore - a.relevanceScore)], stable. *)
Fixpoint insertByRelevance (x : ExtractedLink) (sorted : list ExtractedLink)
    : list ExtractedLink :=
  match sorted with
  | [] => [x]
  | y :: rest =>
      if Qle_bool (scoreOf y) (scoreOf x) then x :: y :: rest
      else y :: insertByRelevance x rest
  end.

Definition sortByRelevance (l : list ExtractedLink) : list ExtractedLink :=
  fold_right insertByRelevance [] l.

Section Sessions.
Context (P : Platform) (W : World).
Local Open Scope method_scope.

(** *** BrowsingSessionService *)

Definition freshUuid : M string :=
  fun s => (Ok (uuidv4 W (tick s)), withTick (S (tick s)) s).

Definition createSession (topic : option string) : M BrowsingSession :=
  sessionId <- freshUuid ;;
  now <- dateNow W ;;
  let session :=
    {| bs_id := sessionId;
       bs_startTime := now;
       bs_lastActivityTime := now;
       bs_topic := topic;
       bs_currentUrl := None;
       bs_history := [];
       bs_bookmarks := [];
       bs_sessionSummary :=
         match topic with
         | Some t => if truthy t
                     then "Research session on " ++ dquote ++ t ++ dquote
                     else "New browsing session"
         | None => "New browsing session"
         end;
       bs_researchQuestions := [] |} in
  modify (fun s => withSessions (<[sessionId := session]> (sessions s)) s) ;;
  ret session.

Definition touch (now : Z) (session : BrowsingSession) : BrowsingSession :=
  {| bs_id := bs_id session;
     bs_startTime := bs_startTime session;
     bs_lastActivityTime := now;
     bs_topic := bs_topic session;
     bs_currentUrl := bs_currentUrl session;
     bs_history := bs_history session;
     bs_bookmarks := bs_bookmarks session;
     bs_sessionSummary := bs_sessionSummary session;
     bs_researchQuestions := bs_researchQuestions session |}.

Definition getSession (sessionId : string) : M (option BrowsingSession) :=
  found <- gets (fun s => sessions s !! sessionId) ;;
  match found with
  | Some session =>
      now <- dateNow W ;;
      let session := touch now session in
      modify (fun s => withSessions (<[sessionId := session]> (sessions s)) s) ;;
      ret (Some session)
  | None => ret None
  end.

(** First [n] sentences, with an ellipsis when more follow. *)
Definition firstSentences (n : nat) (c : EnhancedWebpageContent) : string :=
  if truthy (wc_content (base c)) then
    let sentences := splitSentences P (wc_content (base c)) in
    join " " (firstn n sentences)
    ++ (if (n <? List.length sentences)%nat then "..." else "")
  else "Summary of " ++ wc_title (base c).

(** BrowsingSessionService.generatePageSummary *)
Definition sessionPageSummary (c : EnhancedWebpageContent) : string :=
  firstSentences 2 c.

Definition extractKeywords (c : EnhancedWebpageContent) : list string :=
  let fromTitle :=
    if truthy (wc_title (base c))
    then List.filter (fun w => 3 <? strlen w) (titleWords P (wc_title (base c)))
    else [] in
  let fromDescription :=
    if truthy (wc_description (base c))
    then firstn 5 (List.filter (fun w => 4 <? strlen w)
                               (titleWords P (wc_description (base c))))
    else [] in
  firstn 10 (dedupe (fromTitle ++ fromDescription)%list).

Definition lastn {A} (n : nat) (l : list A) : list A :=
  skipn (List.length l - n) l.

Definition sessionSummaryText (topic : option string)
    (history : list BrowsingHistoryPage) : string :=
  "Research session"
  ++ match topic with
     | Some t => if truthy t then " on " ++ dquote ++ t ++ dquote else ""
     | None => ""
     end
  ++ " has explored " ++ NilZero.string_of_uint (Nat.to_uint (List.length history))
  ++ " pages." ++ newline ++ newline
  ++ "Key pages visited:" ++ newline
  ++ fold_left (fun acc page =>
                  acc ++ "- " ++ hp_title page ++ " (" ++ hp_url page ++ ")" ++ newline)
               (lastn 5 history) "".

(** The history push, the move of [currentUrl] and [updateSessionSummary]. *)
Definition recordVisit (entry : BrowsingHistoryPage) (session : BrowsingSession)
    : BrowsingSession :=
  let history := (bs_history session ++ [entry])%list in
  {| bs_id := bs_id session;
     bs_startTime := bs_startTime session;
     bs_lastActivityTime := bs_lastActivityTime session;
     bs_topic := bs_topic session;
     bs_currentUrl := Some (hp_url entry);
     bs_history := history;
     bs_bookmarks := bs_bookmarks session;
     bs_sessionSummary := sessionSummaryText (bs_topic session) history;
     bs_researchQuestions := bs_researchQuestions session |}.

Definition visitUrl (sessionId url : string) (parentUrl : option string)
    : M EnhancedWebpageContent :=
  found <- getSession sessionId ;;
  match found with
  | None => throw (SessionNotFound sessionId)
  | Some session =>
      enhancedContent <- extractEnhancedContent P W url Markdown ;;
      now <- dateNow W ;;
      let historyEntry :=
        {| hp_url := url;
           hp_title := wc_title (base enhancedContent);
           hp_visitTime := now;
           hp_summary := orElse (wc_summary (base enhancedContent))
                                (sessionPageSummary enhancedContent);
           hp_keywords := extractKeywords enhancedContent;
           hp_parentUrl := parentUrl |} in
      modify (fun s =>
        withSessions (<[sessionId := recordVisit historyEntry session]> (sessions s)) s) ;;
      ret enhancedContent
  end.

End Sessions.

Section Navigation.
Context (P : Platform) (W : World).
Local Open Scope method_scope.

(** *** NavigationService *)

(** NavigationService.generatePageSummary *)
Definition generatePageSummary (c : EnhancedWebpageContent) : string :=
  firstSentences P 3 c.

(** One round of the [forEach] of [calculateRelevanceScore]; [None] when
    the [RegExp] constructor rejects the keyword. *)
Definition pageKeywordStep (c : EnhancedWebpageContent) (textToAnalyze : string)
    (score : option Q) (keyword : string) : option Q :=
  match score with
  | None => None
  | Some score =>
      let keywordLower := toLowerCase keyword in
      match regexWordMatches P keywordLower textToAnalyze with
      | None => None
      | Some O => Some score
      | Some matches =>
          let keywordScore := Qmin (inject_Z (Z.of_nat matches) * (1#10)) (3#10) in
          let keywordScore :=
            if includes (toLowerCase (wc_title (base c))) keywordLower
            then (keywordScore + (2#10))%Q else keywordScore in
          let keywordScore :=
            if truthy (wc_description (base c))
               && includes (toLowerCase (wc_description (base c))) keywordLower
            then (keywordScore + (1#10))%Q else keywordScore in
          Some (score + keywordScore)%Q
      end
  end.

Definition calculateRelevanceScore (c : EnhancedWebpageContent)
    (keywords : list string) : option Q :=
  match keywords with
  | [] => Some (7#10)
  | _ =>
      let textToAnalyze :=
        toLowerCase (wc_title (base c) ++ " " ++ wc_description (base c)
                     ++ " " ++ orElse (wc_content (base c)) "") in
      match fold_left (pageKeywordStep c textToAnalyze) keywords (Some 0%Q) with
      | Some score =>
          Some (Qmin (score / inject_Z (Z.of_nat (List.length keywords))) 1)
      | None => None
      end
  end.

Definition extractRelatedTopics (pages : list PageVisited) : list string :=
  firstn 10
    (dedupe (flat_map (fun page =>
                         List.filter (fun w => 3 <? strlen w) (titleWords P (pv_title page)))
                      pages)).

(** The three link filters shared by both levels of the traversal. *)
Definition domainAllowed (includeDomains : list string) (link : ExtractedLink) : bool :=
  match urlHostname P (link_url link) with
  | Some linkDomain => existsb (fun domain => includes linkDomain domain) includeDomains
  | None => false
  end.

Definition keywordPresent (keywords : list string) (link : ExtractedLink) : bool :=
  let textToCheck :=
    toLowerCase (link_text link ++ " " ++ orElse (link_context link) "") in
  existsb (fun keyword => includes textToCheck (toLowerCase keyword)) keywords.

Definition aboveThreshold (threshold : Q) (link : ExtractedLink) : bool :=
  Qle_bool threshold (scoreOf link).

Definition nonEmpty {A} (l : list A) : bool :=
  match l with [] => false | _ => true end.

Definition filterByDomain (options : NavigationOptions) (l : list ExtractedLink)
    : list ExtractedLink :=
  if nonEmpty (opt_includeDomains options)
  then List.filter (domainAllowed (opt_includeDomains options)) l else l.

Definition filterByKeyword (options : NavigationOptions) (l : list ExtractedLink)
    : list ExtractedLink :=
  match opt_filterByKeywords options with
  | Some (k :: ks) => List.filter (keywordPresent (k :: ks)) l
  | _ => l
  end.

(** The absolute form of a link of the start page. *)
Definition absoluteUrl (pageUrl : string) (link : ExtractedLink) : string :=
  if startsWith (link_url link) "http" then link_url link
  else match urlResolve P (link_url link) pageUrl with
       | Some href => href
       | None => link_url link
       end.

(** [linksToFollow] of [followLinks]. *)
Definition selectStartLinks (options : NavigationOptions) (maxLinksToFollow : Z)
    (startContent : EnhancedWebpageContent) (url : string) : list ExtractedLink :=
  let keywords := keywordsOrEmpty (opt_filterByKeywords options) in
  let scoredLinks :=
    map (fun link =>
           let link := withUrl link (absoluteUrl url link) in
           withScore link (calculateLinkRelevance P link keywords startContent))
        (links startContent) in
  let filteredLinks :=
    List.filter (aboveThreshold (opt_relevanceThreshold options)) scoredLinks in
  let filteredLinks := filterByDomain options filteredLinks in
  let filteredLinks := filterByKeyword options filteredLinks in
  firstn (Z.to_nat maxLinksToFollow) (sortByRelevance filteredLinks).

(** [sortedPageLinks] of [followLinksRecursive]. *)
Definition selectPageLinks (options : NavigationOptions) (remainingDepth : Z)
    (c : EnhancedWebpageContent) : list ExtractedLink :=
  let keywords := keywordsOrEmpty (opt_filterByKeywords options) in
  let scoredLinks :=
    map (fun pageLink => withScore pageLink (calculateLinkRelevance P pageLink keywords c))
        (links c) in
  let pageLinks := filterByDomain options scoredLinks in
  let pageLinks := filterByKeyword options pageLinks in
  let pageLinks :=
    if Qlt_le_dec 0 (opt_relevanceThreshold options)
    then List.filter (aboveThreshold (opt_relevanceThreshold options)) pageLinks
    else pageLinks in
  firstn (Z.to_nat (deeperLinkCap remainingDepth)) (sortByRelevance pageLinks).

Definition addVisited (u : string) (t : Traversal) : Traversal :=
  {| visitedUrls := {[u]} ∪ visitedUrls t; result := result t |}.

Definition pushPage (page : PageVisited) (t : Traversal) : Traversal :=
  {| visitedUrls := visitedUrls t;
     result := {| startUrl := startUrl (result t);
                  pagesVisited := pagesVisited (result t) ++ [page];
                  navigationPath := navigationPath (result t) ++ [pv_url page];
                  relatedTopics := relatedTopics (result t) |} |}.

(** One round of the [for] loop of [followLinksRecursive]. [recurse] is the
    function itself one level deeper. Whatever is thrown inside the [try]
    is caught: the round ends and what was mutated stays mutated. *)
Definition followLink
    (recurse : list ExtractedLink -> string -> Traversal -> State -> Traversal * State)
    (sessionId : string) (remainingDepth : Z) (options : NavigationOptions)
    (parentUrl : string) (acc : Traversal * State) (link : ExtractedLink)
    : Traversal * State :=
  let '(t, s) := acc in
  if decide (link_url link ∈ visitedUrls t) then (t, s)
  else
    match extractEnhancedContent P W (link_url link) Markdown s with
    | (Throw _, s) => (t, s)
    | (Ok c, s) =>
        let t := addVisited (link_url link) t in
        match calculateRelevanceScore c (keywordsOrEmpty (opt_filterByKeywords options)) with
        | None => (t, s)
        | Some relevance =>
            let t := pushPage {| pv_url := link_url link;
                                 pv_title := wc_title (base c);
                                 pv_relevance := relevance;
                                 pv_summary := orElse (wc_summary (base c))
                                                      (generatePageSummary c) |} t in
            let '(t, s) :=
              if (1 <=? remainingDepth) && nonEmpty (links c) then
                let sortedPageLinks := selectPageLinks options remainingDepth c in
                if nonEmpty sortedPageLinks
                then recurse sortedPageLinks (link_url link) t s
                else (t, s)
              else (t, s) in
            let '(_, s) := visitUrl P W sessionId (link_url link) (Some parentUrl) s in
            (t, s)
        end
    end.

(** [remainingDepth] counts down to the base case [remainingDepth <= 0],
    which is [0] here: [followLinks] passes [depth - 1] truncated at 0. *)
Fixpoint followLinksRecursive (remainingDepth : nat) (sessionId : string)
    (linksToFollow : list ExtractedLink) (options : NavigationOptions)
    (parentUrl : string) (t : Traversal) (s : State) {struct remainingDepth}
    : Traversal * State :=
  match remainingDepth with
  | O => (t, s)
  | S deeper =>
      fold_left
        (followLink
           (fun ls parent t s => followLinksRecursive deeper sessionId ls options parent t s)
           sessionId (Z.of_nat remainingDepth) options parentUrl)
        linksToFollow (t, s)
  end.

Definition followLinks (sessionId : string) (params : FollowLinksParams)
    : M FollowLinksResult :=
  let url := fp_url params in
  let keywords := fp_keywords params in
  session <- getSession W sessionId ;;
  match session with
  | Some _ => ret tt
  | None => createSession W (option_map (join ", ") keywords) ;; ret tt
  end ;;
  startContent <- extractEnhancedContent P W url Markdown ;;
  visitUrl P W sessionId url None ;;
  let result0 :=
    {| startUrl := url;
       pagesVisited := [{| pv_url := url;
                           pv_title := wc_title (base startContent);
                           pv_relevance := 1;
                           pv_summary := orElse (wc_summary (base startContent))
                                                (generatePageSummary startContent) |}];
       navigationPath := [url];
       relatedTopics := [] |} in
  if (fp_depth params <=? 0) || (fp_maxLinksToFollow params <=? 0) then ret result0
  else if negb (nonEmpty (links startContent)) then ret result0
  else
    includeDomains <-
      (if fp_stayOnDomain params then
         match urlHostname P url with
         | Some hostname => ret [hostname]
         | None => throw UrlTypeError
         end
       else ret []) ;;
    let options :=
      {| opt_followLinks := true;
         opt_maxDepth := fp_depth params;
         opt_relevanceThreshold := 1#10;
         opt_filterByKeywords := keywords;
         opt_excludeDomains := [];
         opt_includeDomains := includeDomains |} in
    let linksToFollow :=
      selectStartLinks options (fp_maxLinksToFollow params) startContent url in
    fun s =>
      let '(t, s) :=
        followLinksRecursive (Z.to_nat (fp_depth params - 1)) sessionId linksToFollow
          options url {| visitedUrls := {[url]}; result := result0 |} s in
      (Ok {| startUrl := startUrl (result t);
             pagesVisited := pagesVisited (result t);
             navigationPath := navigationPath (result t);
             relatedTopics := extractRelatedTopics (pagesVisited (result t)) |}, s).

End Navigation.

(** ** A small web to run the services on *)

Module Demo.

(** Host of [scheme://host/path] for the schemes [http] and [https]. *)
Fixpoint upToSlash (s : string) : string :=
  match s with
  | EmptyString => EmptyString
  | String c rest => if Ascii.eqb c "/"%char then EmptyString else String c (upToSlash rest)
  end.

Definition afterScheme (s : string) : option string :=
  if String.prefix "https://" s then Some (String.substring 8 (String.length s - 8) s)
  else if String.prefix "http://" s then Some (String.substring 7 (String.length s - 7) s)
  else None.

Definition hostname (s : string) : option string :=
  match afterScheme s with
  | Some rest => if truthy (upToSlash rest) then Some (upToSlash rest) else None
  | None => None
  end.

Definition resolve (rel pageUrl : string) : option string :=
  match hostname pageUrl with
  | Some h => if String.prefix "/" rel then Some ("https://" ++ h ++ rel) else None
  | None => None
  end.

Fixpoint splitOnSpace (s : string) (word : string) : list string :=
  match s with
  | EmptyString => if truthy word then [word] else []
  | String c rest =>
      if Ascii.eqb c " "%char
      then (if truthy word then [word] else []) ++ splitOnSpace rest ""
      else splitOnSpace rest (word ++ String c "")
  end.

Definition platform : Platform :=
  {| urlHostname := hostname;
     urlResolve := resolve;
     regexWordMatches := fun keyword text => Some (if includes text keyword then 1%nat else 0%nat);
     splitSentences := fun s => [s];
     titleWords := fun s => splitOnSpace (toLowerCase s) "" |}.

Definition pageA : string := "https://example.com/a".
Definition pageB : string := "https://example.com/b".
Definition pageC : string := "https://example.com/c".
Definition pageD : string := "https://example.com/d".
Definition pageE : string := "https://example.com/e".

Definition linkTo (u anchor : string) : ExtractedLink :=
  {| link_url := u; link_text := anchor; link_context := "";
     link_relevanceScore := None |}.

(** [a] links to [b] twice and to itself; [b] links to [c], [d], [e] and
    back to [a]; the other pages have no links. *)
Definition outlinks (u : string) : list ExtractedLink :=
  if String.eqb u pageA then
    [linkTo pageB "Battery storage"; linkTo pageB "Battery storage"; linkTo pageA "Home page"]
  else if String.eqb u pageB then
    [linkTo pageC "Solar power"; linkTo pageD "Wind power";
     linkTo pageE "Hydro power"; linkTo pageA "Home page"]
  else [].

Definition known (u : string) : bool :=
  existsb (String.eqb u) [pageA; pageB; pageC; pageD; pageE].

Definition world : World :=
  {| clock := fun n => 1000 + Z.of_nat n;
     uuidv4 := fun n => "session-" ++ NilZero.string_of_uint (Nat.to_uint n);
     axiosGet := fun _ u _ =>
       if known u
       then Extracted {| pd_title := "Page " ++ u; pd_description := "";
                         pd_content := "Text of " ++ u ++ ".";
                         pd_summary := "Text of " ++ u ++ ".";
                         pd_headings := [] |}
       else AxiosFailure "timeout of 30000ms exceeded";
     fetchEnhance := fun _ u =>
       Some {| en_links := outlinks u; en_images := [];
               en_structuredData := emptyStructuredData; en_credibility := 1#2 |} |}.

(** The same web when every request times out. *)
Definition offline : World :=
  {| clock := clock world;
     uuidv4 := uuidv4 world;
     axiosGet := fun _ _ _ => AxiosFailure "timeout of 30000ms exceeded";
     fetchEnhance := fun _ _ => None |}.

(** The same web when only the second request of every page fails. *)
Definition plain : World :=
  {| clock := clock world;
     uuidv4 := uuidv4 world;
     axiosGet := axiosGet world;
     fetchEnhance := fun _ _ => None |}.

Definition initial : State :=
  {| contentCache := []; sessions := ∅; tick := 0; trace := [] |}.

(** A state in which session [s1] exists. *)
Definition withSession : State :=
  snd (createSession {| clock := clock world; uuidv4 := fun _ => "s1";
                        axiosGet := axiosGet world;
                        fetchEnhance := fetchEnhance world |} None initial).

Definition params (depth maxLinks : Z) : FollowLinksParams :=
  {| fp_url := pageA; fp_keywords := None; fp_maxLinksToFollow := maxLinks;
     fp_depth := depth; fp_stayOnDomain := false |}.

(** Page [a] as a source document, and three links found on it. *)
Definition contentA : EnhancedWebpageContent :=
  {| base := {| wc_url := pageA; wc_title := "Page a"; wc_description := "";
                wc_content := "Text of a."; wc_format := Markdown;
                wc_summary := "Text of a."; wc_headings := [] |};
     links := outlinks pageA; images := [];
     structuredData := emptyStructuredData; lastVisited := 1000;
     sourceCredibility := None |}.

(** A cache filled to its limit: fifty pages stamped 0 to 49, read at
    tick 100. *)
Definition numbered (n : nat) : string :=
  "https://example.com/p" ++ NilZero.string_of_uint (Nat.to_uint n).

Definition fullCache : list (string * ContentCacheEntry) :=
  map (fun n => (generateCacheKey (numbered n) Markdown,
                 {| timestamp := Z.of_nat n; content := base contentA |}))
      (seq 0 50).

Definition fullState : State :=
  {| contentCache := fullCache; sessions := ∅; tick := 100; trace := [] |}.

Definition energyLink : ExtractedLink := linkTo pageB "energy and solar".

Definition shortLink : ExtractedLink :=
  {| link_url := pageB; link_text := "Go"; link_context := "solar energy";
     link_relevanceScore := None |}.

Definition mediumLink : ExtractedLink :=
  {| link_url := pageB; link_text := "Read more"; link_context := "solar energy";
     link_relevanceScore := None |}.

End Demo.


(** ** Observations on states and traces *)

Definition eventUrl (ev : Event) : string :=
  match ev with EvExtract u | EvAxiosGet u | EvFetch u => u end.

(** The requests [extractContent] sent to the network. *)
Definition axiosRequests (t : list Event) : list string :=
  flat_map (fun ev => match ev with EvAxiosGet u => [u] | _ => [] end) t.

(** The URLs handed to [extractEnhancedContent], in call order. *)
Definition extractedUrls (t : list Event) : list string :=
  flat_map (fun ev => match ev with EvExtract u => [u] | _ => [] end) t.

(** The contract's [get(key)]: an entry that is present and still valid at
    time [now]. *)
Definition validEntry (now : Z) (key : string)
    (cache : list (string * ContentCacheEntry)) : option WebpageContent :=
  match cacheGet key cache with
  | Some entry => if now - timestamp entry <? cacheTTL then Some (content entry) else None
  | None => None
  end.

(** The size check of [cacheContent] on the map it has just written to. *)
Definition evictOldest (cache : list (string * ContentCacheEntry))
    : list (string * ContentCacheEntry) :=
  if (maxCacheEntries <? List.length cache)%nat then
    match sortByTimestamp cache with
    | (oldestKey, _) :: _ => cacheDelete oldestKey cache
    | [] => cache
    end
  else cache.

(** The tick at which a call of [extractContent] that misses the cache sends
    its request: reading a stale entry costs one look at the clock. *)
Definition requestTick (s : State) (url : string) (format : OutputFormat) : nat :=
  match cacheGet (generateCacheKey url format) (contentCache s) with
  | Some _ => S (tick s)
  | None => tick s
  end.

(** A method is quiet about [url] when it leaves the sessions alone and
    adds to the trace only events that concern [url]. *)
Definition Quiet {A} (url : string) (m : M A) : Prop :=
  forall s,
    sessions (snd (m s)) = sessions s
    /\ exists events, trace (snd (m s)) = (trace s ++ events)%list
                      /\ Forall (fun ev => eventUrl ev = url) events.

(** What a traversal must keep true of the objects it mutates: no URL
    occurs twice in [pagesVisited] or in [navigationPath], and every URL in
    either list is in the visited-set. *)
Definition noRevisit (t : Traversal) : Prop :=
  NoDup (pv_url <$> pagesVisited (result t))
  /\ NoDup (navigationPath (result t))
  /\ (forall u, u ∈ (pv_url <$> pagesVisited (result t)) -> u ∈ visitedUrls t)
  /\ (forall u, u ∈ navigationPath (result t) -> u ∈ visitedUrls t).

(** The site answers every request for [url] in [format]. *)
Definition reachable (W : World) (url : string) (format : OutputFormat) : Prop :=
  forall i, exists page, axiosGet W i url format = Extracted page.

(** Entries carry time stamps of the past and the clock never runs back. *)
Definition stampedInPast (W : World) (s : State) : Prop :=
  Forall (fun ke => forall i, (tick s <= i)%nat -> timestamp (snd ke) <= clock W i)
         (contentCache s).

(** What every cache reached from the empty one satisfies while the clock
    does not run back: keys are distinct, the entry count is within its
    bound, and no time stamp lies in the future. *)
Definition cacheWellFormed (W : World) (s : State) : Prop :=
  List.NoDup (map fst (contentCache s))
  /\ (List.length (contentCache s) <= maxCacheEntries)%nat
  /\ stampedInPast W s.

(** * More of the services

    The methods of the same classes that the properties above do not reach,
    and the tool handler that calls [followLinks]. *)

(** ** ContentExtractor.generateSummary *)

(** White space as [String.prototype.trim] sees it among the ASCII
    characters: tab, line feed, vertical tab, form feed, carriage return
    and space. *)
Definition isSpace (c : ascii) : bool :=
  let n := nat_of_ascii c in ((9 <=? n) && (n <=? 13))%nat || (n =? 32)%nat.

Fixpoint trimStart (s : string) : string :=
  match s with
  | EmptyString => EmptyString
  | String c rest => if isSpace c then trimStart rest else s
  end.

Fixpoint trimEnd (s : string) : string :=
  match s with
  | EmptyString => EmptyString
  | String c rest =>
      match trimEnd rest with
      | EmptyString => if isSpace c then EmptyString else String c EmptyString
      | kept => String c kept
      end
  end.

Definition trim (s : string) : string := trimEnd (trimStart s).

(** The [for] loop of [generateSummary]: sentences are added, each followed
    by a space, until one does not fit. *)
Fixpoint summaryLoop (maxLength : Z) (sentences : list string) (summary : string)
    : string :=
  match sentences with
  | [] => summary
  | sentence :: rest =>
      if strlen (summary ++ sentence) <=? maxLength
      then summaryLoop maxLength rest (summary ++ sentence ++ " ")
      else summary
  end.

Definition generateSummary (P : Platform) (text : string) (maxLength : Z) : string :=
  let summary := summaryLoop maxLength (splitSentences P text) "" in
  trim summary ++ (if strlen summary <? strlen text then "..." else "").

(** ** EnhancedContentExtractor.assessSourceCredibility *)






(** ** BrowsingSessionService, the remaining methods *)

(** A link as [scoreLinksRelevance] returns it: the link with its score
    set, and [isRelevant]. *)
Record ScoredLink := {
  sl_link : ExtractedLink;
  sl_isRelevant : bool
}.

(** What the methods below can throw beside the errors seen so far. *)
Inductive Raised :=
| Base (e : Error)
| NoActiveSession.

Inductive Attempt (A : Type) :=
| Done (a : A)
| Raise (r : Raised).
Arguments Done {A} a.
Arguments Raise {A} r.

Definition SESSION_TIMEOUT : Z := 30 * 60 * 1000.

Definition replaceBookmarks (bookmarks : list string) (session : BrowsingSession)
    : BrowsingSession :=
  {| bs_id := bs_id session;
     bs_startTime := bs_startTime session;
     bs_lastActivityTime := bs_lastActivityTime session;
     bs_topic := bs_topic session;
     bs_currentUrl := bs_currentUrl session;
     bs_history := bs_history session;
     bs_bookmarks := bookmarks;
     bs_sessionSummary := bs_sessionSummary session;
     bs_researchQuestions := bs_researchQuestions session |}.

Section MoreSessions.
Context (P : Platform) (W : World).
Local Open Scope method_scope.

Definition addBookmark (sessionId url : string) : M unit :=
  found <- getSession W sessionId ;;
  match found with
  | None => throw (SessionNotFound sessionId)
  | Some session =>
      if existsb (String.eqb url) (bs_bookmarks session) then ret tt
      else modify (fun s =>
             withSessions
               (<[sessionId := replaceBookmarks (bs_bookmarks session ++ [url])%list session]>
                  (sessions s)) s)
  end.

(** A session is swept when it has been idle for more than the timeout. *)
Definition expired (now : Z) (session : BrowsingSession) : bool :=
  SESSION_TIMEOUT <? now - bs_lastActivityTime session.

Definition cleanupExpiredSessions : M unit :=
  now <- dateNow W ;;
  modify (fun s =>
    withSessions (filter (fun entry => expired now (snd entry) = false) (sessions s)) s).

(** The body of the [map] of [scoreLinksRelevance]; [None] when
    [new URL(link.url)] throws. *)
Definition scoreLinkRelevance (options : NavigationOptions) (link : ExtractedLink)
    : option ScoredLink :=
  let relevanceScore : Q :=
    match opt_filterByKeywords options with
    | Some (k :: ks) =>
        let combinedText := toLowerCase (link_text link ++ " " ++ link_context link) in
        let matchCount :=
          List.length (List.filter (fun keyword => includes combinedText (toLowerCase keyword))
                                   (k :: ks)) in
        if (0 <? matchCount)%nat
        then Qmin (9#10)
                  ((5#10) + (inject_Z (Z.of_nat matchCount)
                             / inject_Z (Z.of_nat (List.length (k :: ks)))) * (4#10))%Q
        else 3#10
    | _ => 5#10
    end in
  let included : option Q :=
    if nonEmpty (opt_includeDomains options) then
      match urlHostname P (link_url link) with
      | Some linkDomain =>
          if existsb (fun domain => includes linkDomain domain) (opt_includeDomains options)
          then Some relevanceScore else Some (relevanceScore * (5#10))%Q
      | None => None
      end
    else Some relevanceScore in
  match included with
  | None => None
  | Some relevanceScore =>
      let excluded : option Q :=
        if nonEmpty (opt_excludeDomains options) then
          match urlHostname P (link_url link) with
          | Some linkDomain =>
              if existsb (fun domain => includes linkDomain domain)
                         (opt_excludeDomains options)
              then Some (1#10)%Q else Some relevanceScore
          | None => None
          end
        else Some relevanceScore in
      match excluded with
      | None => None
      | Some relevanceScore =>
          Some {| sl_link := withScore link relevanceScore;
                  sl_isRelevant := Qle_bool (opt_relevanceThreshold options) relevanceScore |}
      end
  end.

(** [links.map(...)]: the first link whose URL does not parse ends the
    call. *)
Fixpoint scoreLinksRelevance (linksToScore : list ExtractedLink) (topic : string)
    (options : NavigationOptions) : option (list ScoredLink) :=
  match linksToScore with
  | [] => Some []
  | link :: rest =>
      match scoreLinkRelevance options link with
      | None => None
      | Some scored =>
          match scoreLinksRelevance rest topic options with
          | None => None
          | Some others => Some (scored :: others)
          end
      end
  end.

Definition topicOrEmpty (topic : option string) : string :=
  match topic with Some t => orElse t "" | None => "" end.

Definition followRelevantLinks (sessionId : string) (options : NavigationOptions)
    (s : State) : Attempt (list ScoredLink * list ScoredLink) * State :=
  match getSession W sessionId s with
  | (Throw e, s) => (Raise (Base e), s)
  | (Ok None, s) => (Raise NoActiveSession, s)
  | (Ok (Some session), s) =>
      match bs_currentUrl session with
      | None => (Raise NoActiveSession, s)
      | Some currentUrl =>
          if negb (truthy currentUrl) then (Raise NoActiveSession, s)
          else
            match extractEnhancedContent P W currentUrl Markdown s with
            | (Throw _, s) => (Done ([], []), s)
            | (Ok c, s) =>
                match links c with
                | [] => (Done ([], []), s)
                | extractedLinks =>
                    match scoreLinksRelevance extractedLinks
                            (topicOrEmpty (bs_topic session)) options with
                    | None => (Done ([], []), s)
                    | Some scoredLinks =>
                        (Done (scoredLinks,
                               List.filter
                                 (fun link => Qle_bool (opt_relevanceThreshold options)
                                                       (scoreOf (sl_link link)))
                                 scoredLinks), s)
                    end
                end
            end
      end
  end.

End MoreSessions.

(** [links.sort((a, b) => (b.relevanceScore || 0) - (a.relevanceScore || 0))]
    on scored links, stable. *)
Fixpoint insertScored (x : ScoredLink) (sorted : list ScoredLink) : list ScoredLink :=
  match sorted with
  | [] => [x]
  | y :: rest =>
      if Qle_bool (scoreOf (sl_link y)) (scoreOf (sl_link x)) then x :: y :: rest
      else y :: insertScored x rest
  end.

Definition sortScored (l : list ScoredLink) : list ScoredLink :=
  fold_right insertScored [] l.

(** [l.slice(0, n)]: a negative [n] counts from the end. *)
Definition sliceTo {A} (n : Z) (l : list A) : list A :=
  if n <? 0 then firstn (Z.to_nat (Z.of_nat (List.length l) + n)) l
  else firstn (Z.to_nat n) l.

Section MoreNavigation.
Context (P : Platform) (W : World).
(** [context.split(/\s+/)] *)
Context (splitWhitespace : string -> list string).

Definition getSuggestedLinks (sessionId url : string) (context : option string)
    (maxSuggestions : Z) (s : State) : Attempt (list ScoredLink) * State :=
  match getSession W sessionId s with
  | (Throw e, s) => (Raise (Base e), s)
  | (Ok None, s) => (Raise (Base (SessionNotFound sessionId)), s)
  | (Ok (Some session), s) =>
      let visited : Outcome unit * State :=
        if match bs_currentUrl session with
           | Some currentUrl => String.eqb currentUrl url
           | None => false
           end
        then (Ok tt, s)
        else
          match extractEnhancedContent P W url Markdown s with
          | (Throw e, s) => (Throw e, s)
          | (Ok _, s) =>
              match visitUrl P W sessionId url None s with
              | (Throw e, s) => (Throw e, s)
              | (Ok _, s) => (Ok tt, s)
              end
          end in
      match visited with
      | (Throw e, s) => (Raise (Base e), s)
      | (Ok _, s) =>
          let options :=
            {| opt_followLinks := true;
               opt_maxDepth := 1;
               opt_relevanceThreshold := 2#10;
               opt_filterByKeywords :=
                 match context with
                 | Some text => if truthy text then Some (splitWhitespace text) else None
                 | None => None
                 end;
               opt_excludeDomains := [];
               opt_includeDomains := [] |} in
          match followRelevantLinks P W sessionId options s with
          | (Raise r, s) => (Raise r, s)
          | (Done (scoredLinks, _), s) =>
              (Done (sliceTo maxSuggestions (sortScored scoredLinks)), s)
          end
      end
  end.

End MoreNavigation.

(** ** NavigationHandlers (handlers/navigation-handlers.ts) *)

Record ActiveSession := {
  as_id : string;
  as_topic : option string;
  as_lastActivity : Z
}.

(** The handler's own map of sessions beside the state of the services. *)
Record HandlerState := {
  services : State;
  activeSessions : gmap string ActiveSession
}.

(** The arguments of the [contextual_navigation] tool as the handler reads
    them; [arg_stay_on_domain] is [stay_on_domain === true]. *)
Record NavigationArgs := {
  arg_url : option string;
  arg_keywords : option (list string);
  arg_depth : option Z;
  arg_max_links : option Z;
  arg_session_id : option string;
  arg_stay_on_domain : bool
}.

(** What the handler answers: the text it renders from the session id, the
    depth, the keywords and the result of the traversal, or the error text
    with [isError]. The reply is kept as the data the text is rendered
    from. *)
Inductive ToolReply :=
| TextReply (sessionId : string) (depth : Z) (res : FollowLinksResult)
| ErrorReply (e : Error).

(** [x || fallback] on a number that may be missing: [0] is falsy. *)
Definition numberOr (x : option Z) (fallback : Z) : Z :=
  match x with
  | Some n => if n =? 0 then fallback else n
  | None => fallback
  end.

Definition validDepth (depth : option Z) : Z := Z.max 1 (Z.min 3 (numberOr depth 1)).

Definition validMaxLinks (maxLinks : option Z) : Z :=
  Z.max 1 (Z.min 5 (numberOr maxLinks 3)).

Definition handlerExpireTime : Z := 2 * 60 * 60 * 1000.

Section Handlers.
Context (P : Platform) (W : World).

(** The session the request runs in: a new one when no id is given or the
    handler does not know it, otherwise the one named. *)
Definition resolveSession (args : NavigationArgs) (h : HandlerState)
    : Outcome string * HandlerState :=
  let topic := option_map (join ", ") (arg_keywords args) in
  let known :=
    match arg_session_id args with
    | Some sessionId =>
        if truthy sessionId
        then match activeSessions h !! sessionId with
             | Some entry => Some (sessionId, entry)
             | None => None
             end
        else None
    | None => None
    end in
  match known with
  | None =>
      match createSession W topic (services h) with
      | (Throw e, s) => (Throw e, {| services := s; activeSessions := activeSessions h |})
      | (Ok newSession, s) =>
          let sessionId := bs_id newSession in
          match dateNow W s with
          | (Throw e, s) => (Throw e, {| services := s; activeSessions := activeSessions h |})
          | (Ok now, s) =>
              (Ok sessionId,
               {| services := s;
                  activeSessions :=
                    <[sessionId := {| as_id := sessionId; as_topic := topic;
                                      as_lastActivity := now |}]> (activeSessions h) |})
          end
      end
  | Some (sessionId, entry) =>
      match dateNow W (services h) with
      | (Throw e, s) => (Throw e, {| services := s; activeSessions := activeSessions h |})
      | (Ok now, s) =>
          let active :=
            <[sessionId := {| as_id := as_id entry; as_topic := as_topic entry;
                              as_lastActivity := now |}]> (activeSessions h) in
          match getSession W sessionId s with
          | (Throw e, s) => (Throw e, {| services := s; activeSessions := active |})
          | (Ok (Some _), s) => (Ok sessionId, {| services := s; activeSessions := active |})
          | (Ok None, s) =>
              match createSession W topic s with
              | (Throw e, s) => (Throw e, {| services := s; activeSessions := active |})
              | (Ok _, s) => (Ok sessionId, {| services := s; activeSessions := active |})
              end
          end
      end
  end.

(** [None] is the error thrown before the [try]: the URL is required. *)
Definition handleContextualNavigation (args : NavigationArgs) (h : HandlerState)
    : option ToolReply * HandlerState :=
  match arg_url args with
  | None => (None, h)
  | Some url =>
      if negb (truthy url) then (None, h)
      else
        match resolveSession args h with
        | (Throw e, h) => (Some (ErrorReply e), h)
        | (Ok sessionId, h) =>
            let params :=
              {| fp_url := url;
                 fp_keywords := arg_keywords args;
                 fp_maxLinksToFollow := validMaxLinks (arg_max_links args);
                 fp_depth := validDepth (arg_depth args);
                 fp_stayOnDomain := arg_stay_on_domain args |} in
            match followLinks P W sessionId params (services h) with
            | (Throw e, s) =>
                (Some (ErrorReply e),
                 {| services := s; activeSessions := activeSessions h |})
            | (Ok res, s) =>
                (Some (TextReply sessionId (validDepth (arg_depth args)) res),
                 {| services := s; activeSessions := activeSessions h |})
            end
        end
  end.

(** NavigationHandlers.cleanupExpiredSessions *)
Definition cleanupActiveSessions (h : HandlerState) : HandlerState :=
  match dateNow W (services h) with
  | (Ok now, s) =>
      {| services := s;
         activeSessions :=
           filter (fun entry => (handlerExpireTime <? now - as_lastActivity (snd entry)) = false)
                  (activeSessions h) |}
  | (Throw _, s) => {| services := s; activeSessions := activeSessions h |}
  end.

End Handlers.

(** ** Measures of a traversal *)

(** How many pages a traversal can add below [width] links with
    [remainingDepth] levels to go: each link adds its page and what the
    links picked on that page add one level deeper. *)
Fixpoint pagesBound (remainingDepth : nat) (width : nat) : nat :=
  match remainingDepth with
  | O => 0
  | S deeper =>
      width * (1 + pagesBound deeper (Z.to_nat (deeperLinkCap (Z.of_nat remainingDepth))))
  end.

(** The host name of [url] contains [host]. *)
Definition onDomain (P : Platform) (host url : string) : bool :=
  match urlHostname P url with
  | Some linkDomain => includes linkDomain host
  | None => false
  end.

(** [later] is [earlier] with the pages [more] appended to [pagesVisited]
    and their URLs to [navigationPath]. *)
Definition extends (earlier later : Traversal) (more : list PageVisited) : Prop :=
  pagesVisited (result later) = (pagesVisited (result earlier) ++ more)%list
  /\ navigationPath (result later)
     = (navigationPath (result earlier) ++ (pv_url <$> more))%list
  /\ startUrl (result later) = startUrl (result earlier)
  /\ relatedTopics (result later) = relatedTopics (result earlier).

(** The options [followLinks] builds from its parameters. *)
Definition optionsOf (P : Platform) (params : FollowLinksParams)
    (options : NavigationOptions) : Prop :=
  opt_filterByKeywords options = fp_keywords params
  /\ opt_relevanceThreshold options = 1#10
  /\ opt_includeDomains options
     = if fp_stayOnDomain params
       then match urlHostname P (fp_url params) with Some h => [h] | None => [] end
       else [].

(** Scores in non-increasing order. *)
Fixpoint descending (scores : list Q) : Prop :=
  match scores with
  | [] => True
  | x :: rest => Forall (fun y => (y <= x)%Q) rest /\ descending rest
  end.

(** The bounds of a score of [scoreLinksRelevance]. *)
Definition withinScoreBounds (link : ScoredLink) : Prop :=
  ((1#10) <= scoreOf (sl_link link) /\ scoreOf (sl_link link) <= (9#10))%Q.

(** A method preserves a property of the state when the property holds
    after every call made in a state where it holds, whether the call
    returns or throws. *)
Definition Preserves {A} (Inv : State -> Prop) (m : M A) : Prop :=
  forall s, Inv s -> Inv (snd (m s)).

(** Session [known] exists. *)
Definition hasSession (known : string) (s : State) : Prop :=
  is_Some (sessions s !! known).

(** The cache is within its limit. *)
Definition withinCapacity (s : State) : Prop :=
  (List.length (contentCache s) <= maxCacheEntries)%nat.

(** The events a call added to the trace. *)
Definition added (before after : State) (events : list Event) : Prop :=
  trace after = (trace before ++ events)%list.

(** The enhancement requests among the events. *)
Definition fetchRequests (t : list Event) : list string :=
  flat_map (fun ev => match ev with EvFetch u => [u] | _ => [] end) t.

(** ** A second sample *)

Module Sample.

Definition keywords : list string := ["energy"; "solar"].

Definition options : NavigationOptions :=
  {| opt_followLinks := true; opt_maxDepth := 1; opt_relevanceThreshold := 2#10;
     opt_filterByKeywords := Some keywords;
     opt_excludeDomains := ["ads.example.com"];
     opt_includeDomains := [] |}.

Definition adLink : ExtractedLink :=
  {| link_url := "https://ads.example.com/solar"; link_text := "Solar energy deals";
     link_context := ""; link_relevanceScore := None |}.


(** A traversal of [Demo] that stays on the site of its start page. *)
Definition onSite : FollowLinksParams :=
  {| fp_url := Demo.pageA; fp_keywords := None; fp_maxLinksToFollow := 5;
     fp_depth := 3; fp_stayOnDomain := true |}.

(** Session [s1] of [Demo] after a visit to page [b]. *)
Definition visited : State :=
  snd (visitUrl Demo.platform Demo.world "s1" Demo.pageB None Demo.withSession).

Definition args : NavigationArgs :=
  {| arg_url := Some Demo.pageA; arg_keywords := None; arg_depth := Some 3;
     arg_max_links := Some 5; arg_session_id := None; arg_stay_on_domain := true |}.

Definition handler : HandlerState :=
  {| services := Demo.initial; activeSessions := ∅ |}.

(** The handler still knows session [s1]; the service has swept it. *)
Definition staleHandler : HandlerState :=
  {| services := Demo.initial;
     activeSessions := {[ "s1" := {| as_id := "s1"; as_topic := None;
                                      as_lastActivity := 0 |} ]} |}.

(** Session [s1] is known to the handler and to the service, last used at
    time 1001. *)
Definition idleHandler : HandlerState :=
  {| services := Demo.withSession;
     activeSessions := {[ "s1" := {| as_id := "s1"; as_topic := None;
                                      as_lastActivity := 1001 |} ]} |}.

Definition staleArgs : NavigationArgs :=
  {| arg_url := Some Demo.pageA; arg_keywords := None; arg_depth := Some 2;
     arg_max_links := Some 2; arg_session_id := Some "s1"; arg_stay_on_domain := false |}.

(** The web of [Demo] two hours later, every page answering with new
    text. *)
Definition freshPage : PageData :=
  {| pd_title := "Second edition"; pd_description := ""; pd_content := "New text.";
     pd_summary := "New text."; pd_headings := [] |}.

Definition lateWorld : World :=
  {| clock := fun n => 7200000 + Z.of_nat n;
     uuidv4 := uuidv4 Demo.world;
     axiosGet := fun _ _ _ => Extracted freshPage;
     fetchEnhance := fetchEnhance Demo.world |}.

End Sample.


(** * Properties *)

Local Open Scope list_scope.

Arguments cacheContent : simpl never.
Arguments extractContent : simpl never.
Arguments enhanceContent : simpl never.
Arguments extractEnhancedContent : simpl never.
Arguments getSession : simpl never.
Arguments createSession : simpl never.
Arguments visitUrl : simpl never.

(** ** The method monad *)

Lemma bind_ok {A B} (m : M A) (k : A -> M B) s a s' :
  m s = (Ok a, s') -> bind m k s = k a s'.
Proof. intros H. unfold bind. now rewrite H. Qed.

Lemma bind_throw {A B} (m : M A) (k : A -> M B) s e s' :
  m s = (Throw e, s') -> bind m k s = (Throw e, s').
Proof. intros H. unfold bind. now rewrite H. Qed.

Lemma bind_inv {A B} (m : M A) (k : A -> M B) s b s' :
  bind m k s = (Ok b, s') -> exists a s1, m s = (Ok a, s1) /\ k a s1 = (Ok b, s').
Proof.
  unfold bind. destruct (m s) as [[a|e] s1]; [eauto|discriminate].
Qed.

(** ** Link relevance *)

Section LinkRelevanceFacts.
Context (P : Platform).
Local Open Scope Q_scope.

Lemma keywordStep_contribution link score keyword :
  keywordStep link score keyword == score + keywordContribution link keyword.
Proof.
  unfold keywordStep, keywordContribution.
  destruct (textSignal link keyword), (urlSignal link keyword),
    (contextSignal link keyword); ring.
Qed.

Lemma keywordLoop_sum link keywords : forall score,
  fold_left (keywordStep link) keywords score == score + keywordSum link keywords.
Proof.
  induction keywords as [|k ks IH]; intros score; simpl.
  - ring.
  - rewrite IH, keywordStep_contribution. ring.
Qed.

Lemma keywordContribution_bounds link keyword :
  0 <= keywordContribution link keyword <= 7#10.
Proof.
  unfold keywordContribution.
  destruct (textSignal link keyword), (urlSignal link keyword),
    (contextSignal link keyword); split; lra.
Qed.

Lemma keywordSum_bounds link keywords :
  0 <= keywordSum link keywords
  /\ keywordSum link keywords <= (7#10) * inject_Z (Z.of_nat (List.length keywords)).
Proof.
  induction keywords as [|k ks [IHlo IHhi]].
  - split; unfold Qle; simpl; lia.
  - cbn [keywordSum fold_right List.length].
    fold (keywordSum link ks).
    pose proof (keywordContribution_bounds link k) as [Hlo Hhi].
    rewrite Nat2Z.inj_succ, <- Z.add_1_r, inject_Z_plus.
    change (inject_Z 1) with 1. split; lra.
Qed.

Lemma keywordSum_same_signals l1 l2 keywords :
  (forall keyword, In keyword keywords ->
     textSignal l1 keyword = textSignal l2 keyword
     /\ urlSignal l1 keyword = urlSignal l2 keyword
     /\ contextSignal l1 keyword = contextSignal l2 keyword) ->
  keywordSum l1 keywords = keywordSum l2 keywords.
Proof.
  induction keywords as [|k ks IH]; intros Hsig; [reflexivity|].
  cbn [keywordSum fold_right]. fold (keywordSum l1 ks) (keywordSum l2 ks).
  rewrite IH by (intros kw Hkw; apply Hsig; now right).
  unfold keywordContribution.
  destruct (Hsig k (or_introl eq_refl)) as (-> & -> & ->). reflexivity.
Qed.

Lemma keywordCount_positive (keywords : list string) :
  keywords <> [] -> 0 < inject_Z (Z.of_nat (List.length keywords)).
Proof.
  destruct keywords as [|k ks]; [congruence|]. intros _.
  change 0 with (inject_Z 0). rewrite <- Zlt_Qlt. cbn [List.length]. lia.
Qed.

Lemma calculateLinkRelevance_adjusted link keywords parentContent :
  calculateLinkRelevance P link keywords parentContent
  == adjustedLinkScore P link keywords parentContent.
Proof.
  unfold calculateLinkRelevance, adjustedLinkScore.
  destruct keywords as [|k ks]; [reflexivity|].
  set (n := inject_Z (Z.of_nat (List.length (k :: ks)))).
  assert (Hn : 0 < n) by (apply keywordCount_positive; congruence).
  pose proof (keywordLoop_sum link (k :: ks) 0) as Hsum.
  set (loop := fold_left (keywordStep link) (k :: ks) 0) in *.
  set (total := keywordSum link (k :: ks)) in *.
  assert (Hloop : loop == total) by (rewrite Hsum; ring).
  destruct (sameDomain P link (wc_url (base parentContent)));
    destruct (strlen (link_text link) <? 5)%Z;
    destruct (20 <? strlen (link_text link))%Z;
    rewrite Hloop; apply Q.min_compat; try reflexivity;
    field; lra.
Qed.

End LinkRelevanceFacts.

(** C2 (as amended). The link score is 0.6 without keywords; with keywords
    it is the per-keyword sum (+0.3 text or context, +0.2 target URL, +0.2
    context), plus 0.1 for a shared host name, times 0.5 for an anchor text
    shorter than 5 characters, plus 0.1 for one longer than 20, and only
    then divided by the keyword count and capped at 1; it lies in [0,1]. *)
Theorem link_score_divides_last (P : Platform) (link : ExtractedLink)
    (keywords : list string) (parentContent : EnhancedWebpageContent) :
  (calculateLinkRelevance P link keywords parentContent
   == adjustedLinkScore P link keywords parentContent)%Q
  /\ (0 <= calculateLinkRelevance P link keywords parentContent <= 1)%Q.
Proof.
  split; [apply calculateLinkRelevance_adjusted|].
  rewrite calculateLinkRelevance_adjusted. unfold adjustedLinkScore.
  destruct keywords as [|k ks]; [split; lra|].
  set (n := inject_Z (Z.of_nat (List.length (k :: ks)))).
  assert (Hn : (0 < n)%Q) by (apply keywordCount_positive; congruence).
  destruct (keywordSum_bounds link (k :: ks)) as [Hlo _].
  split; [|apply Q.le_min_r].
  apply Q.min_glb; [|lra].
  apply Qle_shift_div_l; [exact Hn|].
  destruct (sameDomain P link (wc_url (base parentContent)));
    destruct (strlen (link_text link) <? 5);
    destruct (20 <? strlen (link_text link)); lra.
Qed.

(** C2, the claim as worded fails: two keywords that both occur in the
    anchor text of a same-host link give 0.35, the reference formula 0.4. *)
Lemma link_score_reference_mismatch :
  (calculateLinkRelevance Demo.platform Demo.energyLink ["energy"; "solar"] Demo.contentA
   == 35#100)%Q
  /\ (referenceLinkScore Demo.platform Demo.energyLink ["energy"; "solar"] Demo.contentA
      == 4#10)%Q
  /\ ~ (calculateLinkRelevance Demo.platform Demo.energyLink ["energy"; "solar"] Demo.contentA
        == referenceLinkScore Demo.platform Demo.energyLink ["energy"; "solar"] Demo.contentA)%Q.
Proof.
  split; [vm_compute; reflexivity|].
  split; [vm_compute; reflexivity|].
  intros H. vm_compute in H. discriminate H.
Qed.

(** C4. With at least one keyword, a link whose anchor text is shorter than
    5 characters scores exactly half of what a link with the same keyword
    and host-name signals and an anchor text of 5 to 20 characters scores. *)
Theorem short_anchor_halves_score (P : Platform) (shortL otherL : ExtractedLink)
    (keywords : list string) (parentContent : EnhancedWebpageContent) :
  keywords <> [] ->
  strlen (link_text shortL) < 5 ->
  5 <= strlen (link_text otherL) <= 20 ->
  (forall keyword, In keyword keywords ->
     textSignal shortL keyword = textSignal otherL keyword
     /\ urlSignal shortL keyword = urlSignal otherL keyword
     /\ contextSignal shortL keyword = contextSignal otherL keyword) ->
  sameDomain P shortL (wc_url (base parentContent))
  = sameDomain P otherL (wc_url (base parentContent)) ->
  (calculateLinkRelevance P shortL keywords parentContent
   == (1#2) * calculateLinkRelevance P otherL keywords parentContent)%Q.
Proof.
  intros Hne Hshort [Hlo Hhi] Hsig Hdom.
  rewrite !calculateLinkRelevance_adjusted. unfold adjustedLinkScore.
  destruct keywords as [|k ks]; [congruence|].
  rewrite (keywordSum_same_signals shortL otherL (k :: ks) Hsig), Hdom.
  set (n := inject_Z (Z.of_nat (List.length (k :: ks)))).
  assert (Hn : (0 < n)%Q) by (apply keywordCount_positive; congruence).
  destruct (keywordSum_bounds otherL (k :: ks)) as [Hsum0 Hsum1].
  fold n in Hsum1.
  set (total := keywordSum otherL (k :: ks)) in *.
  assert (H1n : (1 <= n)%Q).
  { change 1%Q with (inject_Z 1). unfold n. rewrite <- Zle_Qle. cbn [List.length]. lia. }
  replace (strlen (link_text shortL) <? 5) with true by (symmetry; apply Z.ltb_lt; lia).
  replace (20 <? strlen (link_text shortL)) with false by (symmetry; apply Z.ltb_ge; lia).
  replace (strlen (link_text otherL) <? 5) with false by (symmetry; apply Z.ltb_ge; lia).
  replace (20 <? strlen (link_text otherL)) with false by (symmetry; apply Z.ltb_ge; lia).
  set (bonus := (if sameDomain P otherL (wc_url (base parentContent)) then 1 # 10 else 0)%Q).
  assert (Hbonus : (0 <= bonus <= 1#10)%Q).
  { unfold bonus. destruct (sameDomain P otherL _); split; lra. }
  assert (Hfull : ((total + bonus) * 1 + 0 <= 1 * n)%Q) by lra.
  assert (Hhalf : ((total + bonus) * (5#10) + 0 <= 1 * n)%Q) by lra.
  rewrite (Q.min_l (((total + bonus) * (5#10) + 0) / n) 1)
    by (apply Qle_shift_div_r; assumption).
  rewrite (Q.min_l (((total + bonus) * 1 + 0) / n) 1)
    by (apply Qle_shift_div_r; assumption).
  field. lra.
Qed.

Lemma short_anchor_halves_score_witness :
  (calculateLinkRelevance Demo.platform Demo.shortLink ["energy"] Demo.contentA
   == (1#2) * calculateLinkRelevance Demo.platform Demo.mediumLink ["energy"] Demo.contentA)%Q.
Proof.
  apply short_anchor_halves_score.
  - discriminate.
  - vm_compute. reflexivity.
  - vm_compute. split; discriminate.
  - intros keyword [<-|[]]. vm_compute. split; [reflexivity|]. split; reflexivity.
  - vm_compute. reflexivity.
Defined.

(** ** Breadth of the deeper levels *)

Lemma deeperLinkCap_antitone (d1 d2 : Z) :
  d1 <= d2 -> deeperLinkCap d2 <= deeperLinkCap d1.
Proof. unfold deeperLinkCap. lia. Qed.

(** C3, at a failing input. The cap on the links followed from a page grows
    as the remaining depth shrinks: 2 at remaining depth 2, 3 at remaining
    depth 1. From page [a] with depth 3 and one link to follow, the first
    level follows one link ([b]) and the level below it two ([c], [d]). *)
Theorem deeper_levels_follow_more_links :
  deeperLinkCap 2 = 2 /\ deeperLinkCap 1 = 3
  /\ List.length (selectStartLinks Demo.platform
                    {| opt_followLinks := true; opt_maxDepth := 3;
                       opt_relevanceThreshold := 1#10; opt_filterByKeywords := None;
                       opt_excludeDomains := []; opt_includeDomains := [] |}
                    1 Demo.contentA Demo.pageA) = 1%nat
  /\ match followLinks Demo.platform Demo.world "s1" (Demo.params 3 1) Demo.withSession with
     | (Ok r, _) => navigationPath r = [Demo.pageA; Demo.pageB; Demo.pageC; Demo.pageD]
     | (Throw _, _) => False
     end.
Proof.
  split; [vm_compute; reflexivity|].
  split; [vm_compute; reflexivity|].
  split; vm_compute; reflexivity.
Qed.

(** ** The content cache *)

Section CacheFacts.

Implicit Types (cache : list (string * ContentCacheEntry)) (key : string).

Lemma cacheGet_cacheSet key entry cache :
  cacheGet key (cacheSet key entry cache) = Some entry.
Proof.
  induction cache as [|[k e] rest IH]; simpl.
  - now rewrite String.eqb_refl.
  - destruct (String.eqb k key) eqn:E; simpl; now rewrite E.
Qed.

Lemma cacheSet_fresh key entry cache :
  ~ In key (map fst cache) -> cacheSet key entry cache = cache ++ [(key, entry)].
Proof.
  induction cache as [|[k e] rest IH]; simpl; intros Hfresh; [reflexivity|].
  destruct (String.eqb_spec k key) as [->|Hne]; [tauto|].
  f_equal. apply IH. tauto.
Qed.

Lemma cacheSet_present key entry cache :
  In key (map fst cache) -> List.length (cacheSet key entry cache) = List.length cache.
Proof.
  induction cache as [|[k e] rest IH]; simpl; intros Hin; [tauto|].
  destruct (String.eqb_spec k key) as [->|Hne]; simpl; [reflexivity|].
  f_equal. apply IH. destruct Hin; [congruence|assumption].
Qed.

Lemma cacheSet_keys key entry cache k :
  In k (map fst (cacheSet key entry cache)) <-> k = key \/ In k (map fst cache).
Proof.
  induction cache as [|[k' e] rest IH]; simpl.
  - intuition.
  - destruct (String.eqb_spec k' key) as [->|Hne]; simpl; [intuition|].
    rewrite IH. intuition.
Qed.

Lemma cacheSet_NoDup key entry cache :
  List.NoDup (map fst cache) -> List.NoDup (map fst (cacheSet key entry cache)).
Proof.
  induction cache as [|[k e] rest IH]; simpl; intros Hnd.
  - constructor; [intros []|constructor].
  - inversion Hnd as [|? ? Hnotin Hrest]; subst.
    destruct (String.eqb_spec k key) as [->|Hne]; simpl; constructor; auto.
    rewrite cacheSet_keys. intros [->|Hin]; [apply Hne; reflexivity|apply Hnotin, Hin].
Qed.

Lemma cacheGet_cacheDelete_other key k cache :
  k <> key -> cacheGet key (cacheDelete k cache) = cacheGet key cache.
Proof.
  intros Hne. induction cache as [|[k' e] rest IH]; simpl; [reflexivity|].
  destruct (String.eqb_spec k' k) as [->|Hk].
  - destruct (String.eqb_spec k key); [contradiction|reflexivity].
  - simpl. now rewrite IH.
Qed.

Lemma cacheDelete_split key entry cache :
  List.NoDup (map fst cache) -> In (key, entry) cache ->
  exists before after,
    cache = before ++ (key, entry) :: after /\ cacheDelete key cache = before ++ after.
Proof.
  induction cache as [|[k e] rest IH]; simpl; intros Hnd Hin; [tauto|].
  inversion Hnd as [|? ? Hnotin Hrest]; subst.
  destruct (String.eqb_spec k key) as [->|Hne].
  - destruct Hin as [Heq|Hin].
    + inversion Heq; subst. exists [], rest. split; reflexivity.
    + exfalso. apply Hnotin. change key with (fst (key, entry)). now apply in_map.
  - destruct Hin as [Heq|Hin]; [congruence|].
    destruct (IH Hrest Hin) as (before & after & -> & Hdel).
    exists ((k, e) :: before), after. simpl. split; [reflexivity|now rewrite Hdel].
Qed.

(** The head of the sorted entries is decided against the head of what was
    sorted before. *)
Lemma insertByTimestamp_head x sorted :
  hd_error (insertByTimestamp x sorted)
  = Some (match hd_error sorted with
          | Some y => if timestamp (snd y) <? timestamp (snd x) then y else x
          | None => x
          end).
Proof.
  destruct sorted as [|y rest]; simpl; [reflexivity|].
  destruct (timestamp (snd y) <? timestamp (snd x)); reflexivity.
Qed.

Lemma sortByTimestamp_nonempty x cache :
  exists y, hd_error (sortByTimestamp (x :: cache)) = Some y.
Proof. simpl. rewrite insertByTimestamp_head. eauto. Qed.

(** The first sorted entry is an entry of least time stamp. *)
Lemma sortByTimestamp_head_oldest cache oldest :
  hd_error (sortByTimestamp cache) = Some oldest ->
  In oldest cache
  /\ Forall (fun ke => timestamp (snd oldest) <= timestamp (snd ke)) cache.
Proof.
  revert oldest. induction cache as [|x rest IH]; intros oldest; simpl; [discriminate|].
  rewrite insertByTimestamp_head.
  destruct (hd_error (sortByTimestamp rest)) as [y|] eqn:Hy.
  - destruct (IH y eq_refl) as [Hin Hmin].
    destruct (Z.ltb_spec (timestamp (snd y)) (timestamp (snd x))) as [Hlt|Hge];
      intros [= <-]; split; auto.
    + constructor; [lia|exact Hmin].
    + constructor; [lia|]. eapply Forall_impl; [exact Hmin|]. simpl. intros; lia.
  - intros [= <-]. destruct rest as [|z rest'].
    + split; [now left|]. constructor; [lia|constructor].
    + destruct (sortByTimestamp_nonempty z rest') as [w Hw]. congruence.
Qed.

(** An entry appended with the latest time stamp is not the first sorted
    entry unless it is alone. *)
Lemma sortByTimestamp_head_appended cache x z :
  Forall (fun ke => timestamp (snd ke) <= timestamp (snd z)) (x :: cache) ->
  hd_error (sortByTimestamp ((x :: cache) ++ [z]))
  = hd_error (sortByTimestamp (x :: cache)).
Proof.
  revert x. induction cache as [|y rest IH]; intros x Hle.
  - simpl. inversion Hle; subst.
    destruct (Z.ltb_spec (timestamp (snd z)) (timestamp (snd x))); [lia|reflexivity].
  - inversion Hle; subst.
    change (sortByTimestamp ((x :: y :: rest) ++ [z]))
      with (insertByTimestamp x (sortByTimestamp ((y :: rest) ++ [z]))).
    change (sortByTimestamp (x :: y :: rest))
      with (insertByTimestamp x (sortByTimestamp (y :: rest))).
    rewrite !insertByTimestamp_head, IH by assumption. reflexivity.
Qed.

End CacheFacts.

Section ExtractorFacts.
Context (P : Platform) (W : World).

Lemma cacheContent_run url format c s :
  cacheContent W url format c s
  = (Ok tt,
     withCache (evictOldest (cacheSet (generateCacheKey url format)
                                      {| timestamp := clock W (tick s); content := c |}
                                      (contentCache s)))
               (withTick (S (tick s)) s)).
Proof.
  unfold cacheContent, evictOldest, bind, dateNow, modify, gets, ret. simpl.
  destruct (maxCacheEntries <? _)%nat; [|reflexivity].
  destruct (sortByTimestamp _) as [|[oldestKey e] rest]; reflexivity.
Qed.


Lemma cacheGet_None key cache :
  cacheGet key cache = None <-> ~ In key (map fst cache).
Proof.
  induction cache as [|[k e] rest IH]; simpl; [tauto|].
  destruct (String.eqb_spec k key) as [->|Hne]; [split; [discriminate|tauto]|].
  rewrite IH. tauto.
Qed.

Lemma evictOldest_keeps_latest key entry cache :
  (List.length cache <= maxCacheEntries)%nat ->
  Forall (fun ke => timestamp (snd ke) <= timestamp entry) cache ->
  cacheGet key (evictOldest (cacheSet key entry cache)) = Some entry.
Proof.
  intros Hcap Hpast. unfold evictOldest.
  destruct (Nat.ltb_spec maxCacheEntries (List.length (cacheSet key entry cache)))
    as [Hfull|_]; [|apply cacheGet_cacheSet].
  destruct (cacheGet key cache) as [old|] eqn:Hget.
  - assert (Hin : In key (map fst cache)).
    { destruct (in_dec string_dec key (map fst cache)) as [Hin|Hout]; [exact Hin|].
      apply cacheGet_None in Hout. congruence. }
    rewrite cacheSet_present in Hfull by exact Hin. lia.
  - apply cacheGet_None in Hget.
    rewrite cacheSet_fresh in * by exact Hget.
    destruct cache as [|x rest]; [simpl in Hfull; unfold maxCacheEntries in Hfull; lia|].
    pose proof (sortByTimestamp_head_appended rest x (key, entry) Hpast) as Hhead.
    destruct (sortByTimestamp_nonempty x rest) as [[oldestKey oldest] Hold].
    rewrite Hold in Hhead.
    destruct (sortByTimestamp ((x :: rest) ++ [(key, entry)])) as [|[k e] sorted];
      [discriminate|].
    injection Hhead as -> ->.
    apply sortByTimestamp_head_oldest in Hold as [Hin _].
    rewrite cacheGet_cacheDelete_other.
    + rewrite <- cacheSet_fresh by exact Hget. apply cacheGet_cacheSet.
    + intros ->. apply Hget. change key with (fst (key, oldest)). now apply in_map.
Qed.

Lemma cacheSet_length key entry cache :
  (List.length (cacheSet key entry cache) <= S (List.length cache))%nat.
Proof.
  induction cache as [|[k e] rest IH]; simpl; [lia|].
  destruct (String.eqb k key); simpl; lia.
Qed.

Lemma cacheDelete_length key cache :
  In key (map fst cache) -> S (List.length (cacheDelete key cache)) = List.length cache.
Proof.
  induction cache as [|[k e] rest IH]; simpl; intros Hin; [tauto|].
  destruct (String.eqb_spec k key) as [->|Hne]; simpl; [reflexivity|].
  f_equal. apply IH. destruct Hin; [congruence|assumption].
Qed.

(** The entry count stays within its bound from one put to the next. *)
Lemma evictOldest_within_capacity key entry cache :
  (List.length cache <= maxCacheEntries)%nat ->
  (List.length (evictOldest (cacheSet key entry cache)) <= maxCacheEntries)%nat.
Proof.
  intros Hcap. unfold evictOldest.
  pose proof (cacheSet_length key entry cache) as Hgrow.
  destruct (Nat.ltb_spec maxCacheEntries (List.length (cacheSet key entry cache)))
    as [Hfull|Hfits]; [|exact Hfits].
  destruct (sortByTimestamp (cacheSet key entry cache)) as [|[oldestKey oldest] sorted]
    eqn:Hsorted.
  - destruct (cacheSet key entry cache) as [|x rest]; [simpl in Hfull; lia|].
    destruct (sortByTimestamp_nonempty x rest) as [y Hy].
    rewrite Hsorted in Hy. discriminate.
  - destruct (sortByTimestamp_head_oldest (cacheSet key entry cache) (oldestKey, oldest))
      as [Hin _]; [now rewrite Hsorted|].
    pose proof (cacheDelete_length oldestKey (cacheSet key entry cache)) as Hshrink.
    rewrite <- Hshrink in Hgrow; [lia|].
    change oldestKey with (fst (oldestKey, oldest)). now apply in_map.
Qed.

(** A call that finds a valid entry answers from the cache. *)
Lemma extractContent_hit url format s entry :
  isValidUrl P url = true ->
  cacheGet (generateCacheKey url format) (contentCache s) = Some entry ->
  clock W (tick s) - timestamp entry < cacheTTL ->
  extractContent P W url format s = (Ok (content entry), withTick (S (tick s)) s).
Proof.
  intros Hvalid Hget Hfresh.
  unfold extractContent, bind, gets, isCacheValid, dateNow, ret.
  rewrite Hvalid. simpl. rewrite Hget. simpl.
  destruct (Z.ltb_spec (clock W (tick s) - timestamp entry) cacheTTL); [reflexivity|lia].
Qed.

(** A call that finds no valid entry sends one request, and its outcome
    decides the rest. *)
Lemma extractContent_miss url format s :
  isValidUrl P url = true ->
  validEntry (clock W (tick s)) (generateCacheKey url format) (contentCache s) = None ->
  let t := requestTick s url format in
  let sent := withTick (S t) (withTrace (trace s ++ [EvAxiosGet url]) s) in
  extractContent P W url format s
  = match axiosGet W t url format with
    | Extracted page =>
        (Ok (assemble url format page),
         withCache (evictOldest (cacheSet (generateCacheKey url format)
                                   {| timestamp := clock W (S t);
                                      content := assemble url format page |}
                                   (contentCache s)))
                   (withTick (S (S t)) sent))
    | AxiosFailure message => (Throw (FetchError message), sent)
    | PipelineFailure message => (Throw (PipelineError message), sent)
    end.
Proof.
  intros Hvalid Hmiss. unfold validEntry, requestTick in *.
  unfold extractContent, bind, gets, isCacheValid, dateNow, ret, httpGet, throw.
  rewrite Hvalid. cbn.
  destruct (cacheGet (generateCacheKey url format) (contentCache s)) as [entry|]; cbn.
  - destruct (clock W (tick s) - timestamp entry <? cacheTTL); [discriminate|]. cbn.
    destruct (axiosGet W (S (tick s)) url format); try reflexivity.
    rewrite cacheContent_run. reflexivity.
  - destruct (axiosGet W (tick s) url format); try reflexivity.
    rewrite cacheContent_run. reflexivity.
Qed.

Lemma cacheSet_entries key entry cache x :
  In x (cacheSet key entry cache) -> x = (key, entry) \/ In x cache.
Proof.
  induction cache as [|[k e] rest IH]; simpl.
  - intros [<-|[]]. now left.
  - destruct (String.eqb_spec k key) as [->|Hne]; simpl.
    + intros [<-|Hin]; auto.
    + intros [<-|Hin]; auto. destruct (IH Hin); auto.
Qed.

Lemma cacheDelete_entries key cache x :
  In x (cacheDelete key cache) -> In x cache.
Proof.
  induction cache as [|[k e] rest IH]; simpl; [tauto|].
  destruct (String.eqb k key); simpl; intuition.
Qed.

Lemma cacheDelete_NoDup key cache :
  List.NoDup (map fst cache) -> List.NoDup (map fst (cacheDelete key cache)).
Proof.
  induction cache as [|[k e] rest IH]; simpl; intros Hnd; [constructor|].
  inversion Hnd as [|? ? Hnotin Hrest]; subst.
  destruct (String.eqb k key); simpl; [assumption|].
  constructor; [|now apply IH].
  intros Hin. apply Hnotin. apply in_map_iff in Hin as ([k' e'] & <- & Hin).
  apply in_map_iff. exists (k', e'). split; [reflexivity|].
  eapply cacheDelete_entries, Hin.
Qed.

Lemma evictOldest_entries cache x : In x (evictOldest cache) -> In x cache.
Proof.
  unfold evictOldest. destruct (_ <? _)%nat; [|tauto].
  destruct (sortByTimestamp cache) as [|[oldestKey oldest] sorted]; [tauto|].
  apply cacheDelete_entries.
Qed.

Lemma evictOldest_NoDup cache :
  List.NoDup (map fst cache) -> List.NoDup (map fst (evictOldest cache)).
Proof.
  unfold evictOldest. destruct (_ <? _)%nat; [|tauto].
  destruct (sortByTimestamp cache) as [|[oldestKey oldest] sorted]; [tauto|].
  apply cacheDelete_NoDup.
Qed.

(** The cache invariant holds of the empty cache and is kept by every call
    of [extractContent]. *)
Lemma cacheWellFormed_empty s : contentCache s = [] -> cacheWellFormed W s.
Proof.
  intros Hempty. unfold cacheWellFormed, stampedInPast. rewrite Hempty. simpl.
  repeat split; [constructor|unfold maxCacheEntries; lia|constructor].
Qed.

Lemma cacheWellFormed_extractContent url format s :
  (forall i j, (i <= j)%nat -> clock W i <= clock W j) ->
  cacheWellFormed W s ->
  cacheWellFormed W (snd (extractContent P W url format s)).
Proof.
  intros Hmono (Hkeys & Hcap & Hpast). unfold stampedInPast in Hpast.
  assert (Hlater : forall s', contentCache s' = contentCache s ->
                              (tick s <= tick s')%nat -> cacheWellFormed W s').
  { intros s' Hsame Hticks. unfold cacheWellFormed, stampedInPast. rewrite Hsame.
    repeat split; [assumption..|].
    eapply Forall_impl; [exact Hpast|]. simpl. intros ke Hke i Hi. apply Hke. lia. }
  destruct (isValidUrl P url) eqn:Hvalid.
  2:{ unfold extractContent. rewrite Hvalid. simpl. now apply Hlater. }
  destruct (validEntry (clock W (tick s)) (generateCacheKey url format) (contentCache s))
    as [c|] eqn:Hentry.
  - unfold validEntry in Hentry.
    destruct (cacheGet _ _) as [entry|] eqn:Hget; [|discriminate].
    destruct (Z.ltb_spec (clock W (tick s) - timestamp entry) cacheTTL); [|discriminate].
    rewrite (extractContent_hit url format s entry) by assumption.
    apply Hlater; simpl; [reflexivity|lia].
  - rewrite (extractContent_miss url format s Hvalid Hentry).
    assert (Ht : (tick s <= requestTick s url format)%nat)
      by (unfold requestTick; destruct (cacheGet _ _); lia).
    destruct (axiosGet W _ url format); simpl;
      [|apply Hlater; simpl; [reflexivity|lia]..].
    unfold cacheWellFormed, stampedInPast. simpl.
    split; [now apply evictOldest_NoDup, cacheSet_NoDup|].
    split; [now apply evictOldest_within_capacity|].
    apply List.Forall_forall. intros ke Hin i Hi.
    apply evictOldest_entries, cacheSet_entries in Hin as [->|Hin].
    + simpl. apply Hmono. lia.
    + rewrite List.Forall_forall in Hpast. apply (Hpast ke Hin). lia.
Qed.

Lemma extractContent_within_capacity url format s :
  (List.length (contentCache s) <= maxCacheEntries)%nat ->
  (List.length (contentCache (snd (extractContent P W url format s)))
   <= maxCacheEntries)%nat.
Proof.
  intros Hcap.
  destruct (isValidUrl P url) eqn:Hvalid.
  2:{ unfold extractContent. now rewrite Hvalid. }
  destruct (validEntry (clock W (tick s)) (generateCacheKey url format) (contentCache s))
    as [c|] eqn:Hentry.
  - unfold validEntry in Hentry.
    destruct (cacheGet _ _) as [entry|] eqn:Hget; [|discriminate].
    destruct (Z.ltb_spec (clock W (tick s) - timestamp entry) cacheTTL); [|discriminate].
    now rewrite (extractContent_hit url format s entry).
  - rewrite (extractContent_miss url format s Hvalid Hentry).
    destruct (axiosGet W _ url format); simpl; [|exact Hcap..].
    now apply evictOldest_within_capacity.
Qed.

Create HintDb quiet.

(** Every extractor method is quiet. *)
Lemma quiet_ret {A} url (a : A) : Quiet url (ret a).
Proof.
  intros s. simpl. split; [reflexivity|]. exists []. now rewrite app_nil_r.
Qed.

Lemma quiet_throw {A} url e : Quiet url (@throw A e).
Proof.
  intros s. simpl. split; [reflexivity|]. exists []. now rewrite app_nil_r.
Qed.

Lemma quiet_bind {A B} url (m : M A) (k : A -> M B) :
  Quiet url m -> (forall a, Quiet url (k a)) -> Quiet url (bind m k).
Proof.
  intros Hm Hk s. unfold bind. specialize (Hm s).
  destruct (m s) as [[a|e] s1]; simpl in *; [|exact Hm].
  specialize (Hk a s1). destruct (k a s1) as [r s2]; simpl in *.
  destruct Hm as (Hs1 & ev1 & Ht1 & Hall1), Hk as (Hs2 & ev2 & Ht2 & Hall2).
  split; [congruence|]. exists (ev1 ++ ev2).
  rewrite Ht2, Ht1, app_assoc. split; [reflexivity|]. apply Forall_app. now split.
Qed.

Lemma quiet_gets {A} url (f : State -> A) : Quiet url (gets f).
Proof.
  intros s. simpl. split; [reflexivity|]. exists []. now rewrite app_nil_r.
Qed.

Lemma quiet_dateNow url : Quiet url (dateNow W).
Proof.
  intros s. simpl. split; [reflexivity|]. exists []. now rewrite app_nil_r.
Qed.

Lemma quiet_log url ev : eventUrl ev = url -> Quiet url (log ev).
Proof.
  intros Hev s. simpl. split; [reflexivity|]. exists [ev]. split; [reflexivity|].
  now constructor.
Qed.

Lemma quiet_httpGet url format : Quiet url (httpGet W url format).
Proof.
  intros s. simpl. split; [reflexivity|]. exists [EvAxiosGet url].
  split; [reflexivity|]. now constructor.
Qed.

Lemma quiet_httpFetch url : Quiet url (httpFetch W url).
Proof.
  intros s. simpl. split; [reflexivity|]. exists [EvFetch url].
  split; [reflexivity|]. now constructor.
Qed.

Lemma quiet_cacheContent url format c : Quiet url (cacheContent W url format c).
Proof.
  intros s. rewrite cacheContent_run. simpl. split; [reflexivity|].
  exists []. now rewrite app_nil_r.
Qed.

#[local] Hint Resolve quiet_ret quiet_throw quiet_gets quiet_dateNow quiet_httpGet
  quiet_httpFetch quiet_cacheContent : quiet.

(** Walks through a method: binds are split, matches are decided, and the
    primitive steps are found in the hint base. *)
Ltac quiet :=
  repeat first
    [ solve [auto with quiet]
    | apply quiet_bind; [|intro]
    | match goal with
      | |- Quiet _ (match ?x with _ => _ end) => destruct x
      | |- Quiet _ (if ?b then _ else _) => destruct b
      | |- Quiet _ (let _ := _ in _) => cbv zeta
      end ].

Lemma quiet_extractContent url format : Quiet url (extractContent P W url format).
Proof. unfold extractContent, isCacheValid. quiet. Qed.

Lemma quiet_enhanceContent c url : Quiet url (enhanceContent W c url).
Proof. unfold enhanceContent. quiet. Qed.

Lemma quiet_extractEnhancedContent url format :
  Quiet url (extractEnhancedContent P W url format).
Proof.
  unfold extractEnhancedContent.
  apply quiet_bind; [now apply quiet_log|]. intros _.
  apply quiet_bind; [apply quiet_extractContent|]. intros c.
  apply quiet_enhanceContent.
Qed.

End ExtractorFacts.

(** C8. A put that leaves more than the maximum of 50 entries in the cache
    removes exactly one entry, and no entry of the cache carries an older
    time stamp than the removed one. *)
Theorem put_beyond_capacity_evicts_oldest (W : World) (s : State) (url : string)
    (format : OutputFormat) (c : WebpageContent) :
  List.NoDup (map fst (contentCache s)) ->
  (maxCacheEntries
   < List.length (cacheSet (generateCacheKey url format)
                    {| timestamp := clock W (tick s); content := c |}
                    (contentCache s)))%nat ->
  exists before after key evicted,
    cacheSet (generateCacheKey url format)
      {| timestamp := clock W (tick s); content := c |} (contentCache s)
    = before ++ (key, evicted) :: after
    /\ contentCache (snd (cacheContent W url format c s)) = before ++ after
    /\ Forall (fun ke => timestamp evicted <= timestamp (snd ke))
              (before ++ (key, evicted) :: after).
Proof.
  intros Hnodup Hfull. rewrite cacheContent_run. simpl.
  set (inserted := cacheSet _ _ _) in *.
  unfold evictOldest.
  replace (maxCacheEntries <? List.length inserted)%nat with true
    by (symmetry; now apply Nat.ltb_lt).
  assert (Hkeys : List.NoDup (map fst inserted)) by now apply cacheSet_NoDup.
  destruct (sortByTimestamp inserted) as [|[key evicted] sorted] eqn:Hsorted.
  - destruct inserted as [|x rest]; [simpl in Hfull; lia|].
    destruct (sortByTimestamp_nonempty x rest) as [y Hy].
    rewrite Hsorted in Hy. discriminate.
  - destruct (sortByTimestamp_head_oldest inserted (key, evicted)) as [Hin Hmin];
      [now rewrite Hsorted|].
    destruct (cacheDelete_split key evicted inserted Hkeys Hin)
      as (before & after & Hsplit & Hdelete).
    exists before, after, key, evicted.
    rewrite <- Hsplit. auto.
Qed.

Lemma put_beyond_capacity_evicts_oldest_witness :
  exists before after key evicted,
    cacheSet (generateCacheKey Demo.pageA Markdown)
      {| timestamp := clock Demo.world (tick Demo.fullState);
         content := base Demo.contentA |} (contentCache Demo.fullState)
    = before ++ (key, evicted) :: after
    /\ contentCache (snd (cacheContent Demo.world Demo.pageA Markdown
                            (base Demo.contentA) Demo.fullState))
       = before ++ after
    /\ Forall (fun ke => timestamp evicted <= timestamp (snd ke))
              (before ++ (key, evicted) :: after).
Proof.
  apply put_beyond_capacity_evicts_oldest.
  - apply NoDup_ListNoDup. apply (bool_decide_unpack _). vm_compute. exact I.
  - vm_compute. lia.
Defined.

(** C7. A valid URL whose site answers, asked for twice in one format while
    the clock stays within the 30 minutes of the cache: starting without a
    valid entry, the first call sends one request and stores the page; the
    second call returns the same page and touches neither the network nor
    the cache. *)
Theorem second_extract_hits_cache (P : Platform) (W : World) (s : State)
    (url : string) (format : OutputFormat) :
  isValidUrl P url = true ->
  reachable W url format ->
  (List.length (contentCache s) <= maxCacheEntries)%nat ->
  stampedInPast W s ->
  validEntry (clock W (tick s)) (generateCacheKey url format) (contentCache s) = None ->
  (forall i j, (tick s <= i)%nat -> (i <= j)%nat -> (j <= tick s + 3)%nat ->
               clock W j - clock W i < cacheTTL) ->
  exists c s1 s2,
    extractContent P W url format s = (Ok c, s1)
    /\ extractContent P W url format s1 = (Ok c, s2)
    /\ axiosRequests (trace s1) = axiosRequests (trace s) ++ [url]
    /\ trace s2 = trace s1
    /\ contentCache s2 = contentCache s1.
Proof.
  intros Hvalid Hreach Hcap Hpast Hmiss Hwindow.
  pose proof (extractContent_miss P W url format s Hvalid Hmiss) as Hfirst.
  cbv zeta in Hfirst.
  set (t := requestTick s url format) in *.
  assert (Ht : (tick s <= t <= S (tick s))%nat).
  { unfold t, requestTick. destruct (cacheGet _ _); lia. }
  destruct (Hreach t) as [page Hpage]. rewrite Hpage in Hfirst.
  set (c := assemble url format page) in *.
  set (entry := {| timestamp := clock W (S t); content := c |}) in *.
  match type of Hfirst with _ = (_, ?st) => set (s1 := st) in * end.
  assert (Hstored : cacheGet (generateCacheKey url format) (contentCache s1) = Some entry).
  { unfold s1. simpl. apply evictOldest_keeps_latest; [exact Hcap|].
    eapply Forall_impl; [exact Hpast|]. simpl. intros ke Hke. apply Hke. lia. }
  exists c, s1, (withTick (S (tick s1)) s1).
  split; [exact Hfirst|]. split.
  - apply (extractContent_hit P W url format s1 entry Hvalid Hstored).
    unfold s1. simpl. apply Hwindow; lia.
  - split; [|split; reflexivity].
    unfold s1. simpl. unfold axiosRequests. rewrite flat_map_app. reflexivity.
Qed.

Lemma second_extract_hits_cache_witness :
  exists c s1 s2,
    extractContent Demo.platform Demo.world Demo.pageA Markdown Demo.initial = (Ok c, s1)
    /\ extractContent Demo.platform Demo.world Demo.pageA Markdown s1 = (Ok c, s2)
    /\ axiosRequests (trace s1) = axiosRequests (trace Demo.initial) ++ [Demo.pageA]
    /\ trace s2 = trace s1
    /\ contentCache s2 = contentCache s1.
Proof.
  apply second_extract_hits_cache.
  - vm_compute. reflexivity.
  - intros i. eexists. vm_compute. reflexivity.
  - simpl. unfold maxCacheEntries. lia.
  - constructor.
  - reflexivity.
  - intros i j Hi Hij Hj. simpl in *. unfold cacheTTL. lia.
Defined.

(** C9. When the request of a call that misses the cache fails, the call
    throws the fetch error, the cache is what it was before the call, and
    while the clock does not run back the cache holds no valid entry for the
    requested URL and format. *)
Theorem failed_fetch_leaves_cache (P : Platform) (W : World) (s : State)
    (url : string) (format : OutputFormat) (message : string) :
  isValidUrl P url = true ->
  validEntry (clock W (tick s)) (generateCacheKey url format) (contentCache s) = None ->
  axiosGet W (requestTick s url format) url format = AxiosFailure message ->
  (forall i j, (i <= j)%nat -> clock W i <= clock W j) ->
  exists s',
    extractContent P W url format s = (Throw (FetchError message), s')
    /\ contentCache s' = contentCache s
    /\ (cacheGet (generateCacheKey url format) (contentCache s) = None ->
        cacheGet (generateCacheKey url format) (contentCache s') = None)
    /\ forall j, (tick s <= j)%nat ->
         validEntry (clock W j) (generateCacheKey url format) (contentCache s') = None.
Proof.
  intros Hvalid Hmiss Hfail Hmono.
  pose proof (extractContent_miss P W url format s Hvalid Hmiss) as Hrun.
  cbv zeta in Hrun. rewrite Hfail in Hrun.
  eexists. split; [exact Hrun|]. simpl. split; [reflexivity|]. split; [auto|].
  intros j Hj. unfold validEntry in *.
  destruct (cacheGet (generateCacheKey url format) (contentCache s)) as [entry|];
    [|reflexivity].
  destruct (Z.ltb_spec (clock W (tick s) - timestamp entry) cacheTTL); [discriminate|].
  specialize (Hmono (tick s) j Hj).
  destruct (Z.ltb_spec (clock W j - timestamp entry) cacheTTL); [lia|reflexivity].
Qed.

Lemma failed_fetch_leaves_cache_witness :
  exists s',
    extractContent Demo.platform Demo.offline Demo.pageA Markdown Demo.fullState
    = (Throw (FetchError "timeout of 30000ms exceeded"), s')
    /\ contentCache s' = contentCache Demo.fullState
    /\ (cacheGet (generateCacheKey Demo.pageA Markdown) (contentCache Demo.fullState) = None ->
        cacheGet (generateCacheKey Demo.pageA Markdown) (contentCache s') = None)
    /\ forall j, (tick Demo.fullState <= j)%nat ->
         validEntry (clock Demo.offline j) (generateCacheKey Demo.pageA Markdown)
           (contentCache s') = None.
Proof.
  apply failed_fetch_leaves_cache.
  - vm_compute. reflexivity.
  - vm_compute. reflexivity.
  - vm_compute. reflexivity.
  - intros i j Hij. simpl. lia.
Defined.

(** ** Enhanced extraction *)

Lemma selectPageLinks_no_links (P : Platform) options remainingDepth c :
  links c = [] -> selectPageLinks P options remainingDepth c = [].
Proof.
  intros Hlinks. unfold selectPageLinks, filterByDomain, filterByKeyword.
  rewrite Hlinks. simpl.
  destruct (nonEmpty (opt_includeDomains options));
    destruct (opt_filterByKeywords options) as [[|k ks]|];
    destruct (Qlt_le_dec 0 (opt_relevanceThreshold options)); simpl;
    now rewrite firstn_nil.
Qed.

Lemma selectStartLinks_no_links (P : Platform) options maxLinksToFollow c url :
  links c = [] -> selectStartLinks P options maxLinksToFollow c url = [].
Proof.
  intros Hlinks. unfold selectStartLinks, filterByDomain, filterByKeyword.
  rewrite Hlinks. simpl.
  destruct (nonEmpty (opt_includeDomains options));
    destruct (opt_filterByKeywords options) as [[|k ks]|]; simpl;
    now rewrite firstn_nil.
Qed.

(** C10. Once the base extraction of a URL has succeeded, the enhanced
    extraction succeeds too and carries the base document. When the second
    request or the parsing after it throws, the document has no links, no
    images and empty structured data, so no link of it is selected for
    following, as a start page or at any depth. *)
Theorem enhancement_failure_is_absorbed (P : Platform) (W : World) (s : State)
    (url : string) (format : OutputFormat) (c : WebpageContent) (s1 : State) :
  extractContent P W url format (snd (log (EvExtract url) s)) = (Ok c, s1) ->
  exists e s2,
    extractEnhancedContent P W url format s = (Ok e, s2)
    /\ base e = c
    /\ (fetchEnhance W (tick s1) url = None ->
        links e = [] /\ images e = []
        /\ structuredData e = emptyStructuredData
        /\ forall options count remainingDepth,
             selectStartLinks P options count e url = []
             /\ selectPageLinks P options remainingDepth e = []).
Proof.
  intros Hbase.
  unfold extractEnhancedContent, bind, log, modify. simpl in Hbase.
  cbv beta iota. rewrite Hbase.
  unfold enhanceContent, bind, httpFetch, dateNow, ret. simpl.
  destruct (fetchEnhance W (tick s1) url) as [found|].
  - eexists _, _. split; [reflexivity|]. split; [reflexivity|]. discriminate.
  - eexists _, _. split; [reflexivity|]. split; [reflexivity|]. intros _.
    repeat (split; [reflexivity|]).
    intros options count remainingDepth.
    split; [now apply selectStartLinks_no_links|now apply selectPageLinks_no_links].
Qed.

Lemma enhancement_failure_is_absorbed_witness :
  exists e s2,
    extractEnhancedContent Demo.platform Demo.plain Demo.pageA Markdown Demo.initial
    = (Ok e, s2)
    /\ base e = assemble Demo.pageA Markdown
                  {| pd_title := "Page " ++ Demo.pageA; pd_description := "";
                     pd_content := "Text of " ++ Demo.pageA ++ ".";
                     pd_summary := "Text of " ++ Demo.pageA ++ ".";
                     pd_headings := [] |}
    /\ (fetchEnhance Demo.plain 2 Demo.pageA = None ->
        links e = [] /\ images e = []
        /\ structuredData e = emptyStructuredData
        /\ forall options count remainingDepth,
             selectStartLinks Demo.platform options count e Demo.pageA = []
             /\ selectPageLinks Demo.platform options remainingDepth e = []).
Proof.
  apply (enhancement_failure_is_absorbed Demo.platform Demo.plain Demo.initial
           Demo.pageA Markdown _
           (snd (extractContent Demo.platform Demo.plain Demo.pageA Markdown
                   (snd (log (EvExtract Demo.pageA) Demo.initial))))).
  vm_compute. reflexivity.
Defined.

(** ** Sessions and traversal *)

Section NavigationFacts.
Context (P : Platform) (W : World).

Lemma extractContent_succeeds url format s :
  isValidUrl P url = true -> reachable W url format ->
  exists c s', extractContent P W url format s = (Ok c, s').
Proof.
  intros Hvalid Hreach.
  destruct (validEntry (clock W (tick s)) (generateCacheKey url format) (contentCache s))
    as [c|] eqn:Hentry.
  - unfold validEntry in Hentry.
    destruct (cacheGet _ _) as [entry|] eqn:Hget; [|discriminate].
    destruct (Z.ltb_spec (clock W (tick s) - timestamp entry) cacheTTL); [|discriminate].
    eexists _, _. now apply extractContent_hit with (entry := entry).
  - rewrite (extractContent_miss P W url format s Hvalid Hentry).
    destruct (Hreach (requestTick s url format)) as [page ->]. eauto.
Qed.

Lemma enhanceContent_succeeds c url s :
  exists e s', enhanceContent W c url s = (Ok e, s') /\ base e = c.
Proof.
  unfold enhanceContent, bind, httpFetch, dateNow, ret. simpl.
  destruct (fetchEnhance W (tick s) url); eauto.
Qed.

(** A successful extraction, with what it leaves untouched. *)
Lemma extractEnhancedContent_succeeds url s :
  isValidUrl P url = true -> reachable W url Markdown ->
  exists e s',
    extractEnhancedContent P W url Markdown s = (Ok e, s')
    /\ sessions s' = sessions s
    /\ exists events, trace s' = trace s ++ events
                      /\ Forall (fun ev => eventUrl ev = url) events.
Proof.
  intros Hvalid Hreach.
  pose proof (quiet_extractEnhancedContent P W url Markdown s) as Hquiet.
  unfold extractEnhancedContent, bind, log, modify in *. cbv beta iota in *.
  destruct (extractContent_succeeds url Markdown
              (withTrace (trace s ++ [EvExtract url]) s) Hvalid Hreach) as (c & s1 & Hc).
  rewrite Hc in *.
  destruct (enhanceContent_succeeds c url s1) as (e & s2 & He & _).
  rewrite He in *. simpl in Hquiet. eauto.
Qed.

Lemma getSession_absent sessionId s :
  sessions s !! sessionId = None -> getSession W sessionId s = (Ok None, s).
Proof. intros Hnone. unfold getSession, bind, gets. now rewrite Hnone. Qed.

Lemma getSession_present sessionId s session :
  sessions s !! sessionId = Some session ->
  getSession W sessionId s
  = (Ok (Some (touch (clock W (tick s)) session)),
     withSessions (<[sessionId := touch (clock W (tick s)) session]> (sessions s))
                  (withTick (S (tick s)) s)).
Proof. intros Hsome. unfold getSession, bind, gets. now rewrite Hsome. Qed.

Lemma visitUrl_absent sessionId url parentUrl s :
  sessions s !! sessionId = None ->
  visitUrl P W sessionId url parentUrl s = (Throw (SessionNotFound sessionId), s).
Proof.
  intros Hnone. unfold visitUrl, bind. now rewrite getSession_absent.
Qed.

Lemma visitUrl_present sessionId url parentUrl s :
  is_Some (sessions s !! sessionId) ->
  isValidUrl P url = true -> reachable W url Markdown ->
  exists e s',
    visitUrl P W sessionId url parentUrl s = (Ok e, s')
    /\ (exists session, sessions s' !! sessionId = Some session
                        /\ hp_url <$> last (bs_history session) = Some url)
    /\ exists events, trace s' = trace s ++ events
                      /\ Forall (fun ev => eventUrl ev = url) events.
Proof.
  intros [session Hsession] Hvalid Hreach.
  unfold visitUrl, bind. rewrite (getSession_present _ _ _ Hsession).
  set (s1 := withSessions _ _).
  destruct (extractEnhancedContent_succeeds url s1 Hvalid Hreach)
    as (e & s2 & -> & Hsessions & events & Htrace & Hevents).
  unfold dateNow, modify, ret. cbv beta iota.
  eexists _, _. split; [reflexivity|]. simpl. split.
  - eexists. rewrite lookup_insert_eq. split; [reflexivity|].
    simpl. now rewrite last_snoc.
  - exists events. split; [exact Htrace|exact Hevents].
Qed.

Lemma createSession_run topic s :
  exists created,
    createSession W topic s
    = (Ok created,
       withSessions (<[uuidv4 W (tick s) := created]> (sessions s))
                    (withTick (S (S (tick s))) s))
    /\ bs_history created = [].
Proof.
  unfold createSession, bind, freshUuid, dateNow, modify, ret. cbn.
  eexists. split; reflexivity.
Qed.

(** C1, on every unknown session id. [followLinks] creates a session under
    a new id and then records the visit under the id it was given: unless
    the two ids coincide the call throws. When the start page can be
    extracted the error is the session-not-found error of [visitUrl]; the
    session that was created is left without any history. *)
Theorem followLinks_unknown_session_throws sessionId params s :
  sessions s !! sessionId = None ->
  uuidv4 W (tick s) <> sessionId ->
  exists e s' created,
    followLinks P W sessionId params s = (Throw e, s')
    /\ (isValidUrl P (fp_url params) = true -> reachable W (fp_url params) Markdown ->
        e = SessionNotFound sessionId)
    /\ sessions s' = <[uuidv4 W (tick s) := created]> (sessions s)
    /\ bs_history created = [].
Proof.
  intros Hnone Hfresh.
  destruct (createSession_run (option_map (join ", ") (fp_keywords params)) s)
    as (created & Hcreate & Hhistory).
  set (s1 := withSessions _ _) in Hcreate.
  assert (Hs1 : sessions s1 = <[uuidv4 W (tick s) := created]> (sessions s))
    by reflexivity.
  clearbody s1.
  pose proof (quiet_extractEnhancedContent P W (fp_url params) Markdown s1)
    as [Hsessions _].
  unfold followLinks. cbv zeta.
  erewrite bind_ok by (now apply getSession_absent).
  erewrite bind_ok by (erewrite bind_ok by exact Hcreate; reflexivity).
  destruct (extractEnhancedContent P W (fp_url params) Markdown s1)
    as [[c|e] s2] eqn:Hextract; simpl in Hsessions.
  - erewrite bind_ok by exact Hextract.
    erewrite bind_throw
      by (apply visitUrl_absent; rewrite Hsessions, Hs1; now rewrite lookup_insert_ne).
    exists (SessionNotFound sessionId), s2, created.
    split; [reflexivity|]. split; [reflexivity|].
    rewrite Hsessions, Hs1. split; [reflexivity|exact Hhistory].
  - erewrite bind_throw by exact Hextract.
    exists e, s2, created. split; [reflexivity|]. split.
    + intros Hvalid Hreach.
      destruct (extractEnhancedContent_succeeds (fp_url params) s1 Hvalid Hreach)
        as (c & s3 & Hok & _). congruence.
    + rewrite Hsessions, Hs1. split; [reflexivity|exact Hhistory].
Qed.

(** C5. With [depth <= 0] or [maxLinksToFollow <= 0], whatever [followLinks]
    returns is the start page alone, with relevance 1, a navigation path
    that holds only the start URL and no related topics. For a known session
    and a start page that can be extracted it does return, and every request
    it makes is for the start URL. *)
Theorem shallow_traversal_returns_start_page sessionId params s :
  (fp_depth params <= 0 \/ fp_maxLinksToFollow params <= 0) ->
  (forall r s',
     followLinks P W sessionId params s = (Ok r, s') ->
     exists title summary,
       r = {| startUrl := fp_url params;
              pagesVisited := [{| pv_url := fp_url params; pv_title := title;
                                  pv_relevance := 1; pv_summary := summary |}];
              navigationPath := [fp_url params];
              relatedTopics := [] |})
  /\ (is_Some (sessions s !! sessionId) ->
      isValidUrl P (fp_url params) = true ->
      reachable W (fp_url params) Markdown ->
      exists r s',
        followLinks P W sessionId params s = (Ok r, s')
        /\ exists events, trace s' = trace s ++ events
                          /\ Forall (fun ev => eventUrl ev = fp_url params) events).
Proof.
  intros Hshallow.
  assert (Hstop : (fp_depth params <=? 0) || (fp_maxLinksToFollow params <=? 0) = true).
  { apply orb_true_iff. destruct Hshallow; [left|right]; now apply Z.leb_le. }
  split.
  - intros r s' Hrun. unfold followLinks in Hrun. cbv zeta in Hrun.
    apply bind_inv in Hrun as (session & s1 & _ & Hrun).
    apply bind_inv in Hrun as (_ & s2 & _ & Hrun).
    apply bind_inv in Hrun as (startContent & s3 & _ & Hrun).
    apply bind_inv in Hrun as (_ & s4 & _ & Hrun).
    rewrite Hstop in Hrun. injection Hrun as <- _. eauto.
  - intros [session Hsession] Hvalid Hreach.
    pose proof (getSession_present sessionId s session Hsession) as Hget.
    set (s1 := withSessions _ _) in Hget.
    destruct (extractEnhancedContent_succeeds (fp_url params) s1 Hvalid Hreach)
      as (c & s2 & Hextract & Hsessions & events1 & Htrace1 & Hevents1).
    destruct (visitUrl_present sessionId (fp_url params) None s2) as
      (e & s3 & Hvisit & _ & events2 & Htrace2 & Hevents2); [|assumption..|].
    { rewrite Hsessions. unfold s1. simpl. rewrite lookup_insert_eq. eauto. }
    unfold followLinks. cbv zeta.
    erewrite bind_ok by exact Hget.
    erewrite bind_ok by reflexivity.
    erewrite bind_ok by exact Hextract.
    erewrite bind_ok by exact Hvisit.
    rewrite Hstop.
    eexists _, s3. split; [reflexivity|].
    exists (events1 ++ events2). rewrite Htrace2, Htrace1, app_assoc.
    split; [reflexivity|]. apply Forall_app. now split.
Qed.

(** *** The visited-set *)

Lemma noRevisit_start url page :
  pv_url page = url ->
  noRevisit {| visitedUrls := {[url]};
               result := {| startUrl := url; pagesVisited := [page];
                            navigationPath := [url]; relatedTopics := [] |} |}.
Proof.
  intros Hpage. unfold noRevisit. simpl. rewrite Hpage.
  repeat split; try apply NoDup_singleton; intros u Hu;
    apply list_elem_of_singleton in Hu as ->; now apply elem_of_singleton.
Qed.

Lemma noRevisit_visit page t :
  noRevisit t -> pv_url page ∉ visitedUrls t ->
  noRevisit (addVisited (pv_url page) t)
  /\ noRevisit (pushPage page (addVisited (pv_url page) t)).
Proof.
  intros (Hpages & Hpath & Hpages_in & Hpath_in) Hnew.
  split; unfold noRevisit; simpl.
  - repeat split; auto; intros u Hu; apply elem_of_union_r; auto.
  - rewrite fmap_app. simpl. repeat split.
    + apply NoDup_app. repeat split; [assumption| |apply NoDup_singleton].
      intros u Hu Hsame. apply list_elem_of_singleton in Hsame as ->.
      apply Hnew, Hpages_in, Hu.
    + apply NoDup_app. repeat split; [assumption| |apply NoDup_singleton].
      intros u Hu Hsame. apply list_elem_of_singleton in Hsame as ->.
      apply Hnew, Hpath_in, Hu.
    + intros u Hu. apply elem_of_app in Hu as [Hu|Hu];
        [apply elem_of_union_r; auto|].
      apply list_elem_of_singleton in Hu as ->.
      now apply elem_of_union_l, elem_of_singleton.
    + intros u Hu. apply elem_of_app in Hu as [Hu|Hu];
        [apply elem_of_union_r; auto|].
      apply list_elem_of_singleton in Hu as ->.
      now apply elem_of_union_l, elem_of_singleton.
Qed.

(** A link whose URL is in the visited-set is passed over: nothing is
    extracted, nothing is recorded. *)
Lemma followLink_skips recurse sessionId remainingDepth options parentUrl t s link :
  link_url link ∈ visitedUrls t ->
  followLink P W recurse sessionId remainingDepth options parentUrl (t, s) link = (t, s).
Proof. intros Hseen. unfold followLink. now rewrite decide_True. Qed.

Lemma followLink_noRevisit recurse sessionId remainingDepth options parentUrl t s link :
  (forall ls parent t0 s0, noRevisit t0 -> noRevisit (fst (recurse ls parent t0 s0))) ->
  noRevisit t ->
  noRevisit (fst (followLink P W recurse sessionId remainingDepth options parentUrl
                    (t, s) link)).
Proof.
  intros Hrecurse Ht. unfold followLink.
  destruct (decide (link_url link ∈ visitedUrls t)) as [|Hnew]; [exact Ht|].
  destruct (extractEnhancedContent P W (link_url link) Markdown s) as [[c|e] s1];
    [|exact Ht].
  destruct (calculateRelevanceScore P c _) as [relevance|].
  2:{ now apply (noRevisit_visit {| pv_url := link_url link; pv_title := "";
                                    pv_relevance := 0; pv_summary := "" |}). }
  match goal with
  | |- context [pushPage ?page _] =>
      pose proof (proj2 (noRevisit_visit page t Ht Hnew)) as Hpushed
  end.
  simpl pv_url in Hpushed.
  destruct ((1 <=? remainingDepth) && nonEmpty (links c));
    [destruct (nonEmpty (selectPageLinks P options remainingDepth c))|].
  - specialize (Hrecurse (selectPageLinks P options remainingDepth c) (link_url link)
                  _ s1 Hpushed).
    destruct (recurse _ _ _ s1) as [t2 s2]. destruct (visitUrl _ _ _ _ _ s2). exact Hrecurse.
  - destruct (visitUrl _ _ _ _ _ s1). exact Hpushed.
  - destruct (visitUrl _ _ _ _ _ s1). exact Hpushed.
Qed.

Lemma followLinksRecursive_noRevisit remainingDepth :
  forall sessionId linksToFollow options parentUrl t s,
    noRevisit t ->
    noRevisit (fst (followLinksRecursive P W remainingDepth sessionId linksToFollow
                      options parentUrl t s)).
Proof.
  induction remainingDepth as [|deeper IH];
    intros sessionId linksToFollow options parentUrl t s Ht; [exact Ht|].
  cbn [followLinksRecursive].
  revert t s Ht. induction linksToFollow as [|link rest IHlinks]; intros t s Ht;
    [exact Ht|].
  cbn [fold_left].
  pose proof (followLink_noRevisit
                (fun ls parent t0 s0 =>
                   followLinksRecursive P W deeper sessionId ls options parent t0 s0)
                sessionId (Z.of_nat (S deeper)) options parentUrl t s link
                (fun ls parent t0 s0 H => IH sessionId ls options parent t0 s0 H) Ht)
    as Hstep.
  destruct (followLink _ _ _ _ _ _ _ (t, s) link) as [t1 s1].
  apply IHlinks, Hstep.
Qed.

Lemma followLinks_noRevisit sessionId params s r s' :
  followLinks P W sessionId params s = (Ok r, s') ->
  NoDup (pv_url <$> pagesVisited r) /\ NoDup (navigationPath r).
Proof.
  unfold followLinks. cbv zeta. intros Hrun.
  apply bind_inv in Hrun as (session & s1 & _ & Hrun).
  apply bind_inv in Hrun as (_ & s2 & _ & Hrun).
  apply bind_inv in Hrun as (startContent & s3 & _ & Hrun).
  apply bind_inv in Hrun as (_ & s4 & _ & Hrun).
  assert (Halone : forall (page : PageVisited) (url : string),
            NoDup (pv_url <$> [page]) /\ NoDup [url])
    by (intros; split; apply NoDup_singleton).
  destruct ((fp_depth params <=? 0) || (fp_maxLinksToFollow params <=? 0)).
  { injection Hrun as <- _. apply Halone. }
  destruct (negb (nonEmpty (links startContent))).
  { injection Hrun as <- _. apply Halone. }
  apply bind_inv in Hrun as (includeDomains & s5 & _ & Hrun).
  match type of Hrun with
  | context [followLinksRecursive P W ?d ?id ?ls ?o ?p ?t0 ?s0] =>
      pose proof (followLinksRecursive_noRevisit d id ls o p t0 s0) as Hfinal;
      destruct (followLinksRecursive P W d id ls o p t0 s0) as [t s6]
  end.
  injection Hrun as <- _. simpl.
  destruct Hfinal as (Hpages & Hpath & _); [now apply noRevisit_start|].
  now split.
Qed.

End NavigationFacts.

Lemma followLinks_unknown_session_throws_witness :
  exists e s' created,
    followLinks Demo.platform Demo.world "nosuch" (Demo.params 3 1) Demo.initial
    = (Throw e, s')
    /\ (isValidUrl Demo.platform (fp_url (Demo.params 3 1)) = true ->
        reachable Demo.world (fp_url (Demo.params 3 1)) Markdown ->
        e = SessionNotFound "nosuch")
    /\ sessions s' = <[uuidv4 Demo.world (tick Demo.initial) := created]> (sessions Demo.initial)
    /\ bs_history created = [].
Proof.
  apply followLinks_unknown_session_throws.
  - vm_compute. reflexivity.
  - vm_compute. discriminate.
Defined.

Lemma shallow_traversal_returns_start_page_witness :
  (forall r s',
     followLinks Demo.platform Demo.world "s1" (Demo.params 0 5) Demo.withSession = (Ok r, s') ->
     exists title summary,
       r = {| startUrl := Demo.pageA;
              pagesVisited := [{| pv_url := Demo.pageA; pv_title := title;
                                  pv_relevance := 1; pv_summary := summary |}];
              navigationPath := [Demo.pageA];
              relatedTopics := [] |})
  /\ exists r s',
       followLinks Demo.platform Demo.world "s1" (Demo.params 0 5) Demo.withSession
       = (Ok r, s')
       /\ exists events, trace s' = trace Demo.withSession ++ events
                         /\ Forall (fun ev => eventUrl ev = Demo.pageA) events.
Proof.
  destruct (shallow_traversal_returns_start_page Demo.platform Demo.world "s1"
              (Demo.params 0 5) Demo.withSession) as [Hshape Hreturns].
  - left. simpl. lia.
  - split; [exact Hshape|]. apply Hreturns.
    + eexists. vm_compute. reflexivity.
    + vm_compute. reflexivity.
    + intros i. eexists. vm_compute. reflexivity.
Defined.

(** C6 (as amended). In the result of a traversal no URL occurs twice in
    [pagesVisited] or in [navigationPath], and a link whose URL is already in
    the visited-set is passed over by the loop before anything is extracted,
    leaving the services, the visited-set and the result as they were. *)
Theorem traversal_never_follows_twice (P : Platform) (W : World) (sessionId : string)
    (params : FollowLinksParams) (s : State) (r : FollowLinksResult) (s' : State) :
  followLinks P W sessionId params s = (Ok r, s') ->
  NoDup (pv_url <$> pagesVisited r)
  /\ NoDup (navigationPath r)
  /\ forall recurse remainingDepth options parentUrl t s0 link,
       link_url link ∈ visitedUrls t ->
       followLink P W recurse sessionId remainingDepth options parentUrl (t, s0) link
       = (t, s0).
Proof.
  intros Hrun.
  destruct (followLinks_noRevisit P W sessionId params s r s' Hrun) as [Hpages Hpath].
  split; [exact Hpages|]. split; [exact Hpath|].
  intros. now apply followLink_skips.
Qed.

Lemma traversal_never_follows_twice_witness :
  exists r s',
    followLinks Demo.platform Demo.world "s1" (Demo.params 2 5) Demo.withSession = (Ok r, s')
    /\ (pv_url <$> pagesVisited r) = [Demo.pageA; Demo.pageB]
    /\ NoDup (pv_url <$> pagesVisited r)
    /\ NoDup (navigationPath r).
Proof.
  destruct (followLinks Demo.platform Demo.world "s1" (Demo.params 2 5) Demo.withSession)
    as [[r|e] s'] eqn:Hrun.
  - exists r, s'. split; [reflexivity|].
    destruct (traversal_never_follows_twice _ _ _ _ _ _ _ Hrun) as (Hpages & Hpath & _).
    split; [|split; assumption].
    vm_compute in Hrun. injection Hrun as <- _. reflexivity.
  - vm_compute in Hrun. discriminate Hrun.
Defined.

(** C6, the claim as worded fails: from page [a], which links to [b] twice
    and to itself, two pages are visited but four extractions are made. Page
    [b] is extracted by the loop, added to the visited-set, and extracted
    once more when [visitUrl] records the visit. *)
Lemma visited_page_is_extracted_again :
  exists r s',
    followLinks Demo.platform Demo.world "s1" (Demo.params 2 5) Demo.withSession = (Ok r, s')
    /\ (pv_url <$> pagesVisited r) = [Demo.pageA; Demo.pageB]
    /\ extractedUrls (trace s') = [Demo.pageA; Demo.pageA; Demo.pageB; Demo.pageB]
    /\ ~ NoDup (extractedUrls (trace s')).
Proof.
  eexists _, _. split; [vm_compute; reflexivity|].
  split; [vm_compute; reflexivity|].
  split; [vm_compute; reflexivity|].
  intros Hnodup. vm_compute in Hnodup.
  apply NoDup_cons in Hnodup as [Hfirst _]. apply Hfirst. now left.
Qed.

(** * Further properties *)

(** ** Requests of the extractors *)

Section RequestFacts.
Context (P : Platform) (W : World).

(** The requests of one call of [extractContent]. *)
Lemma extractContent_requests url format s :
  trace (snd (extractContent P W url format s)) = trace s
  \/ trace (snd (extractContent P W url format s)) = trace s ++ [EvAxiosGet url].
Proof.
  destruct (isValidUrl P url) eqn:Hvalid.
  2:{ left. unfold extractContent. now rewrite Hvalid. }
  destruct (validEntry (clock W (tick s)) (generateCacheKey url format) (contentCache s))
    as [c|] eqn:Hentry.
  - left. unfold validEntry in Hentry.
    destruct (cacheGet _ _) as [entry|] eqn:Hget; [|discriminate].
    destruct (Z.ltb_spec (clock W (tick s) - timestamp entry) cacheTTL); [|discriminate].
    now rewrite (extractContent_hit P W url format s entry).
  - right. rewrite (extractContent_miss P W url format s Hvalid Hentry).
    destruct (axiosGet W _ url format); reflexivity.
Qed.

(** X1. A call of [extractContent] never touches the sessions and sends at
    most one request, whatever its outcome: there is no retry. For a URL
    that does not parse it throws at once and leaves the whole state as it
    was. *)
Theorem extractContent_sends_at_most_one_request url format s :
  sessions (snd (extractContent P W url format s)) = sessions s
  /\ (trace (snd (extractContent P W url format s)) = trace s
      \/ trace (snd (extractContent P W url format s)) = trace s ++ [EvAxiosGet url])
  /\ (isValidUrl P url = false ->
      extractContent P W url format s = (Throw InvalidUrl, s)).
Proof.
  split.
  - apply (quiet_extractContent P W url format s).
  - split.
    + apply extractContent_requests.
    + intros Hvalid. unfold extractContent. rewrite Hvalid. reflexivity.
Qed.

(** X2. An enhanced extraction that succeeds has sent the enhancement
    request for its URL exactly once, also when the base content came from
    the cache, and the page request at most once. *)
Theorem enhanced_extraction_always_fetches url format s e s' :
  extractEnhancedContent P W url format s = (Ok e, s') ->
  exists events,
    added s s' events
    /\ fetchRequests events = [url]
    /\ (axiosRequests events = [] \/ axiosRequests events = [url]).
Proof.
  unfold extractEnhancedContent. intros Hrun.
  apply bind_inv in Hrun as (u & s1 & Hlog & Hrun).
  apply bind_inv in Hrun as (c & s2 & Hbase & Hrun).
  unfold log, modify in Hlog. injection Hlog as _ Hs1. subst s1.
  pose proof (extractContent_requests url format
                (withTrace (trace s ++ [EvExtract url]) s)) as Hrequests.
  rewrite Hbase in Hrequests. simpl in Hrequests.
  unfold enhanceContent, bind, httpFetch, dateNow in Hrun. simpl in Hrun.
  assert (Hs' : trace s' = trace s2 ++ [EvFetch url])
    by (destruct (fetchEnhance W (tick s2) url); injection Hrun as _ <-; reflexivity).
  unfold added. rewrite Hs'.
  destruct Hrequests as [-> | ->].
  - exists [EvExtract url; EvFetch url]. rewrite <- app_assoc. auto.
  - exists [EvExtract url; EvAxiosGet url; EvFetch url]. rewrite <- !app_assoc. auto.
Qed.

End RequestFacts.

Lemma enhanced_extraction_always_fetches_witness :
  exists events,
    added Demo.initial
      (snd (extractEnhancedContent Demo.platform Demo.world Demo.pageA Markdown Demo.initial))
      events
    /\ fetchRequests events = [Demo.pageA]
    /\ (axiosRequests events = [] \/ axiosRequests events = [Demo.pageA]).
Proof.
  destruct (extractEnhancedContent Demo.platform Demo.world Demo.pageA Markdown Demo.initial)
    as [[e|err] s'] eqn:Hrun.
  - exact (enhanced_extraction_always_fetches _ _ _ _ _ _ _ Hrun).
  - vm_compute in Hrun. discriminate Hrun.
Defined.

Lemma extractContent_sends_at_most_one_request_witness :
  extractContent Demo.platform Demo.world "not a url" Markdown Demo.fullState
  = (Throw InvalidUrl, Demo.fullState).
Proof.
  apply (extractContent_sends_at_most_one_request Demo.platform Demo.world
           "not a url" Markdown Demo.fullState).
  vm_compute. reflexivity.
Defined.

(** ** Cache keys and stale entries *)

Lemma length_append (a b : string) :
  String.length (a ++ b) = (String.length a + String.length b)%nat.
Proof.
  induction a as [|c a IH]; [reflexivity|].
  change (S (String.length (a ++ b)) = S (String.length a + String.length b)).
  now rewrite IH.
Qed.




Lemma cacheSet_present_keys key entry cache :
  In key (map fst cache) -> map fst (cacheSet key entry cache) = map fst cache.
Proof.
  induction cache as [|[k e] rest IH]; simpl; intros Hin; [tauto|].
  destruct (String.eqb_spec k key) as [->|Hne]; simpl; [reflexivity|].
  f_equal. apply IH. destruct Hin; [congruence|assumption].
Qed.



(** X4. An entry older than the 30 minutes is never served: the call sends
    a request, returns the new page, and writes it over the old entry in
    place, so the keys of the map and their order stay as they were. *)
Theorem stale_entry_is_replaced (P : Platform) (W : World) (url : string)
    (format : OutputFormat) (s : State) (old : ContentCacheEntry) (page : PageData) :
  isValidUrl P url = true ->
  cacheGet (generateCacheKey url format) (contentCache s) = Some old ->
  cacheTTL <= clock W (tick s) - timestamp old ->
  axiosGet W (S (tick s)) url format = Extracted page ->
  (List.length (contentCache s) <= maxCacheEntries)%nat ->
  exists s',
    extractContent P W url format s = (Ok (assemble url format page), s')
    /\ cacheGet (generateCacheKey url format) (contentCache s')
       = Some {| timestamp := clock W (S (S (tick s)));
                 content := assemble url format page |}
    /\ map fst (contentCache s') = map fst (contentCache s)
    /\ axiosRequests (trace s') = axiosRequests (trace s) ++ [url].
Proof.
  intros Hvalid Hold Hstale Hpage Hcap.
  assert (Hmiss : validEntry (clock W (tick s)) (generateCacheKey url format)
                    (contentCache s) = None).
  { unfold validEntry. rewrite Hold.
    destruct (Z.ltb_spec (clock W (tick s) - timestamp old) cacheTTL); [lia|reflexivity]. }
  assert (Hin : In (generateCacheKey url format) (map fst (contentCache s))).
  { destruct (in_dec string_dec (generateCacheKey url format) (map fst (contentCache s)))
      as [Hin|Hout]; [exact Hin|].
    apply cacheGet_None in Hout. congruence. }
  rewrite (extractContent_miss P W url format s Hvalid Hmiss).
  unfold requestTick. rewrite Hold, Hpage.
  eexists. split; [reflexivity|]. simpl.
  assert (Hkeep : forall entry,
            evictOldest (cacheSet (generateCacheKey url format) entry (contentCache s))
            = cacheSet (generateCacheKey url format) entry (contentCache s)).
  { intros entry. unfold evictOldest.
    destruct (Nat.ltb_spec maxCacheEntries
                (List.length (cacheSet (generateCacheKey url format) entry (contentCache s))))
      as [Hfull|_]; [|reflexivity].
    rewrite cacheSet_present in Hfull by exact Hin. lia. }
  rewrite Hkeep. split; [apply cacheGet_cacheSet|].
  split; [now apply cacheSet_present_keys|].
  unfold axiosRequests. now rewrite flat_map_app.
Qed.

Lemma stale_entry_is_replaced_witness :
  exists s',
    extractContent Demo.platform Sample.lateWorld (Demo.numbered 7) Markdown Demo.fullState
    = (Ok (assemble (Demo.numbered 7) Markdown Sample.freshPage), s')
    /\ cacheGet (generateCacheKey (Demo.numbered 7) Markdown) (contentCache s')
       = Some {| timestamp := clock Sample.lateWorld (S (S (tick Demo.fullState)));
                 content := assemble (Demo.numbered 7) Markdown Sample.freshPage |}
    /\ map fst (contentCache s') = map fst (contentCache Demo.fullState)
    /\ axiosRequests (trace s') = axiosRequests (trace Demo.fullState) ++ [Demo.numbered 7].
Proof.
  apply (stale_entry_is_replaced Demo.platform Sample.lateWorld (Demo.numbered 7) Markdown
           Demo.fullState {| timestamp := 7; content := base Demo.contentA |}).
  - vm_compute. reflexivity.
  - vm_compute. reflexivity.
  - vm_compute. discriminate.
  - vm_compute. reflexivity.
  - vm_compute. lia.
Defined.

(** ** The session store *)

Section SessionFacts.
Context (P : Platform) (W : World).

(** X5. A visit of an extractable page by a known session appends exactly
    one entry to that session's history, for the visited URL and with the
    given parent, moves [currentUrl] there, keeps topic and bookmarks, and
    leaves every other session as it was. *)
Theorem visitUrl_appends_one_entry sessionId url parentUrl s session :
  sessions s !! sessionId = Some session ->
  isValidUrl P url = true ->
  reachable W url Markdown ->
  exists e s' entry visited,
    visitUrl P W sessionId url parentUrl s = (Ok e, s')
    /\ sessions s' !! sessionId = Some visited
    /\ bs_history visited = bs_history session ++ [entry]
    /\ hp_url entry = url
    /\ hp_parentUrl entry = parentUrl
    /\ hp_title entry = wc_title (base e)
    /\ bs_currentUrl visited = Some url
    /\ bs_topic visited = bs_topic session
    /\ bs_bookmarks visited = bs_bookmarks session
    /\ forall other, other <> sessionId -> sessions s' !! other = sessions s !! other.
Proof.
  intros Hsession Hvalid Hreach.
  unfold visitUrl. erewrite bind_ok by (apply getSession_present; exact Hsession).
  set (s1 := withSessions _ _).
  destruct (extractEnhancedContent_succeeds P W url s1 Hvalid Hreach)
    as (e & s2 & Hextract & Hsessions & _).
  erewrite bind_ok by exact Hextract.
  unfold bind, dateNow, modify, ret. cbv beta iota.
  eexists e, _, _, _. split; [reflexivity|]. simpl.
  split; [apply lookup_insert_eq|]. simpl.
  repeat (split; [reflexivity|]).
  intros other Hother. rewrite lookup_insert_ne by congruence.
  rewrite Hsessions. unfold s1. simpl. now rewrite lookup_insert_ne by congruence.
Qed.

(** X6. A visit that throws, for an unknown session or a page that cannot be
    extracted, records nothing: every session has the history it had. *)
Theorem failed_visit_records_nothing sessionId url parentUrl s e s' :
  visitUrl P W sessionId url parentUrl s = (Throw e, s') ->
  forall other,
    bs_history <$> (sessions s' !! other) = bs_history <$> (sessions s !! other).
Proof.
  unfold visitUrl. intros Hrun other.
  destruct (sessions s !! sessionId) as [session|] eqn:Hsession.
  - erewrite bind_ok in Hrun by (apply getSession_present; exact Hsession).
    cbv beta iota in Hrun. set (s1 := withSessions _ _) in Hrun.
    pose proof (quiet_extractEnhancedContent P W url Markdown s1) as [Hsessions _].
    destruct (extractEnhancedContent P W url Markdown s1) as [[c|err] s2] eqn:Hextract;
      simpl in Hsessions.
    + erewrite bind_ok in Hrun by exact Hextract.
      unfold bind, dateNow, modify, ret in Hrun. discriminate Hrun.
    + erewrite bind_throw in Hrun by exact Hextract.
      injection Hrun as _ <-. rewrite Hsessions. unfold s1. simpl.
      destruct (decide (other = sessionId)) as [->|Hother].
      * now rewrite lookup_insert_eq, Hsession.
      * now rewrite lookup_insert_ne by congruence.
  - erewrite bind_ok in Hrun by (now apply getSession_absent).
    cbv beta iota in Hrun. injection Hrun as _ <-. reflexivity.
Qed.

(** X7. A session that has just been created under an id no other session
    has is found by [getSession] under its [id], with the topic it was
    given and nothing in its history or bookmarks; the sessions that were
    there are still there. *)
Theorem created_session_is_found topic s :
  sessions s !! uuidv4 W (tick s) = None ->
  exists created s1 found s2,
    createSession W topic s = (Ok created, s1)
    /\ bs_id created = uuidv4 W (tick s)
    /\ getSession W (bs_id created) s1 = (Ok (Some found), s2)
    /\ bs_topic found = topic
    /\ bs_history found = []
    /\ bs_bookmarks found = []
    /\ forall other session,
         sessions s !! other = Some session -> sessions s1 !! other = Some session.
Proof.
  intros Hfresh.
  unfold createSession, bind, freshUuid, dateNow, modify, ret. cbn.
  eexists _, _, _, _. split; [reflexivity|]. simpl. split; [reflexivity|].
  split; [apply getSession_present; simpl; apply lookup_insert_eq|].
  simpl. repeat (split; [reflexivity|]).
  intros other session Hother. rewrite lookup_insert_ne; [exact Hother|].
  intros <-. congruence.
Qed.

End SessionFacts.

Lemma visitUrl_appends_one_entry_witness :
  exists session e s' entry visited,
    sessions Demo.withSession !! "s1" = Some session
    /\ visitUrl Demo.platform Demo.world "s1" Demo.pageB (Some Demo.pageA) Demo.withSession
       = (Ok e, s')
    /\ sessions s' !! "s1" = Some visited
    /\ bs_history visited = bs_history session ++ [entry]
    /\ hp_url entry = Demo.pageB
    /\ hp_parentUrl entry = Some Demo.pageA.
Proof.
  destruct (sessions Demo.withSession !! "s1") as [session|] eqn:Hsession;
    [|vm_compute in Hsession; discriminate Hsession].
  destruct (visitUrl_appends_one_entry Demo.platform Demo.world "s1" Demo.pageB
              (Some Demo.pageA) Demo.withSession session Hsession)
    as (e & s' & entry & visited & Hrun & Hfound & Hhistory & Hurl & Hparent & _).
  - vm_compute. reflexivity.
  - intros i. eexists. vm_compute. reflexivity.
  - exists session, e, s', entry, visited. auto 10.
Defined.

Lemma failed_visit_records_nothing_witness :
  bs_history <$> (sessions (snd (visitUrl Demo.platform Demo.offline "s1" Demo.pageB None
                                   Demo.withSession)) !! "s1")
  = bs_history <$> (sessions Demo.withSession !! "s1").
Proof.
  destruct (visitUrl Demo.platform Demo.offline "s1" Demo.pageB None Demo.withSession)
    as [[e|err] s'] eqn:Hrun.
  - vm_compute in Hrun. discriminate Hrun.
  - exact (failed_visit_records_nothing _ _ _ _ _ _ _ _ Hrun "s1").
Defined.

Lemma created_session_is_found_witness :
  exists created s1 found s2,
    createSession Demo.world (Some "solar energy") Demo.initial = (Ok created, s1)
    /\ bs_id created = uuidv4 Demo.world (tick Demo.initial)
    /\ getSession Demo.world (bs_id created) s1 = (Ok (Some found), s2)
    /\ bs_topic found = Some "solar energy"
    /\ bs_history found = []
    /\ bs_bookmarks found = []
    /\ forall other session,
         sessions Demo.initial !! other = Some session -> sessions s1 !! other = Some session.
Proof.
  apply created_session_is_found. vm_compute. reflexivity.
Defined.

Section SweepFacts.
Context (W : World).

Lemma existsb_eqb_elem (x : string) (l : list string) :
  existsb (String.eqb x) l = true <-> x ∈ l.
Proof.
  rewrite existsb_exists. split.
  - intros (y & Hin & Heq). apply String.eqb_eq in Heq as ->. now apply list_elem_of_In.
  - intros Hin. exists x. split; [now apply list_elem_of_In|apply String.eqb_refl].
Qed.

(** What one call of [addBookmark] leaves in a known session. *)
Lemma addBookmark_run sessionId url s session :
  sessions s !! sessionId = Some session ->
  exists marked,
    sessions (snd (addBookmark W sessionId url s)) !! sessionId = Some marked
    /\ fst (addBookmark W sessionId url s) = Ok tt
    /\ bs_bookmarks marked
       = (if existsb (String.eqb url) (bs_bookmarks session)
          then bs_bookmarks session else bs_bookmarks session ++ [url])
    /\ bs_history marked = bs_history session.
Proof.
  intros Hsession. unfold addBookmark.
  erewrite bind_ok by (apply getSession_present; exact Hsession).
  cbv beta iota. unfold ret, modify. simpl.
  destruct (existsb (String.eqb url) (bs_bookmarks session));
    simpl; rewrite lookup_insert_eq;
    eexists; (split; [reflexivity|]); split; [reflexivity| |reflexivity|];
    split; reflexivity.
Qed.

(** X8. Bookmarking is idempotent and keeps the bookmarks free of
    duplicates: after [addBookmark] the URL is among the bookmarks of the
    session, the earlier bookmarks are kept in order, and a second call
    with the same URL changes no bookmark. *)
Theorem addBookmark_is_idempotent sessionId url s session :
  sessions s !! sessionId = Some session ->
  NoDup (bs_bookmarks session) ->
  exists once twice,
    sessions (snd (addBookmark W sessionId url s)) !! sessionId = Some once
    /\ url ∈ bs_bookmarks once
    /\ NoDup (bs_bookmarks once)
    /\ bs_bookmarks session `prefix_of` bs_bookmarks once
    /\ sessions (snd (addBookmark W sessionId url (snd (addBookmark W sessionId url s))))
         !! sessionId = Some twice
    /\ bs_bookmarks twice = bs_bookmarks once.
Proof.
  intros Hsession Hnodup.
  destruct (addBookmark_run sessionId url s session Hsession)
    as (once & Honce & _ & Hmarks & _).
  destruct (addBookmark_run sessionId url _ once Honce) as (twice & Htwice & _ & Hagain & _).
  assert (Hin : url ∈ bs_bookmarks once).
  { rewrite Hmarks. destruct (existsb _ _) eqn:Hseen.
    - now apply existsb_eqb_elem.
    - apply elem_of_app. right. now apply list_elem_of_singleton. }
  exists once, twice. split; [exact Honce|]. split; [exact Hin|]. split.
  - rewrite Hmarks. destruct (existsb _ _) eqn:Hseen; [exact Hnodup|].
    apply NoDup_app. split; [exact Hnodup|]. split; [|apply NoDup_singleton].
    intros x Hx Hsame. apply list_elem_of_singleton in Hsame as ->.
    apply existsb_eqb_elem in Hx. congruence.
  - split.
    + rewrite Hmarks. destruct (existsb _ _); [reflexivity|]. now apply prefix_app_r.
    + split; [exact Htwice|]. rewrite Hagain.
      now replace (existsb (String.eqb url) (bs_bookmarks once)) with true
        by (symmetry; now apply existsb_eqb_elem).
Qed.

Lemma cleanupExpiredSessions_lookup s sessionId :
  sessions (snd (cleanupExpiredSessions W s)) !! sessionId
  = match sessions s !! sessionId with
    | Some session =>
        if SESSION_TIMEOUT <? clock W (tick s) - bs_lastActivityTime session
        then None else Some session
    | None => None
    end.
Proof.
  unfold cleanupExpiredSessions, bind, dateNow, modify. simpl.
  rewrite map_lookup_filter.
  destruct (sessions s !! sessionId) as [session|]; simpl; [|reflexivity].
  unfold expired. destruct (SESSION_TIMEOUT <? _).
  - now rewrite option_guard_False by discriminate.
  - now rewrite option_guard_True by reflexivity.
Qed.

(** X9. The sweep removes exactly the sessions idle for more than 30
    minutes at the time it reads the clock, and changes no other session:
    a session idle for 30 minutes to the millisecond is kept as it is, and
    the sweep creates none. *)
Theorem sweep_removes_idle_sessions s sessionId :
  (forall session,
     sessions s !! sessionId = Some session ->
     SESSION_TIMEOUT < clock W (tick s) - bs_lastActivityTime session ->
     sessions (snd (cleanupExpiredSessions W s)) !! sessionId = None)
  /\ (forall session,
        sessions s !! sessionId = Some session ->
        clock W (tick s) - bs_lastActivityTime session <= SESSION_TIMEOUT ->
        sessions (snd (cleanupExpiredSessions W s)) !! sessionId = Some session)
  /\ (sessions s !! sessionId = None ->
      sessions (snd (cleanupExpiredSessions W s)) !! sessionId = None).
Proof.
  rewrite cleanupExpiredSessions_lookup.
  split; [|split]; [intros session Hsession Hidle..|intros Hnone].
  - rewrite Hsession. destruct (Z.ltb_spec SESSION_TIMEOUT
                                  (clock W (tick s) - bs_lastActivityTime session));
      [reflexivity|lia].
  - rewrite Hsession. destruct (Z.ltb_spec SESSION_TIMEOUT
                                  (clock W (tick s) - bs_lastActivityTime session));
      [lia|reflexivity].
  - now rewrite Hnone.
Qed.

(** X10. A read extends the life of a session: however long a session has
    been idle, once [getSession] has found it a sweep that reads the clock
    within 30 minutes of that read keeps it, history included. *)
Theorem read_extends_session_life s sessionId session :
  sessions s !! sessionId = Some session ->
  clock W (S (tick s)) - clock W (tick s) <= SESSION_TIMEOUT ->
  exists kept,
    sessions (snd (cleanupExpiredSessions W (snd (getSession W sessionId s)))) !! sessionId
    = Some kept
    /\ bs_lastActivityTime kept = clock W (tick s)
    /\ bs_history kept = bs_history session
    /\ bs_bookmarks kept = bs_bookmarks session.
Proof.
  intros Hsession Hsoon.
  rewrite cleanupExpiredSessions_lookup.
  rewrite (getSession_present W sessionId s session Hsession). simpl.
  rewrite lookup_insert_eq. simpl.
  destruct (Z.ltb_spec SESSION_TIMEOUT (clock W (S (tick s)) - clock W (tick s))); [lia|].
  eexists. repeat split; reflexivity.
Qed.

End SweepFacts.

Lemma sweep_removes_idle_sessions_witness :
  is_Some (sessions Demo.withSession !! "s1")
  /\ sessions (snd (cleanupExpiredSessions Sample.lateWorld Demo.withSession)) !! "s1" = None.
Proof.
  destruct (sessions Demo.withSession !! "s1") as [session|] eqn:Hsession;
    [|vm_compute in Hsession; discriminate Hsession].
  split; [eauto|].
  apply (proj1 (sweep_removes_idle_sessions Sample.lateWorld Demo.withSession "s1") session
           Hsession).
  vm_compute in Hsession. injection Hsession as <-. vm_compute. reflexivity.
Defined.

Lemma addBookmark_is_idempotent_witness :
  exists session once twice,
    sessions Demo.withSession !! "s1" = Some session
    /\ sessions (snd (addBookmark Demo.world "s1" Demo.pageB Demo.withSession)) !! "s1"
       = Some once
    /\ Demo.pageB ∈ bs_bookmarks once
    /\ NoDup (bs_bookmarks once)
    /\ bs_bookmarks session `prefix_of` bs_bookmarks once
    /\ sessions (snd (addBookmark Demo.world "s1" Demo.pageB
                        (snd (addBookmark Demo.world "s1" Demo.pageB Demo.withSession))))
         !! "s1" = Some twice
    /\ bs_bookmarks twice = bs_bookmarks once.
Proof.
  destruct (sessions Demo.withSession !! "s1") as [session|] eqn:Hsession;
    [|vm_compute in Hsession; discriminate Hsession].
  destruct (addBookmark_is_idempotent Demo.world "s1" Demo.pageB Demo.withSession session
              Hsession) as (once & twice & H).
  - vm_compute in Hsession. injection Hsession as <-. apply NoDup_nil_2.
  - exists session, once, twice. split; [reflexivity|exact H].
Defined.

Lemma read_extends_session_life_witness :
  exists session kept,
    sessions Demo.withSession !! "s1" = Some session
    /\ bs_lastActivityTime session = 1001
    /\ sessions (snd (cleanupExpiredSessions Sample.lateWorld
                        (snd (getSession Sample.lateWorld "s1" Demo.withSession)))) !! "s1"
       = Some kept
    /\ bs_lastActivityTime kept = clock Sample.lateWorld (tick Demo.withSession)
    /\ bs_history kept = bs_history session
    /\ bs_bookmarks kept = bs_bookmarks session.
Proof.
  destruct (sessions Demo.withSession !! "s1") as [session|] eqn:Hsession;
    [|vm_compute in Hsession; discriminate Hsession].
  destruct (read_extends_session_life Sample.lateWorld Demo.withSession "s1" session
              Hsession) as (kept & H).
  - vm_compute. discriminate.
  - exists session, kept. split; [reflexivity|]. split; [|exact H].
    vm_compute in Hsession. injection Hsession as <-. reflexivity.
Defined.

(** ** What a traversal adds *)

Lemma extends_refl t : extends t t [].
Proof. unfold extends. simpl. now rewrite !app_nil_r. Qed.

Lemma extends_trans t1 t2 t3 more1 more2 :
  extends t1 t2 more1 -> extends t2 t3 more2 -> extends t1 t3 (more1 ++ more2).
Proof.
  intros (Hp1 & Hn1 & Hs1 & Hr1) (Hp2 & Hn2 & Hs2 & Hr2). unfold extends.
  rewrite Hp2, Hp1, Hn2, Hn1, Hs2, Hs1, Hr2, Hr1, fmap_app, !app_assoc. auto.
Qed.

Lemma pagesBound_monotone remainingDepth width1 width2 :
  (width1 <= width2)%nat ->
  (pagesBound remainingDepth width1 <= pagesBound remainingDepth width2)%nat.
Proof. destruct remainingDepth; simpl; [lia|]. intros Hle. nia. Qed.

Lemma selectPageLinks_length (P : Platform) options remainingDepth c :
  (List.length (selectPageLinks P options remainingDepth c)
   <= Z.to_nat (deeperLinkCap remainingDepth))%nat.
Proof. unfold selectPageLinks. apply firstn_le_length. Qed.

Lemma selectStartLinks_length (P : Platform) options maxLinksToFollow c url :
  (List.length (selectStartLinks P options maxLinksToFollow c url)
   <= Z.to_nat maxLinksToFollow)%nat.
Proof. unfold selectStartLinks. apply firstn_le_length. Qed.

Section TraversalShape.
Context (P : Platform) (W : World).
Context (Good : PageVisited -> Prop) (LinkOk : ExtractedLink -> Prop).
Context (options : NavigationOptions).
Hypothesis Hselect :
  forall remainingDepth c, Forall LinkOk (selectPageLinks P options remainingDepth c).
Hypothesis Hgood :
  forall link c relevance,
    LinkOk link ->
    calculateRelevanceScore P c (keywordsOrEmpty (opt_filterByKeywords options))
    = Some relevance ->
    Good {| pv_url := link_url link;
            pv_title := wc_title (base c);
            pv_relevance := relevance;
            pv_summary := orElse (wc_summary (base c)) (generatePageSummary P c) |}.

(** One round of the loop adds at most the page of its link and what the
    level below adds. *)
Lemma followLink_extends recurse sessionId (deeper : nat) parentUrl t s link below :
  (forall ls parent t0 s0,
     Forall LinkOk ls ->
     (List.length ls <= Z.to_nat (deeperLinkCap (Z.of_nat (S deeper))))%nat ->
     exists more, extends t0 (fst (recurse ls parent t0 s0)) more
                  /\ Forall Good more /\ (List.length more <= below)%nat) ->
  LinkOk link ->
  exists more,
    extends t (fst (followLink P W recurse sessionId (Z.of_nat (S deeper)) options
                      parentUrl (t, s) link)) more
    /\ Forall Good more /\ (List.length more <= 1 + below)%nat.
Proof.
  intros Hrecurse Hlink. unfold followLink.
  assert (Hnothing : exists more, extends t t more /\ Forall Good more
                                  /\ (List.length more <= 1 + below)%nat).
  { exists []. split; [apply extends_refl|]. split; [constructor|simpl; lia]. }
  destruct (decide (link_url link ∈ visitedUrls t)); [exact Hnothing|].
  destruct (extractEnhancedContent P W (link_url link) Markdown s) as [[c|e] s1];
    [|exact Hnothing].
  destruct (calculateRelevanceScore P c _) as [relevance|] eqn:Hscore.
  2:{ exists []. split; [|split; [constructor|simpl; lia]].
      unfold extends. simpl. now rewrite !app_nil_r. }
  pose proof (Hgood link c relevance Hlink Hscore) as Hpage.
  set (page := {| pv_url := link_url link; pv_title := wc_title (base c);
                  pv_relevance := relevance;
                  pv_summary := orElse (wc_summary (base c)) (generatePageSummary P c) |})
    in *.
  assert (Hpushed : extends t (pushPage page (addVisited (link_url link) t)) [page]).
  { unfold extends. simpl. auto. }
  assert (Hone : exists more,
             extends t (pushPage page (addVisited (link_url link) t)) more
             /\ Forall Good more /\ (List.length more <= 1 + below)%nat).
  { exists [page]. split; [exact Hpushed|]. split; [now constructor|simpl; lia]. }
  destruct ((1 <=? Z.of_nat (S deeper)) && nonEmpty (links c));
    [destruct (nonEmpty (selectPageLinks P options (Z.of_nat (S deeper)) c))|].
  - destruct (Hrecurse (selectPageLinks P options (Z.of_nat (S deeper)) c) (link_url link)
                (pushPage page (addVisited (link_url link) t)) s1
                (Hselect _ _) (selectPageLinks_length _ _ _ _))
      as (more & Hmore & Hall & Hlen).
    destruct (recurse _ _ _ s1) as [t2 s2]. destruct (visitUrl _ _ _ _ _ s2).
    exists ([page] ++ more). split; [now apply (extends_trans _ _ _ _ _ Hpushed)|].
    split; [now constructor|simpl; lia].
  - destruct (visitUrl _ _ _ _ _ s1). exact Hone.
  - destruct (visitUrl _ _ _ _ _ s1). exact Hone.
Qed.

Lemma followLinksRecursive_extends remainingDepth :
  forall sessionId linksToFollow parentUrl t s,
    Forall LinkOk linksToFollow ->
    exists more,
      extends t (fst (followLinksRecursive P W remainingDepth sessionId linksToFollow
                        options parentUrl t s)) more
      /\ Forall Good more
      /\ (List.length more <= pagesBound remainingDepth (List.length linksToFollow))%nat.
Proof.
  induction remainingDepth as [|deeper IH];
    intros sessionId linksToFollow parentUrl t s Hlinks.
  { exists []. split; [apply extends_refl|]. split; [constructor|simpl; lia]. }
  cbn [followLinksRecursive pagesBound].
  set (cap := Z.to_nat (deeperLinkCap (Z.of_nat (S deeper)))).
  revert t s. induction Hlinks as [|link rest Hlink Hrest IHlinks]; intros t s.
  { exists []. split; [apply extends_refl|]. split; [constructor|simpl; lia]. }
  cbn [fold_left].
  destruct (followLink_extends
              (fun ls parent t0 s0 =>
                 followLinksRecursive P W deeper sessionId ls options parent t0 s0)
              sessionId deeper parentUrl t s link (pagesBound deeper cap))
    as (more1 & Hmore1 & Hall1 & Hlen1); [|exact Hlink|].
  { intros ls parent t0 s0 Hls Hwidth.
    destruct (IH sessionId ls parent t0 s0 Hls) as (more & Hmore & Hall & Hlen).
    exists more. split; [exact Hmore|]. split; [exact Hall|].
    pose proof (pagesBound_monotone deeper (List.length ls) cap Hwidth). lia. }
  destruct (followLink _ _ _ _ _ _ _ (t, s) link) as [t1 s1].
  destruct (IHlinks t1 s1) as (more2 & Hmore2 & Hall2 & Hlen2).
  exists (more1 ++ more2). split; [now apply (extends_trans _ _ _ _ _ Hmore1)|].
  split; [now apply Forall_app|].
  rewrite length_app. cbn [List.length]. simpl in Hmore1. lia.
Qed.

End TraversalShape.

(** ** The result of [followLinks] *)

Lemma insertByRelevance_In x y sorted :
  In x (insertByRelevance y sorted) <-> x = y \/ In x sorted.
Proof.
  induction sorted as [|z rest IH]; simpl; [intuition congruence|].
  destruct (Qle_bool (scoreOf z) (scoreOf y)); simpl; [intuition congruence|].
  rewrite IH. intuition congruence.
Qed.

Lemma sortByRelevance_In x l : In x (sortByRelevance l) <-> In x l.
Proof.
  induction l as [|y rest IH]; simpl; [reflexivity|].
  rewrite insertByRelevance_In, IH. intuition congruence.
Qed.

Lemma Forall_sortByRelevance (Q : ExtractedLink -> Prop) l :
  Forall Q l -> Forall Q (sortByRelevance l).
Proof.
  rewrite !List.Forall_forall. intros Hall x Hx. now apply Hall, sortByRelevance_In.
Qed.

Lemma Forall_filterByKeyword (Q : ExtractedLink -> Prop) options l :
  Forall Q l -> Forall Q (filterByKeyword options l).
Proof.
  intros Hall. unfold filterByKeyword.
  destruct (opt_filterByKeywords options) as [[|k ks]|]; try exact Hall.
  rewrite List.Forall_forall in *. intros x Hx. apply List.filter_In in Hx. now apply Hall.
Qed.

Lemma Forall_filterByDomain (P : Platform) (Q : ExtractedLink -> Prop) options l :
  Forall Q l -> Forall Q (filterByDomain P options l).
Proof.
  intros Hall. unfold filterByDomain. destruct (nonEmpty _); [|exact Hall].
  rewrite List.Forall_forall in *. intros x Hx. apply List.filter_In in Hx. now apply Hall.
Qed.

Lemma Forall_filter_holds {A} (f : A -> bool) l : Forall (fun x => f x = true) (List.filter f l).
Proof. rewrite List.Forall_forall. intros x Hx. now apply List.filter_In in Hx. Qed.

Lemma Forall_filter_keeps {A} (Q : A -> Prop) (f : A -> bool) l :
  Forall Q l -> Forall Q (List.filter f l).
Proof.
  rewrite !List.Forall_forall. intros Hall x Hx. apply List.filter_In in Hx. now apply Hall.
Qed.

Section ResultShape.
Context (P : Platform) (W : World).
Context (Good : PageVisited -> Prop) (LinkOk : ExtractedLink -> Prop).
Context (params : FollowLinksParams).
Hypothesis Hstart :
  forall options c,
    optionsOf P params options ->
    Forall LinkOk (selectStartLinks P options (fp_maxLinksToFollow params) c (fp_url params)).
Hypothesis Hselect :
  forall options remainingDepth c,
    optionsOf P params options ->
    Forall LinkOk (selectPageLinks P options remainingDepth c).
Hypothesis Hgood :
  forall link c relevance,
    LinkOk link ->
    calculateRelevanceScore P c (keywordsOrEmpty (fp_keywords params)) = Some relevance ->
    Good {| pv_url := link_url link;
            pv_title := wc_title (base c);
            pv_relevance := relevance;
            pv_summary := orElse (wc_summary (base c)) (generatePageSummary P c) |}.

(** Whatever [followLinks] returns is the start page followed by the pages
    the recursion added. *)
Lemma followLinks_shape sessionId s r s' :
  followLinks P W sessionId params s = (Ok r, s') ->
  exists startPage more,
    pagesVisited r = startPage :: more
    /\ pv_url startPage = fp_url params
    /\ pv_relevance startPage = 1%Q
    /\ navigationPath r = pv_url <$> pagesVisited r
    /\ startUrl r = fp_url params
    /\ Forall Good more
    /\ (List.length more
        <= pagesBound (Z.to_nat (fp_depth params - 1))
                      (Z.to_nat (fp_maxLinksToFollow params)))%nat.
Proof.
  unfold followLinks. cbv zeta. intros Hrun.
  apply bind_inv in Hrun as (session & s1 & _ & Hrun).
  apply bind_inv in Hrun as (_ & s2 & _ & Hrun).
  apply bind_inv in Hrun as (startContent & s3 & _ & Hrun).
  apply bind_inv in Hrun as (_ & s4 & _ & Hrun).
  assert (Halone : forall page topics,
            pv_url page = fp_url params -> pv_relevance page = 1%Q ->
            exists startPage more,
              pagesVisited {| startUrl := fp_url params; pagesVisited := [page];
                              navigationPath := [fp_url params];
                              relatedTopics := topics |} = startPage :: more
              /\ pv_url startPage = fp_url params
              /\ pv_relevance startPage = 1%Q
              /\ [fp_url params] = pv_url <$> [page]
              /\ fp_url params = fp_url params
              /\ Forall Good more
              /\ (List.length more
                  <= pagesBound (Z.to_nat (fp_depth params - 1))
                                (Z.to_nat (fp_maxLinksToFollow params)))%nat).
  { intros page topics Hurl Hrel. exists page, []. simpl. rewrite Hurl.
    repeat split; auto. lia. }
  destruct ((fp_depth params <=? 0) || (fp_maxLinksToFollow params <=? 0)).
  { injection Hrun as <- _. now apply Halone. }
  destruct (negb (nonEmpty (links startContent))).
  { injection Hrun as <- _. now apply Halone. }
  apply bind_inv in Hrun as (includeDomains & s5 & Hdomains & Hrun).
  match type of Hrun with
  | context [followLinksRecursive P W ?d ?id ?ls ?o ?p ?t0 ?s0] =>
      assert (Hoptions : optionsOf P params o);
      [|destruct (followLinksRecursive_extends P W Good LinkOk o
                    (fun rd c => Hselect o rd c Hoptions)
                    (fun link c relevance => Hgood link c relevance)
                    d id ls p t0 s0 (Hstart o startContent Hoptions))
          as (more & Hmore & Hall & Hlen);
        pose proof (selectStartLinks_length P o (fp_maxLinksToFollow params)
                      startContent (fp_url params)) as Hwidth;
        destruct (followLinksRecursive P W d id ls o p t0 s0) as [t s6]]
  end.
  { unfold optionsOf. simpl. split; [reflexivity|]. split; [reflexivity|].
    destruct (fp_stayOnDomain params).
    - destruct (urlHostname P (fp_url params)).
      + now injection Hdomains as <- _.
      + discriminate Hdomains.
    - now injection Hdomains as <- _. }
  injection Hrun as <- _. destruct Hmore as (Hpages & Hpath & Hstarturl & _).
  simpl in *. eexists _, more. split; [exact Hpages|]. simpl.
  split; [reflexivity|]. split; [reflexivity|].
  split; [rewrite Hpath, Hpages; reflexivity|].
  split; [exact Hstarturl|]. split; [exact Hall|].
  etransitivity; [exact Hlen|]. now apply pagesBound_monotone.
Qed.

End ResultShape.

Lemma followLinks_pages (P : Platform) (W : World) sessionId params s r s' :
  followLinks P W sessionId params s = (Ok r, s') ->
  exists startPage more,
    pagesVisited r = startPage :: more
    /\ pv_url startPage = fp_url params
    /\ pv_relevance startPage = 1%Q
    /\ navigationPath r = pv_url <$> pagesVisited r
    /\ (List.length more
        <= pagesBound (Z.to_nat (fp_depth params - 1))
                      (Z.to_nat (fp_maxLinksToFollow params)))%nat.
Proof.
  intros Hrun.
  edestruct (followLinks_shape P W (fun _ => True) (fun _ => True) params)
    as (startPage & more & Hpages & Hurl & Hrel & Hpath & _ & _ & Hlen);
    [| | |exact Hrun|].
  - intros. apply Forall_true. auto.
  - intros. apply Forall_true. auto.
  - auto.
  - exists startPage, more. auto.
Qed.

(** X11. A traversal visits at most one page for the start URL and, below
    it, one page per link followed: with [depth] levels and
    [maxLinksToFollow] links on the first, at most
    [1 + pagesBound (depth - 1) maxLinksToFollow] pages, whatever the pages
    link to. *)
Theorem traversal_page_count_is_bounded (P : Platform) (W : World) (sessionId : string)
    (params : FollowLinksParams) (s : State) (r : FollowLinksResult) (s' : State) :
  followLinks P W sessionId params s = (Ok r, s') ->
  (List.length (pagesVisited r)
   <= 1 + pagesBound (Z.to_nat (fp_depth params - 1))
                     (Z.to_nat (fp_maxLinksToFollow params)))%nat
  /\ List.length (navigationPath r) = List.length (pagesVisited r).
Proof.
  intros Hrun.
  destruct (followLinks_pages P W sessionId params s r s' Hrun)
    as (startPage & more & Hpages & _ & _ & Hpath & Hlen).
  rewrite Hpath, Hpages, length_fmap. simpl. split; [lia|reflexivity].
Qed.

Lemma traversal_page_count_is_bounded_witness :
  exists r s',
    followLinks Demo.platform Demo.world "s1" (Demo.params 3 5) Demo.withSession = (Ok r, s')
    /\ List.length (pagesVisited r) = 4%nat
    /\ (List.length (pagesVisited r) <= 16)%nat.
Proof.
  destruct (followLinks Demo.platform Demo.world "s1" (Demo.params 3 5) Demo.withSession)
    as [[r|e] s'] eqn:Hrun.
  - exists r, s'. split; [reflexivity|].
    destruct (traversal_page_count_is_bounded _ _ _ _ _ _ _ Hrun) as [Hbound _].
    split; [|exact Hbound].
    vm_compute in Hrun. injection Hrun as <- _. reflexivity.
  - vm_compute in Hrun. discriminate Hrun.
Defined.

(** X12. With [depth <= 1] no link is followed: the recursion starts with
    [depth - 1] levels to go and returns at once, so the result holds the
    start page alone, however many links that page has and whatever
    [maxLinksToFollow] is. *)
Theorem depth_one_follows_no_link (P : Platform) (W : World) (sessionId : string)
    (params : FollowLinksParams) (s : State) (r : FollowLinksResult) (s' : State) :
  fp_depth params <= 1 ->
  followLinks P W sessionId params s = (Ok r, s') ->
  exists startPage,
    pagesVisited r = [startPage]
    /\ pv_url startPage = fp_url params
    /\ pv_relevance startPage = 1%Q
    /\ navigationPath r = [fp_url params].
Proof.
  intros Hdepth Hrun.
  destruct (followLinks_pages P W sessionId params s r s' Hrun)
    as (startPage & more & Hpages & Hurl & Hrel & Hpath & Hlen).
  replace (Z.to_nat (fp_depth params - 1)) with 0%nat in Hlen by lia.
  simpl in Hlen. destruct more; [|simpl in Hlen; lia].
  exists startPage. rewrite Hpath, Hpages. simpl. now rewrite Hurl.
Qed.

Lemma depth_one_follows_no_link_witness :
  exists r s',
    followLinks Demo.platform Demo.world "s1" (Demo.params 1 5) Demo.withSession = (Ok r, s')
    /\ List.length (links Demo.contentA) = 3%nat
    /\ exists startPage,
         pagesVisited r = [startPage]
         /\ pv_url startPage = Demo.pageA
         /\ pv_relevance startPage = 1%Q
         /\ navigationPath r = [Demo.pageA].
Proof.
  destruct (followLinks Demo.platform Demo.world "s1" (Demo.params 1 5) Demo.withSession)
    as [[r|e] s'] eqn:Hrun.
  - exists r, s'. split; [reflexivity|]. split; [reflexivity|].
    apply (depth_one_follows_no_link Demo.platform Demo.world "s1" (Demo.params 1 5)
             Demo.withSession r s'); [simpl; lia|exact Hrun].
  - vm_compute in Hrun. discriminate Hrun.
Defined.

Lemma prefix_refl s : String.prefix s s = true.
Proof.
  induction s as [|c s IH]; simpl; [reflexivity|].
  destruct (ascii_dec c c); [exact IH|congruence].
Qed.

Lemma includes_refl s : includes s s = true.
Proof.
  destruct s as [|c s]; [reflexivity|]. cbn [includes]. now rewrite prefix_refl.
Qed.

Lemma domainAllowed_onDomain (P : Platform) host link :
  domainAllowed P [host] link = true -> onDomain P host (link_url link) = true.
Proof.
  unfold domainAllowed, onDomain. destruct (urlHostname P (link_url link)); [|discriminate].
  simpl. now rewrite orb_false_r.
Qed.

Lemma filterByDomain_onDomain (P : Platform) options host l :
  opt_includeDomains options = [host] ->
  Forall (fun link => onDomain P host (link_url link) = true) (filterByDomain P options l).
Proof.
  intros Hinclude. unfold filterByDomain. rewrite Hinclude. simpl.
  eapply Forall_impl; [apply Forall_filter_holds|].
  intros link. apply domainAllowed_onDomain.
Qed.

(** X13. With [stayOnDomain] every page of the result, the start page and
    every page reached at any depth, has a host name that contains the host
    name of the start URL. *)
Theorem stay_on_domain_keeps_host (P : Platform) (W : World) (sessionId : string)
    (params : FollowLinksParams) (s : State) (r : FollowLinksResult) (s' : State)
    (host : string) :
  fp_stayOnDomain params = true ->
  urlHostname P (fp_url params) = Some host ->
  followLinks P W sessionId params s = (Ok r, s') ->
  Forall (fun page => onDomain P host (pv_url page) = true) (pagesVisited r)
  /\ Forall (fun url => onDomain P host url = true) (navigationPath r).
Proof.
  intros Hstay Hhost Hrun.
  assert (Hinclude : forall options,
            optionsOf P params options -> opt_includeDomains options = [host]).
  { intros options (_ & _ & Hdomains). now rewrite Hdomains, Hstay, Hhost. }
  edestruct (followLinks_shape P W (fun page => onDomain P host (pv_url page) = true)
               (fun link => onDomain P host (link_url link) = true) params)
    as (startPage & more & Hpages & Hurl & _ & Hpath & _ & Hall & _);
    [| | |exact Hrun|].
  - intros options c Hoptions. unfold selectStartLinks. cbv zeta.
    apply Forall_take, Forall_sortByRelevance, Forall_filterByKeyword.
    now apply filterByDomain_onDomain, Hinclude.
  - intros options remainingDepth c Hoptions. unfold selectPageLinks. cbv zeta.
    apply Forall_take, Forall_sortByRelevance.
    assert (Hkept : Forall (fun link => onDomain P host (link_url link) = true)
                      (filterByKeyword options
                         (filterByDomain P options
                            (map (fun pageLink =>
                                    withScore pageLink
                                      (calculateLinkRelevance P pageLink
                                         (keywordsOrEmpty (opt_filterByKeywords options)) c))
                                 (links c)))))
      by now apply Forall_filterByKeyword, filterByDomain_onDomain, Hinclude.
    destruct (Qlt_le_dec 0 (opt_relevanceThreshold options)); [|exact Hkept].
    now apply Forall_filter_keeps.
  - intros link c relevance Hlink _. exact Hlink.
  - assert (Hpagesok : Forall (fun page => onDomain P host (pv_url page) = true)
                         (pagesVisited r)).
    { rewrite Hpages. constructor; [|exact Hall].
      rewrite Hurl. unfold onDomain. rewrite Hhost. apply includes_refl. }
    split; [exact Hpagesok|]. rewrite Hpath. now apply Forall_fmap.
Qed.

Lemma stay_on_domain_keeps_host_witness :
  exists r s',
    followLinks Demo.platform Demo.world "s1" Sample.onSite Demo.withSession = (Ok r, s')
    /\ navigationPath r = [Demo.pageA; Demo.pageB; Demo.pageC; Demo.pageD]
    /\ Forall (fun page => onDomain Demo.platform "example.com" (pv_url page) = true)
              (pagesVisited r)
    /\ Forall (fun url => onDomain Demo.platform "example.com" url = true)
              (navigationPath r).
Proof.
  destruct (followLinks Demo.platform Demo.world "s1" Sample.onSite Demo.withSession)
    as [[r|e] s'] eqn:Hrun.
  - exists r, s'. split; [reflexivity|]. split.
    + vm_compute in Hrun. injection Hrun as <- _. reflexivity.
    + apply (stay_on_domain_keeps_host Demo.platform Demo.world "s1" Sample.onSite
               Demo.withSession r s' "example.com");
        [reflexivity|vm_compute; reflexivity|exact Hrun].
  - vm_compute in Hrun. discriminate Hrun.
Defined.

(** ** The relevance of a page *)







(** A traversal for a known session and a start page that can be
    extracted runs to its end. *)
Lemma followLinks_known_session_runs (P : Platform) (W : World)
    (sessionId : string) (params : FollowLinksParams) (s : State) :
  is_Some (sessions s !! sessionId) ->
  isValidUrl P (fp_url params) = true ->
  reachable W (fp_url params) Markdown ->
  exists r s', followLinks P W sessionId params s = (Ok r, s').
Proof.
  intros [session Hsession] Hvalid Hreach.
  pose proof (getSession_present W sessionId s session Hsession) as Hget.
  set (s1 := withSessions _ _) in Hget.
  destruct (extractEnhancedContent_succeeds P W (fp_url params) s1 Hvalid Hreach)
    as (c & s2 & Hextract & Hsessions & _).
  destruct (visitUrl_present P W sessionId (fp_url params) None s2) as
    (e & s3 & Hvisit & _); [|assumption..|].
  { rewrite Hsessions. unfold s1. simpl. rewrite lookup_insert_eq. eauto. }
  assert (Hhost : exists host, urlHostname P (fp_url params) = Some host).
  { unfold isValidUrl in Hvalid. destruct (urlHostname P (fp_url params)); eauto.
    discriminate. }
  destruct Hhost as [host Hhost].
  unfold followLinks. cbv zeta.
  erewrite bind_ok by exact Hget.
  erewrite bind_ok by reflexivity.
  erewrite bind_ok by exact Hextract.
  erewrite bind_ok by exact Hvisit.
  destruct ((fp_depth params <=? 0) || (fp_maxLinksToFollow params <=? 0));
    [unfold ret; eauto|].
  destruct (negb (nonEmpty (links c))); [unfold ret; eauto|].
  rewrite Hhost.
  destruct (fp_stayOnDomain params).
  - erewrite bind_ok by reflexivity.
    destruct (followLinksRecursive _ _ _ _ _ _ _ _ s3); eauto.
  - erewrite bind_ok by reflexivity.
    destruct (followLinksRecursive _ _ _ _ _ _ _ _ s3); eauto.
Qed.

(** For a session the service does not know the visit of the start page
    throws. *)
Lemma followLinks_absent_session_throws (P : Platform) (W : World)
    (sessionId : string) (params : FollowLinksParams) (s : State) :
  sessions s !! sessionId = None ->
  uuidv4 W (tick s) <> sessionId ->
  isValidUrl P (fp_url params) = true ->
  reachable W (fp_url params) Markdown ->
  exists s' created,
    followLinks P W sessionId params s = (Throw (SessionNotFound sessionId), s')
    /\ sessions s' = <[uuidv4 W (tick s) := created]> (sessions s).
Proof.
  intros Hnone Hfresh Hvalid Hreach.
  destruct (createSession_run W (option_map (join ", ") (fp_keywords params)) s)
    as (created & Hcreate & _).
  set (s1 := withSessions _ _) in Hcreate.
  assert (Hs1 : sessions s1 = <[uuidv4 W (tick s) := created]> (sessions s))
    by reflexivity.
  clearbody s1.
  destruct (extractEnhancedContent_succeeds P W (fp_url params) s1 Hvalid Hreach)
    as (c & s2 & Hextract & Hsessions & _).
  unfold followLinks. cbv zeta.
  erewrite bind_ok by (now apply getSession_absent).
  erewrite bind_ok by (erewrite bind_ok by exact Hcreate; reflexivity).
  erewrite bind_ok by exact Hextract.
  erewrite bind_throw
    by (apply visitUrl_absent; rewrite Hsessions, Hs1; now rewrite lookup_insert_ne).
  exists s2, created. split; [reflexivity|]. now rewrite Hsessions, Hs1.
Qed.

(** X15. For a session the service knows and a start page that can be
    extracted, [followLinks] returns a result at every depth and breadth:
    nothing that goes wrong below the start page reaches the caller. The
    result names the start URL and its path begins there. *)
Theorem followLinks_returns_for_known_session (P : Platform) (W : World)
    (sessionId : string) (params : FollowLinksParams) (s : State) :
  is_Some (sessions s !! sessionId) ->
  isValidUrl P (fp_url params) = true ->
  reachable W (fp_url params) Markdown ->
  exists r s',
    followLinks P W sessionId params s = (Ok r, s')
    /\ startUrl r = fp_url params
    /\ head (navigationPath r) = Some (fp_url params).
Proof.
  intros Hsession Hvalid Hreach.
  destruct (followLinks_known_session_runs P W sessionId params s Hsession Hvalid Hreach)
    as (r & s' & Hrun).
  exists r, s'. split; [exact Hrun|].
  edestruct (followLinks_shape P W (fun _ => True) (fun _ => True) params)
    as (startPage & more & Hpages & Hurl & _ & Hpath & Hfirst & _);
    [| | |exact Hrun|].
  - intros. apply Forall_true. auto.
  - intros. apply Forall_true. auto.
  - auto.
  - split; [exact Hfirst|]. rewrite Hpath, Hpages. simpl. now rewrite Hurl.
Qed.

Lemma followLinks_returns_for_known_session_witness :
  exists r s',
    followLinks Demo.platform Demo.world "s1" Sample.onSite Demo.withSession = (Ok r, s')
    /\ startUrl r = Demo.pageA
    /\ head (navigationPath r) = Some Demo.pageA.
Proof.
  apply (followLinks_returns_for_known_session Demo.platform Demo.world "s1" Sample.onSite
           Demo.withSession).
  - eexists. vm_compute. reflexivity.
  - vm_compute. reflexivity.
  - intros i. eexists. vm_compute. reflexivity.
Defined.

(** ** Scores of the session service *)

Section ScoreFacts.
Context (P : Platform).

Lemma keywordShare_bounds (matchCount total : nat) :
  (0 < matchCount)%nat -> (matchCount <= total)%nat ->
  (0 <= inject_Z (Z.of_nat matchCount) / inject_Z (Z.of_nat total)
   /\ inject_Z (Z.of_nat matchCount) / inject_Z (Z.of_nat total) <= 1)%Q.
Proof.
  intros Hpos Hle.
  assert (Htotal : (0 < inject_Z (Z.of_nat total))%Q).
  { unfold Qlt, inject_Z. simpl. lia. }
  split.
  - apply Qle_shift_div_l; [exact Htotal|]. unfold Qle, Qmult, inject_Z. simpl. lia.
  - apply Qle_shift_div_r; [exact Htotal|]. rewrite Qmult_1_l.
    rewrite <- Zle_Qle. lia.
Qed.

(** One score: its bounds, and what [isRelevant] says at the extremes of
    the threshold. *)
Lemma scoreLinkRelevance_range (options : NavigationOptions) (link : ExtractedLink)
    (scored : ScoredLink) :
  scoreLinkRelevance P options link = Some scored ->
  withinScoreBounds scored
  /\ link_url (sl_link scored) = link_url link
  /\ ((opt_relevanceThreshold options <= 1#10)%Q -> sl_isRelevant scored = true)
  /\ ((9#10 < opt_relevanceThreshold options)%Q -> sl_isRelevant scored = false).
Proof.
  unfold scoreLinkRelevance. cbv zeta.
  set (base := match opt_filterByKeywords options with
               | Some (k :: ks) => _
               | _ => (5#10)%Q
               end).
  assert (Hbase : ((3#10) <= base /\ base <= (9#10))%Q).
  { unfold base. destruct (opt_filterByKeywords options) as [[|k ks]|];
      try (split; unfold Qle; simpl; lia).
    set (n := List.length (List.filter _ (k :: ks))).
    assert (Hn : (n <= List.length (k :: ks))%nat) by apply List.filter_length_le.
    destruct (Nat.ltb_spec 0 n) as [Hpos|_]; [|split; unfold Qle; simpl; lia].
    destruct (keywordShare_bounds n (List.length (k :: ks)) Hpos Hn) as [Hlow Hhigh].
    revert Hlow Hhigh.
    generalize (inject_Z (Z.of_nat n) / inject_Z (Z.of_nat (List.length (k :: ks))))%Q.
    intros q Hlow Hhigh. split; [|apply Q.le_min_l].
    apply Q.min_glb; [unfold Qle; simpl; lia|lra]. }
  clearbody base.
  set (included := if nonEmpty (opt_includeDomains options) then _ else Some base).
  assert (Hincluded : forall q, included = Some q -> ((15#100) <= q /\ q <= (9#10))%Q).
  { unfold included. intros q.
    destruct (nonEmpty (opt_includeDomains options)).
    - destruct (urlHostname P (link_url link)); [|discriminate].
      destruct (existsb _ _); intros Hq; injection Hq as <-; split; lra.
    - intros Hq. injection Hq as <-. split; lra. }
  clearbody included. destruct included as [q|]; [|discriminate].
  specialize (Hincluded q eq_refl).
  set (excluded := if nonEmpty (opt_excludeDomains options) then _ else Some q).
  assert (Hexcluded : forall q', excluded = Some q' -> ((1#10) <= q' /\ q' <= (9#10))%Q).
  { unfold excluded. intros q'.
    destruct (nonEmpty (opt_excludeDomains options)).
    - destruct (urlHostname P (link_url link)); [|discriminate].
      destruct (existsb _ _); intros Hq; injection Hq as <-; split; lra.
    - intros Hq. injection Hq as <-. split; lra. }
  clearbody excluded. destruct excluded as [q'|]; [|discriminate].
  specialize (Hexcluded q' eq_refl).
  intros Hscored. injection Hscored as <-. unfold withinScoreBounds. simpl.
  split; [exact Hexcluded|]. split; [reflexivity|]. split.
  - intros Hlow. apply Qle_bool_iff. lra.
  - intros Hhigh. destruct (Qle_bool _ q') eqn:Hle; [|reflexivity].
    apply Qle_bool_iff in Hle. lra.
Qed.

(** X16. A link to an excluded domain is scored 1/10 whatever its text
    says, also when its domain is on the include list: exclusion wins. It is
    marked relevant only by a threshold of 1/10 or less. *)
Theorem excluded_domain_scores_lowest (options : NavigationOptions)
    (link : ExtractedLink) (linkDomain : string) :
  urlHostname P (link_url link) = Some linkDomain ->
  existsb (fun domain => includes linkDomain domain) (opt_excludeDomains options) = true ->
  exists scored,
    scoreLinkRelevance P options link = Some scored
    /\ scoreOf (sl_link scored) = (1#10)%Q
    /\ ((1#10 < opt_relevanceThreshold options)%Q -> sl_isRelevant scored = false).
Proof.
  intros Hhost Hexcluded. unfold scoreLinkRelevance. cbv zeta. rewrite Hhost.
  assert (Hsome : nonEmpty (opt_excludeDomains options) = true).
  { destruct (opt_excludeDomains options); [discriminate Hexcluded|reflexivity]. }
  assert (Hlast : forall link', scoreOf (withScore link' (1#10)) = (1#10)%Q
                  /\ ((1#10 < opt_relevanceThreshold options)%Q ->
                      Qle_bool (opt_relevanceThreshold options) (1#10) = false)).
  { intros link'. split; [reflexivity|]. intros Hhigh.
    destruct (Qle_bool _ _) eqn:Hle; [|reflexivity]. apply Qle_bool_iff in Hle. lra. }
  destruct (nonEmpty (opt_includeDomains options));
    [destruct (existsb _ (opt_includeDomains options))|];
    cbv beta iota; rewrite Hsome, Hexcluded;
    (eexists; split; [reflexivity|]; apply Hlast).
Qed.

(** X17. Every score [scoreLinksRelevance] gives lies between 1/10 and
    9/10, whatever the keywords and the domain lists, and the links come
    back in the order they were given. With a threshold of at most 1/10
    every link is marked relevant, with one above 9/10 none is. *)
Theorem scored_links_within_bounds (linksToScore : list ExtractedLink) (topic : string)
    (options : NavigationOptions) (scoredLinks : list ScoredLink) :
  scoreLinksRelevance P linksToScore topic options = Some scoredLinks ->
  Forall withinScoreBounds scoredLinks
  /\ (link_url <$> (sl_link <$> scoredLinks)) = (link_url <$> linksToScore)
  /\ ((opt_relevanceThreshold options <= 1#10)%Q ->
      Forall (fun scored => sl_isRelevant scored = true) scoredLinks)
  /\ ((9#10 < opt_relevanceThreshold options)%Q ->
      Forall (fun scored => sl_isRelevant scored = false) scoredLinks).
Proof.
  revert scoredLinks. induction linksToScore as [|link rest IH]; intros scoredLinks.
  { intros Hscored. injection Hscored as <-. repeat split; constructor. }
  cbn [scoreLinksRelevance].
  destruct (scoreLinkRelevance P options link) as [scored|] eqn:Hone; [|discriminate].
  destruct (scoreLinksRelevance P rest topic options) as [others|]; [|discriminate].
  intros Hscored. injection Hscored as <-.
  destruct (IH others eq_refl) as (Hall & Hurls & Hlow & Hhigh).
  destruct (scoreLinkRelevance_range options link scored Hone)
    as (Hbounds & Hurl & Hlow1 & Hhigh1).
  split; [now constructor|]. split; [rewrite !fmap_cons, Hurl, Hurls; reflexivity|].
  split; intros Hthreshold; constructor; auto.
Qed.

Lemma scoreLinksRelevance_bounds linksToScore topic options scoredLinks :
  scoreLinksRelevance P linksToScore topic options = Some scoredLinks ->
  Forall withinScoreBounds scoredLinks.
Proof.
  revert scoredLinks. induction linksToScore as [|link rest IH]; intros scoredLinks.
  { intros Hscored. injection Hscored as <-. constructor. }
  cbn [scoreLinksRelevance].
  destruct (scoreLinkRelevance P options link) as [scored|] eqn:Hone; [|discriminate].
  destruct (scoreLinksRelevance P rest topic options) as [others|]; [|discriminate].
  intros Hscored. injection Hscored as <-.
  constructor; [|now apply IH].
  now apply (scoreLinkRelevance_range options link scored).
Qed.

End ScoreFacts.

Lemma scored_links_within_bounds_witness :
  exists scoredLinks,
    scoreLinksRelevance Demo.platform (Sample.adLink :: Demo.outlinks Demo.pageB) ""
      Sample.options = Some scoredLinks
    /\ List.length scoredLinks = 5%nat
    /\ Forall withinScoreBounds scoredLinks.
Proof.
  destruct (scoreLinksRelevance Demo.platform (Sample.adLink :: Demo.outlinks Demo.pageB) ""
              Sample.options) as [scoredLinks|] eqn:Hscored.
  - exists scoredLinks. split; [reflexivity|]. split.
    + vm_compute in Hscored. injection Hscored as <-. reflexivity.
    + apply (scored_links_within_bounds Demo.platform _ _ _ _ Hscored).
  - vm_compute in Hscored. discriminate Hscored.
Defined.

Lemma excluded_domain_scores_lowest_witness :
  exists scored,
    scoreLinkRelevance Demo.platform Sample.options Sample.adLink = Some scored
    /\ scoreOf (sl_link scored) = (1#10)%Q
    /\ ((1#10 < opt_relevanceThreshold Sample.options)%Q -> sl_isRelevant scored = false).
Proof.
  apply (excluded_domain_scores_lowest Demo.platform Sample.options Sample.adLink
           "ads.example.com").
  - vm_compute. reflexivity.
  - vm_compute. reflexivity.
Defined.

(** ** Ranking *)

Lemma descending_take n scores : descending scores -> descending (take n scores).
Proof.
  revert n. induction scores as [|x rest IH]; intros [|n]; simpl; auto.
  intros [Hhead Hrest]. split; [now apply Forall_take|now apply IH].
Qed.

Section InsertionSort.
Context {A : Type} (key : A -> Q) (ins : A -> list A -> list A).
Hypothesis ins_nil : forall x, ins x [] = [x].
Hypothesis ins_cons :
  forall x y rest,
    ins x (y :: rest)
    = if Qle_bool (key y) (key x) then x :: y :: rest else y :: ins x rest.

Lemma ins_Forall (Q : A -> Prop) x l : Forall Q (ins x l) <-> Q x /\ Forall Q l.
Proof.
  induction l as [|y rest IH].
  - rewrite ins_nil. split.
    + intros Hall. now inversion Hall.
    + intros [Hx _]. now constructor.
  - rewrite ins_cons. destruct (Qle_bool (key y) (key x)).
    + split; [intros Hall; now inversion Hall|intros [Hx Hall]; now constructor].
    + split.
      * intros Hall. inversion Hall as [|? ? Hy Hins]; subst.
        apply IH in Hins as [Hx Hrest]. split; [exact Hx|now constructor].
      * intros [Hx Hall]. inversion Hall as [|? ? Hy Hrest]; subst.
        constructor; [exact Hy|]. apply IH. now split.
Qed.

Lemma Forall_below q l :
  Forall (fun y => (y <= q)%Q) (key <$> l) <-> Forall (fun z => (key z <= q)%Q) l.
Proof.
  induction l as [|z rest IH]; [split; constructor|].
  rewrite fmap_cons. split; intros Hall; inversion Hall; subst;
    (constructor; [assumption|now apply IH]).
Qed.

Lemma ins_descending x l :
  descending (key <$> l) -> descending (key <$> ins x l).
Proof.
  induction l as [|y rest IH].
  - intros _. rewrite ins_nil. simpl. split; [constructor|exact I].
  - rewrite ins_cons. rewrite fmap_cons. intros [Hhead Hrest].
    destruct (Qle_bool (key y) (key x)) eqn:Hle.
    + apply Qle_bool_iff in Hle. rewrite !fmap_cons. split; [|split; assumption].
      constructor; [exact Hle|].
      eapply Forall_impl; [exact Hhead|]. intros z Hz. simpl in Hz. lra.
    + assert (Hlt : (key x <= key y)%Q).
      { destruct (Qlt_le_dec (key x) (key y)) as [Hlt|Hge]; [lra|].
        apply Qle_bool_iff in Hge. congruence. }
      rewrite fmap_cons. split; [|now apply IH].
      apply Forall_below, ins_Forall. split; [exact Hlt|].
      now apply Forall_below.
Qed.

Lemma sort_descending l : descending (key <$> fold_right ins [] l).
Proof.
  induction l as [|x rest IH]; simpl; [exact I|]. now apply ins_descending.
Qed.

Lemma sort_Forall (Q : A -> Prop) l : Forall Q l -> Forall Q (fold_right ins [] l).
Proof.
  induction 1 as [|x rest Hx Hrest IH]; simpl; [constructor|].
  apply ins_Forall. now split.
Qed.

End InsertionSort.

Lemma sortByRelevance_descending l : descending (scoreOf <$> sortByRelevance l).
Proof. apply sort_descending; reflexivity. Qed.

Lemma sortScored_descending l :
  descending ((fun scored => scoreOf (sl_link scored)) <$> sortScored l).
Proof. apply sort_descending; reflexivity. Qed.

Lemma sortScored_Forall (Q : ScoredLink -> Prop) l : Forall Q l -> Forall Q (sortScored l).
Proof.
  apply (sort_Forall (fun scored => scoreOf (sl_link scored)) insertScored); reflexivity.
Qed.

(** X18. The links a traversal follows are ranked. From the start page:
    at most [maxLinksToFollow] links, each scored at least the threshold, in
    non-increasing order of score. From every other page: at most three
    links, in non-increasing order of score. *)
Theorem links_to_follow_are_ranked (P : Platform) (options : NavigationOptions)
    (maxLinksToFollow remainingDepth : Z) (c : EnhancedWebpageContent) (url : string) :
  ((List.length (selectStartLinks P options maxLinksToFollow c url)
    <= Z.to_nat maxLinksToFollow)%nat
   /\ Forall (fun link => (opt_relevanceThreshold options <= scoreOf link)%Q)
             (selectStartLinks P options maxLinksToFollow c url)
   /\ descending (scoreOf <$> selectStartLinks P options maxLinksToFollow c url))
  /\ ((List.length (selectPageLinks P options remainingDepth c) <= 3)%nat
      /\ descending (scoreOf <$> selectPageLinks P options remainingDepth c)).
Proof.
  split; [split; [apply selectStartLinks_length|split]|split].
  - unfold selectStartLinks. cbv zeta.
    apply Forall_take, Forall_sortByRelevance, Forall_filterByKeyword,
      Forall_filterByDomain.
    eapply Forall_impl; [apply Forall_filter_holds|].
    intros link Hlink. now apply Qle_bool_iff.
  - unfold selectStartLinks. cbv zeta. rewrite fmap_take.
    apply descending_take, sortByRelevance_descending.
  - pose proof (selectPageLinks_length P options remainingDepth c) as Hlen.
    unfold deeperLinkCap in Hlen. lia.
  - unfold selectPageLinks. cbv zeta. rewrite fmap_take.
    apply descending_take, sortByRelevance_descending.
Qed.

(** ** Links of the current page *)

Section RelevantLinkFacts.
Context (P : Platform) (W : World).

Lemma touch_currentUrl now session : bs_currentUrl (touch now session) = bs_currentUrl session.
Proof. reflexivity. Qed.

(** What [followRelevantLinks] returns when it returns. *)
Lemma followRelevantLinks_done sessionId options s scoredLinks recommendedLinks s' :
  followRelevantLinks P W sessionId options s
  = (Done (scoredLinks, recommendedLinks), s') ->
  Forall withinScoreBounds scoredLinks
  /\ recommendedLinks
     = List.filter (fun link => Qle_bool (opt_relevanceThreshold options)
                                         (scoreOf (sl_link link))) scoredLinks.
Proof.
  unfold followRelevantLinks.
  destruct (getSession W sessionId s) as [[[session|]|e] s1]; try discriminate.
  destruct (bs_currentUrl session) as [currentUrl|]; [|discriminate].
  destruct (negb (truthy currentUrl)); [discriminate|].
  assert (Hempty : forall s0 : State,
            (Done (@nil ScoredLink, @nil ScoredLink), s0)
            = (Done (scoredLinks, recommendedLinks), s') ->
            Forall withinScoreBounds scoredLinks
            /\ recommendedLinks
               = List.filter (fun link => Qle_bool (opt_relevanceThreshold options)
                                                   (scoreOf (sl_link link))) scoredLinks).
  { intros s0 Hrun. injection Hrun as <- <- _. split; [constructor|reflexivity]. }
  destruct (extractEnhancedContent P W currentUrl Markdown s1) as [[c|e] s2];
    [|apply Hempty].
  destruct (links c) as [|link rest]; [apply Hempty|].
  destruct (scoreLinksRelevance P (link :: rest) _ options) as [scored|] eqn:Hscored;
    [|apply Hempty].
  intros Hrun. injection Hrun as <- <- _.
  split; [|reflexivity]. now apply scoreLinksRelevance_bounds in Hscored.
Qed.

(** X19. A session that has not visited a page has no links to offer:
    for an unknown session id, and for a session without a current URL such
    as one just created, [followRelevantLinks] throws its own error, and it
    does so before any request is made or the cache is touched. *)
Theorem no_current_page_no_links (sessionId : string) (options : NavigationOptions)
    (s : State) :
  (forall session, sessions s !! sessionId = Some session ->
                   bs_currentUrl session = None) ->
  exists s',
    followRelevantLinks P W sessionId options s = (Raise NoActiveSession, s')
    /\ trace s' = trace s
    /\ contentCache s' = contentCache s.
Proof.
  intros Hnourl. unfold followRelevantLinks.
  destruct (sessions s !! sessionId) as [session|] eqn:Hsession.
  - rewrite (getSession_present W sessionId s session Hsession).
    rewrite touch_currentUrl, (Hnourl session eq_refl). eauto.
  - rewrite (getSession_absent W sessionId s Hsession). eauto.
Qed.


End RelevantLinkFacts.

Lemma no_current_page_no_links_witness :
  is_Some (sessions Demo.withSession !! "s1")
  /\ exists s',
       followRelevantLinks Demo.platform Demo.world "s1" Sample.options Demo.withSession
       = (Raise NoActiveSession, s')
       /\ trace s' = trace Demo.withSession
       /\ contentCache s' = contentCache Demo.withSession.
Proof.
  split; [eexists; vm_compute; reflexivity|].
  apply (no_current_page_no_links Demo.platform Demo.world "s1" Sample.options
           Demo.withSession).
  intros session Hsession. vm_compute in Hsession. injection Hsession as <-. reflexivity.
Defined.


Lemma sliceTo_take {A} (n : Z) (l : list A) :
  exists k, sliceTo n l = take k l /\ (0 <= n -> k = Z.to_nat n).
Proof.
  unfold sliceTo. destruct (Z.ltb_spec n 0); eexists; (split; [reflexivity|lia]).
Qed.

(** X21. [getSuggestedLinks] throws the session-not-found error for an
    unknown session, leaving everything as it was. When it returns, the
    suggestions are in non-increasing order of score, each scored between
    1/10 and 9/10, and there are at most [maxSuggestions] of them. *)
Theorem suggestions_are_ranked_and_capped (P : Platform) (W : World)
    (splitWhitespace : string -> list string) (sessionId url : string)
    (context : option string) (maxSuggestions : Z) (s : State) :
  (sessions s !! sessionId = None ->
   getSuggestedLinks P W splitWhitespace sessionId url context maxSuggestions s
   = (Raise (Base (SessionNotFound sessionId)), s))
  /\ (forall suggestions s',
        getSuggestedLinks P W splitWhitespace sessionId url context maxSuggestions s
        = (Done suggestions, s') ->
        (0 <= maxSuggestions -> (List.length suggestions <= Z.to_nat maxSuggestions)%nat)
        /\ descending ((fun scored => scoreOf (sl_link scored)) <$> suggestions)
        /\ Forall withinScoreBounds suggestions).
Proof.
  split.
  { intros Hnone. unfold getSuggestedLinks. now rewrite (getSession_absent W _ _ Hnone). }
  intros suggestions s'. unfold getSuggestedLinks.
  destruct (getSession W sessionId s) as [[[session|]|e] s1]; try discriminate.
  cbv zeta.
  destruct (if match bs_currentUrl session with
               | Some currentUrl => String.eqb currentUrl url
               | None => false
               end
            then (Ok tt, s1) else _) as [[[]|e] s2]; [|discriminate].
  match goal with
  | |- context [followRelevantLinks P W sessionId ?options s2] =>
      destruct (followRelevantLinks P W sessionId options s2)
        as [[[scoredLinks recommendedLinks]|raised] s3] eqn:Hlinks; [|discriminate]
  end.
  apply followRelevantLinks_done in Hlinks as [Hbounds _].
  intros Hrun. injection Hrun as <- _.
  destruct (sliceTo_take maxSuggestions (sortScored scoredLinks)) as (k & -> & Hk).
  split; [|split].
  - intros Hmax. rewrite (Hk Hmax). apply firstn_le_length.
  - rewrite fmap_take. apply descending_take, sortScored_descending.
  - apply Forall_take, sortScored_Forall, Hbounds.
Qed.

Lemma suggestions_are_ranked_and_capped_witness :
  exists suggestions s',
    getSuggestedLinks Demo.platform Demo.world (fun text => Demo.splitOnSpace text "")
      "s1" Demo.pageB (Some "solar power") 2 Sample.visited
    = (Done suggestions, s')
    /\ List.length suggestions = 2%nat
    /\ descending ((fun scored => scoreOf (sl_link scored)) <$> suggestions)
    /\ Forall withinScoreBounds suggestions.
Proof.
  destruct (getSuggestedLinks Demo.platform Demo.world (fun text => Demo.splitOnSpace text "")
              "s1" Demo.pageB (Some "solar power") 2 Sample.visited)
    as [[suggestions|raised] s'] eqn:Hrun.
  - exists suggestions, s'. split; [reflexivity|]. split.
    + vm_compute in Hrun. injection Hrun as <- _. reflexivity.
    + destruct (suggestions_are_ranked_and_capped Demo.platform Demo.world
                  (fun text => Demo.splitOnSpace text "") "s1" Demo.pageB
                  (Some "solar power") 2 Sample.visited) as [_ Hranked].
      apply (Hranked suggestions s' Hrun).
  - vm_compute in Hrun. discriminate Hrun.
Defined.

(** ** What a traversal preserves *)

Lemma preserves_ret {A} Inv (a : A) : Preserves Inv (ret a).
Proof. intros s Hs. exact Hs. Qed.

Lemma preserves_throw {A} Inv e : Preserves Inv (@throw A e).
Proof. intros s Hs. exact Hs. Qed.

Lemma preserves_gets {A} Inv (f : State -> A) : Preserves Inv (gets f).
Proof. intros s Hs. exact Hs. Qed.

Lemma preserves_bind {A B} Inv (m : M A) (f : A -> M B) :
  Preserves Inv m -> (forall a, Preserves Inv (f a)) -> Preserves Inv (bind m f).
Proof.
  intros Hm Hf s Hs. unfold bind. specialize (Hm s Hs).
  destruct (m s) as [[a|e] s1]; [|exact Hm]. now apply Hf.
Qed.

Section PreservedByTraversal.
Context (P : Platform) (W : World) (Inv : State -> Prop).
Hypothesis Hextract : forall url format, Preserves Inv (extractEnhancedContent P W url format).
Hypothesis Hnow : Preserves Inv (dateNow W).
Hypothesis Huuid : Preserves Inv (freshUuid W).
Hypothesis Hinsert :
  forall k v, Preserves Inv (modify (fun s => withSessions (<[k := v]> (sessions s)) s)).

Lemma preserves_getSession sessionId : Preserves Inv (getSession W sessionId).
Proof.
  unfold getSession. apply preserves_bind; [apply preserves_gets|].
  intros [session|]; [|apply preserves_ret].
  apply preserves_bind; [exact Hnow|]. intros now.
  apply preserves_bind; [apply Hinsert|]. intros; apply preserves_ret.
Qed.

Lemma preserves_createSession topic : Preserves Inv (createSession W topic).
Proof.
  unfold createSession. apply preserves_bind; [exact Huuid|]. intros sessionId.
  apply preserves_bind; [exact Hnow|]. intros now.
  apply preserves_bind; [apply Hinsert|]. intros; apply preserves_ret.
Qed.

Lemma preserves_visitUrl sessionId url parentUrl :
  Preserves Inv (visitUrl P W sessionId url parentUrl).
Proof.
  unfold visitUrl. apply preserves_bind; [apply preserves_getSession|].
  intros [session|]; [|apply preserves_throw].
  apply preserves_bind; [apply Hextract|]. intros c.
  apply preserves_bind; [exact Hnow|]. intros now.
  apply preserves_bind; [apply Hinsert|]. intros; apply preserves_ret.
Qed.

Lemma preserves_followLink recurse sessionId remainingDepth options parentUrl t link :
  (forall ls parent t0 s0, Inv s0 -> Inv (snd (recurse ls parent t0 s0))) ->
  forall s,
    Inv s ->
    Inv (snd (followLink P W recurse sessionId remainingDepth options parentUrl (t, s) link)).
Proof.
  intros Hrecurse s Hs. unfold followLink.
  destruct (decide (link_url link ∈ visitedUrls t)); [exact Hs|].
  pose proof (Hextract (link_url link) Markdown s Hs) as Hextracted.
  destruct (extractEnhancedContent P W (link_url link) Markdown s) as [[c|e] s1];
    [|exact Hextracted].
  simpl in Hextracted.
  destruct (calculateRelevanceScore P c _) as [relevance|]; [|exact Hextracted].
  destruct ((1 <=? remainingDepth) && nonEmpty (links c));
    [destruct (nonEmpty (selectPageLinks P options remainingDepth c))|].
  - match goal with
    | |- context [recurse ?ls ?parent ?t0 s1] =>
        pose proof (Hrecurse ls parent t0 s1 Hextracted) as Hdeep;
        destruct (recurse ls parent t0 s1) as [t2 s2]
    end.
    simpl in Hdeep.
    pose proof (preserves_visitUrl sessionId (link_url link) (Some parentUrl) s2 Hdeep)
      as Hvisit.
    destruct (visitUrl P W sessionId (link_url link) (Some parentUrl) s2). exact Hvisit.
  - pose proof (preserves_visitUrl sessionId (link_url link) (Some parentUrl) s1 Hextracted)
      as Hvisit.
    destruct (visitUrl P W sessionId (link_url link) (Some parentUrl) s1). exact Hvisit.
  - pose proof (preserves_visitUrl sessionId (link_url link) (Some parentUrl) s1 Hextracted)
      as Hvisit.
    destruct (visitUrl P W sessionId (link_url link) (Some parentUrl) s1). exact Hvisit.
Qed.

Lemma preserves_followLinksRecursive remainingDepth :
  forall sessionId linksToFollow options parentUrl t s,
    Inv s ->
    Inv (snd (followLinksRecursive P W remainingDepth sessionId linksToFollow
                options parentUrl t s)).
Proof.
  induction remainingDepth as [|deeper IH];
    intros sessionId linksToFollow options parentUrl t s Hs; [exact Hs|].
  cbn [followLinksRecursive].
  revert t s Hs. induction linksToFollow as [|link rest IHlinks]; intros t s Hs;
    [exact Hs|].
  cbn [fold_left].
  pose proof (preserves_followLink
                (fun ls parent t0 s0 =>
                   followLinksRecursive P W deeper sessionId ls options parent t0 s0)
                sessionId (Z.of_nat (S deeper)) options parentUrl t link
                (fun ls parent t0 s0 Hs0 => IH sessionId ls options parent t0 s0 Hs0)
                s Hs) as Hstep.
  destruct (followLink _ _ _ _ _ _ _ (t, s) link) as [t1 s1].
  now apply IHlinks.
Qed.

Lemma preserves_followLinks sessionId params :
  Preserves Inv (followLinks P W sessionId params).
Proof.
  unfold followLinks. cbv zeta.
  apply preserves_bind; [apply preserves_getSession|]. intros session.
  apply preserves_bind.
  { destruct session; [apply preserves_ret|].
    apply preserves_bind; [apply preserves_createSession|]. intros; apply preserves_ret. }
  intros _. apply preserves_bind; [apply Hextract|]. intros startContent.
  apply preserves_bind; [apply preserves_visitUrl|]. intros _.
  destruct ((fp_depth params <=? 0) || (fp_maxLinksToFollow params <=? 0));
    [apply preserves_ret|].
  destruct (negb (nonEmpty (links startContent))); [apply preserves_ret|].
  apply preserves_bind.
  { destruct (fp_stayOnDomain params); [|apply preserves_ret].
    destruct (urlHostname P (fp_url params)); [apply preserves_ret|apply preserves_throw]. }
  intros includeDomains s Hs.
  match goal with
  | |- context [followLinksRecursive P W ?d ?id ?ls ?o ?p ?t0 s] =>
      pose proof (preserves_followLinksRecursive d id ls o p t0 s Hs) as Hfinal;
      destruct (followLinksRecursive P W d id ls o p t0 s) as [t s1]
  end.
  exact Hfinal.
Qed.

End PreservedByTraversal.

Lemma keeps_followLinks (P : Platform) (W : World) sessionId params known :
  Preserves (hasSession known) (followLinks P W sessionId params).
Proof.
  apply preserves_followLinks.
  - intros url format s Hs. unfold hasSession.
    now rewrite (proj1 (quiet_extractEnhancedContent P W url format s)).
  - intros s Hs. exact Hs.
  - intros s Hs. exact Hs.
  - intros k v s Hs. unfold hasSession, modify. simpl.
    apply lookup_insert_is_Some'. now right.
Qed.

Lemma enhanceContent_cache (W : World) c url s :
  contentCache (snd (enhanceContent W c url s)) = contentCache s.
Proof.
  unfold enhanceContent, bind, httpFetch, dateNow, ret. simpl.
  now destruct (fetchEnhance W (tick s) url).
Qed.

(** X22. A traversal never drops a session: every session id the service
    knows before [followLinks] is called is known after it, whether the call
    returns or throws, at every depth. *)
Theorem traversal_never_drops_a_session (P : Platform) (W : World) (sessionId : string)
    (params : FollowLinksParams) (s : State) (known : string) :
  is_Some (sessions s !! known) ->
  is_Some (sessions (snd (followLinks P W sessionId params s)) !! known).
Proof.
  revert s. change (Preserves (hasSession known) (followLinks P W sessionId params)).
  apply preserves_followLinks.
  - intros url format s Hs. unfold hasSession.
    now rewrite (proj1 (quiet_extractEnhancedContent P W url format s)).
  - intros s Hs. exact Hs.
  - intros s Hs. exact Hs.
  - intros k v s Hs. unfold hasSession, modify. simpl.
    apply lookup_insert_is_Some'. now right.
Qed.

Lemma traversal_never_drops_a_session_witness :
  is_Some (sessions (snd (followLinks Demo.platform Demo.world "nosuch" (Demo.params 3 5)
                            Demo.withSession)) !! "s1").
Proof.
  apply (traversal_never_drops_a_session Demo.platform Demo.world "nosuch" (Demo.params 3 5)
           Demo.withSession "s1").
  eexists. vm_compute. reflexivity.
Defined.

(** X23. However many pages a traversal extracts, the cache never grows
    beyond its limit of 50 entries: a cache within the limit before
    [followLinks] is within it afterwards, whether the call returns or
    throws. *)
Theorem traversal_keeps_cache_within_limit (P : Platform) (W : World) (sessionId : string)
    (params : FollowLinksParams) (s : State) :
  (List.length (contentCache s) <= maxCacheEntries)%nat ->
  (List.length (contentCache (snd (followLinks P W sessionId params s)))
   <= maxCacheEntries)%nat.
Proof.
  revert s. change (Preserves withinCapacity (followLinks P W sessionId params)).
  apply preserves_followLinks.
  - intros url format s Hs. unfold withinCapacity, extractEnhancedContent, bind.
    unfold log, modify. cbv beta iota.
    pose proof (extractContent_within_capacity P W url format
                  (withTrace (trace s ++ [EvExtract url]) s) Hs) as Hbase.
    destruct (extractContent P W url format _) as [[c|e] s1]; [|exact Hbase].
    simpl in Hbase. now rewrite enhanceContent_cache.
  - intros s Hs. exact Hs.
  - intros s Hs. exact Hs.
  - intros k v s Hs. exact Hs.
Qed.

Lemma traversal_keeps_cache_within_limit_witness :
  List.length (contentCache Demo.fullState) = 50%nat
  /\ (List.length (contentCache (snd (followLinks Demo.platform Demo.world "s1"
                                        (Demo.params 3 5) Demo.fullState)))
      <= maxCacheEntries)%nat.
Proof.
  split; [reflexivity|].
  apply (traversal_keeps_cache_within_limit Demo.platform Demo.world "s1" (Demo.params 3 5)
           Demo.fullState).
  vm_compute. lia.
Defined.

(** ** The tool handler *)

Lemma pagesBound_small remainingDepth width :
  (remainingDepth <= 2)%nat -> (width <= 5)%nat ->
  (pagesBound remainingDepth width <= 15)%nat.
Proof.
  intros Hdepth Hwidth.
  destruct remainingDepth as [|[|[|deeper]]]; [simpl; lia| | |lia].
  - change (pagesBound 1 width) with (width * (1 + 0))%nat. lia.
  - change (pagesBound 2 width) with (width * (1 + 2 * (1 + 0)))%nat. lia.
Qed.

Lemma validDepth_range depth : 1 <= validDepth depth <= 3.
Proof. unfold validDepth. lia. Qed.

Lemma validMaxLinks_range maxLinks : 1 <= validMaxLinks maxLinks <= 5.
Proof. unfold validMaxLinks. lia. Qed.

Section HandlerFacts.
Context (P : Platform) (W : World).

(** The session a request runs in is one the handler knows afterwards. *)
Lemma resolveSession_active args h sessionId h1 :
  resolveSession W args h = (Ok sessionId, h1) ->
  is_Some (activeSessions h1 !! sessionId).
Proof.
  unfold resolveSession. cbv zeta.
  assert (Hnew : forall topic,
            match createSession W topic (services h) with
            | (Throw e, s) =>
                (Throw e, {| services := s; activeSessions := activeSessions h |})
            | (Ok newSession, s) =>
                match dateNow W s with
                | (Throw e, s0) =>
                    (Throw e, {| services := s0; activeSessions := activeSessions h |})
                | (Ok now, s0) =>
                    (Ok (bs_id newSession),
                     {| services := s0;
                        activeSessions :=
                          <[bs_id newSession :=
                              {| as_id := bs_id newSession; as_topic := topic;
                                 as_lastActivity := now |}]> (activeSessions h) |})
                end
            end = (Ok sessionId, h1) ->
            is_Some (activeSessions h1 !! sessionId)).
  { intros topic. destruct (createSession W topic (services h)) as [[created|e] s1];
      [|discriminate].
    unfold dateNow. intros Hrun. injection Hrun as <- <-. simpl.
    rewrite lookup_insert_eq. eauto. }
  destruct (arg_session_id args) as [given|]; [|apply Hnew].
  destruct (truthy given); [|apply Hnew].
  destruct (activeSessions h !! given) as [entry|]; [|apply Hnew].
  unfold dateNow.
  destruct (getSession W given _) as [[[session|]|e] s1]; [| |discriminate].
  - intros Hrun. injection Hrun as <- <-. simpl. rewrite lookup_insert_eq. eauto.
  - destruct (createSession W _ s1) as [[created|e] s2]; [|discriminate].
    intros Hrun. injection Hrun as <- <-. simpl. rewrite lookup_insert_eq. eauto.
Qed.

(** X24. Whatever the request asks for, the handler clamps the depth to
    1..3 and the breadth to 1..5, so a reply never lists more than 16 pages;
    a request without [depth], or with one of 1 or less, lists the start
    page alone. The session the reply names is one the handler knows. *)
Theorem handler_keeps_traversal_small (args : NavigationArgs) (h : HandlerState)
    (sessionId : string) (depth : Z) (res : FollowLinksResult) (h' : HandlerState) :
  handleContextualNavigation P W args h = (Some (TextReply sessionId depth res), h') ->
  1 <= depth <= 3
  /\ (List.length (pagesVisited res) <= 16)%nat
  /\ (numberOr (arg_depth args) 1 <= 1 -> List.length (pagesVisited res) = 1%nat)
  /\ is_Some (activeSessions h' !! sessionId).
Proof.
  unfold handleContextualNavigation.
  destruct (arg_url args) as [url|]; [|discriminate].
  destruct (negb (truthy url)); [discriminate|].
  destruct (resolveSession W args h) as [[sid|e] h1] eqn:Hresolve; [|discriminate].
  cbv zeta.
  destruct (followLinks P W sid _ (services h1)) as [[r|e] s1] eqn:Hrun; [|discriminate].
  intros Hreply. injection Hreply as <- <- <- <-.
  apply followLinks_pages in Hrun
    as (startPage & more & Hpages & _ & _ & _ & Hlen).
  simpl in Hlen.
  pose proof (validDepth_range (arg_depth args)) as Hdepth.
  pose proof (validMaxLinks_range (arg_max_links args)) as Hwidth.
  split; [exact Hdepth|]. rewrite Hpages. simpl. split; [|split].
  - pose proof (pagesBound_small (Z.to_nat (validDepth (arg_depth args) - 1))
                  (Z.to_nat (validMaxLinks (arg_max_links args)))
                  ltac:(lia) ltac:(lia)).
    lia.
  - intros Hdefault.
    replace (Z.to_nat (validDepth (arg_depth args) - 1)) with 0%nat in Hlen
      by (unfold validDepth; lia).
    simpl in Hlen. lia.
  - now apply resolveSession_active in Hresolve.
Qed.

(** X25. A request that names no session, or one the handler does not
    know, runs in a session the handler creates: for a start page that can
    be extracted the reply is a result, it carries the id of the new session
    and the clamped depth, and its traversal starts at the URL asked for. *)
Theorem request_without_session_succeeds (args : NavigationArgs) (h : HandlerState)
    (url : string) :
  arg_url args = Some url -> truthy url = true ->
  (forall given, arg_session_id args = Some given -> activeSessions h !! given = None) ->
  isValidUrl P url = true -> reachable W url Markdown ->
  exists res h',
    handleContextualNavigation P W args h
    = (Some (TextReply (uuidv4 W (tick (services h))) (validDepth (arg_depth args)) res),
       h')
    /\ startUrl res = url
    /\ is_Some (activeSessions h' !! uuidv4 W (tick (services h)))
    /\ is_Some (sessions (services h') !! uuidv4 W (tick (services h))).
Proof.
  intros Hurl Htruthy Hunknown Hvalid Hreach.
  unfold handleContextualNavigation. rewrite Hurl, Htruthy. cbn [negb].
  unfold resolveSession. cbv zeta.
  assert (Hnone : match arg_session_id args with
                  | Some given =>
                      if truthy given
                      then match activeSessions h !! given with
                           | Some entry => Some (given, entry)
                           | None => None
                           end
                      else None
                  | None => None
                  end = None).
  { destruct (arg_session_id args) as [given|]; [|reflexivity].
    rewrite (Hunknown given eq_refl). now destruct (truthy given). }
  rewrite Hnone.
  destruct (createSession_run W (option_map (join ", ") (arg_keywords args)) (services h))
    as (created & Hcreate & _).
  assert (Hid : bs_id created = uuidv4 W (tick (services h))).
  { unfold createSession, bind, freshUuid, dateNow, modify, ret in Hcreate.
    cbn in Hcreate. injection Hcreate as <- _. reflexivity. }
  rewrite Hcreate. unfold dateNow. rewrite Hid.
  set (s1 := withTick _ (withSessions _ _)).
  set (params := {| fp_url := url; fp_keywords := _; fp_maxLinksToFollow := _;
                    fp_depth := _; fp_stayOnDomain := _ |}).
  destruct (followLinks_known_session_runs P W (uuidv4 W (tick (services h))) params s1)
    as (r & s2 & Hrun); [|exact Hvalid|exact Hreach|].
  { unfold s1. simpl. rewrite lookup_insert_eq. eauto. }
  cbn [services activeSessions]. rewrite Hrun.
  exists r. eexists. split; [reflexivity|].
  edestruct (followLinks_shape P W (fun _ => True) (fun _ => True) params)
    as (startPage & more & _ & _ & _ & _ & Hfirst & _);
    [| | |exact Hrun|].
  - intros. apply Forall_true. auto.
  - intros. apply Forall_true. auto.
  - auto.
  - split; [exact Hfirst|]. simpl. split; [rewrite lookup_insert_eq; eauto|].
    pose proof (keeps_followLinks P W (uuidv4 W (tick (services h))) params
                  (uuidv4 W (tick (services h))) s1) as Hkept.
    rewrite Hrun in Hkept. apply Hkept. unfold hasSession, s1. simpl.
    rewrite lookup_insert_eq. eauto.
Qed.

(** X26. The handler keeps a session for two hours, the service for thirty
    minutes. A request that names a session the handler still knows and the
    service has dropped fails with the session-not-found error, although the
    start page can be extracted: the handler creates a session under a new
    id and runs the traversal under the old one. After the failure the
    handler still knows the id and the service still does not, so the next
    request that names it fails the same way. *)
Theorem dropped_session_cannot_be_resumed (args : NavigationArgs) (h : HandlerState)
    (url sessionId : string) (entry : ActiveSession) :
  arg_url args = Some url -> truthy url = true ->
  arg_session_id args = Some sessionId -> truthy sessionId = true ->
  activeSessions h !! sessionId = Some entry ->
  sessions (services h) !! sessionId = None ->
  (forall n, uuidv4 W n <> sessionId) ->
  isValidUrl P url = true -> reachable W url Markdown ->
  exists h',
    handleContextualNavigation P W args h
    = (Some (ErrorReply (SessionNotFound sessionId)), h')
    /\ is_Some (activeSessions h' !! sessionId)
    /\ sessions (services h') !! sessionId = None.
Proof.
  intros Hurl Htruthy Hgiven Hid Hactive Hdropped Hfresh Hvalid Hreach.
  unfold handleContextualNavigation. rewrite Hurl, Htruthy. cbn [negb].
  unfold resolveSession. cbv zeta. rewrite Hgiven, Hid, Hactive.
  unfold dateNow at 1.
  set (s0 := withTick (S (tick (services h))) (services h)).
  rewrite (getSession_absent W sessionId s0) by exact Hdropped.
  destruct (createSession_run W (option_map (join ", ") (arg_keywords args)) s0)
    as (created & Hcreate & _).
  rewrite Hcreate.
  set (s1 := withSessions _ _).
  set (params := {| fp_url := url; fp_keywords := _; fp_maxLinksToFollow := _;
                    fp_depth := _; fp_stayOnDomain := _ |}).
  cbn [services activeSessions].
  destruct (followLinks_absent_session_throws P W sessionId params s1)
    as (s2 & created' & Hrun & Hsessions); [|apply Hfresh|exact Hvalid|exact Hreach|].
  { unfold s1. simpl. rewrite lookup_insert_ne by apply Hfresh. exact Hdropped. }
  rewrite Hrun. eexists. split; [reflexivity|]. simpl.
  split; [rewrite lookup_insert_eq; eauto|].
  rewrite Hsessions. rewrite lookup_insert_ne by apply Hfresh.
  unfold s1. simpl. rewrite lookup_insert_ne by apply Hfresh. exact Hdropped.
Qed.

End HandlerFacts.

Lemma handler_keeps_traversal_small_witness :
  exists sessionId depth res h',
    handleContextualNavigation Demo.platform Demo.world Sample.args Sample.handler
    = (Some (TextReply sessionId depth res), h')
    /\ List.length (pagesVisited res) = 4%nat
    /\ 1 <= depth <= 3
    /\ (List.length (pagesVisited res) <= 16)%nat.
Proof.
  destruct (handleContextualNavigation Demo.platform Demo.world Sample.args Sample.handler)
    as [[[sessionId depth res|e]|] h'] eqn:Hrun.
  - exists sessionId, depth, res, h'. split; [reflexivity|].
    destruct (handler_keeps_traversal_small _ _ _ _ _ _ _ _ Hrun)
      as (Hdepth & Hbound & _).
    split; [|split; assumption].
    vm_compute in Hrun. injection Hrun as _ _ <- _. reflexivity.
  - vm_compute in Hrun. discriminate Hrun.
  - vm_compute in Hrun. discriminate Hrun.
Defined.

Lemma request_without_session_succeeds_witness :
  exists res h',
    handleContextualNavigation Demo.platform Demo.world Sample.args Sample.handler
    = (Some (TextReply "session-0" 3 res), h')
    /\ startUrl res = Demo.pageA
    /\ is_Some (activeSessions h' !! "session-0")
    /\ is_Some (sessions (services h') !! "session-0").
Proof.
  apply (request_without_session_succeeds Demo.platform Demo.world Sample.args
           Sample.handler Demo.pageA).
  - reflexivity.
  - reflexivity.
  - intros given Hgiven. discriminate Hgiven.
  - vm_compute. reflexivity.
  - intros i. eexists. vm_compute. reflexivity.
Defined.

Lemma dropped_session_cannot_be_resumed_witness :
  exists h',
    handleContextualNavigation Demo.platform Demo.world Sample.staleArgs Sample.staleHandler
    = (Some (ErrorReply (SessionNotFound "s1")), h')
    /\ is_Some (activeSessions h' !! "s1")
    /\ sessions (services h') !! "s1" = None.
Proof.
  eapply (dropped_session_cannot_be_resumed Demo.platform Demo.world Sample.staleArgs
            Sample.staleHandler Demo.pageA "s1").
  - reflexivity.
  - reflexivity.
  - reflexivity.
  - reflexivity.
  - vm_compute. reflexivity.
  - vm_compute. reflexivity.
  - intros n Hn. inversion Hn.
  - vm_compute. reflexivity.
  - intros i. eexists. vm_compute. reflexivity.
Defined.

(** ** Credibility and summaries *)



Lemma append_assoc_string (a b c : string) :
  String.append (String.append a b) c = String.append a (String.append b c).
Proof.
  induction a as [|x a IH]; [reflexivity|].
  change (String x (String.append (String.append a b) c)
          = String x (String.append a (String.append b c))).
  now rewrite IH.
Qed.

Lemma trimEnd_length s : (String.length (trimEnd s) <= String.length s)%nat.
Proof.
  induction s as [|c s IH]; [simpl; lia|].
  cbn [trimEnd]. destruct (trimEnd s) as [|d kept].
  - destruct (isSpace c); simpl; lia.
  - cbn [String.length] in *. lia.
Qed.

Lemma trimEnd_space s : trimEnd (String.append s " ") = trimEnd s.
Proof.
  induction s as [|c s IH]; [reflexivity|].
  change (String.append (String c s) " ") with (String c (String.append s " ")).
  cbn [trimEnd]. now rewrite IH.
Qed.

Lemma trimStart_space s :
  trimStart (String.append s " ") = EmptyString
  \/ exists kept, trimStart (String.append s " ") = String.append kept " "
                  /\ (String.length kept <= String.length s)%nat.
Proof.
  induction s as [|c s IH]; [left; reflexivity|].
  change (String.append (String c s) " ") with (String c (String.append s " ")).
  cbn [trimStart]. destruct (isSpace c).
  - destruct IH as [Hnone|(kept & Hkept & Hlen)]; [now left|].
    right. exists kept. split; [exact Hkept|]. cbn [String.length]. lia.
  - right. exists (String c s). split; [reflexivity|lia].
Qed.

Lemma trim_space_length s :
  (String.length (trim (String.append s " ")) <= String.length s)%nat.
Proof.
  unfold trim. destruct (trimStart_space s) as [->|(kept & -> & Hlen)]; [simpl; lia|].
  rewrite trimEnd_space. pose proof (trimEnd_length kept). lia.
Qed.

Lemma summaryLoop_shape maxLength sentences : forall summary,
  (summary = EmptyString
   \/ exists body, summary = String.append body " " /\ strlen body <= maxLength) ->
  summaryLoop maxLength sentences summary = EmptyString
  \/ exists body, summaryLoop maxLength sentences summary = String.append body " "
                  /\ strlen body <= maxLength.
Proof.
  induction sentences as [|sentence rest IH]; intros summary Hsummary; [exact Hsummary|].
  cbn [summaryLoop].
  destruct (Z.leb_spec (strlen (String.append summary sentence)) maxLength) as [Hfits|_];
    [|exact Hsummary].
  apply IH. right. exists (String.append summary sentence).
  split; [now rewrite append_assoc_string|exact Hfits].
Qed.

(** X28. A summary is never longer than [maxLength] characters plus the
    three of the ellipsis: the sentences kept fit in [maxLength] and the
    space after the last one is trimmed off. *)
Theorem summary_length_is_bounded (P : Platform) (text : string) (maxLength : Z) :
  0 <= maxLength ->
  strlen (generateSummary P text maxLength) <= maxLength + 3.
Proof.
  intros Hmax. unfold generateSummary. cbv zeta.
  assert (Htrimmed : strlen (trim (summaryLoop maxLength (splitSentences P text) ""))
                     <= maxLength).
  { destruct (summaryLoop_shape maxLength (splitSentences P text) "" (or_introl eq_refl))
      as [->|(body & -> & Hbody)]; [unfold strlen; simpl; lia|].
    pose proof (trim_space_length body). unfold strlen in *. lia. }
  unfold strlen in *. rewrite length_append.
  destruct (_ <? _); simpl; lia.
Qed.

Lemma summary_length_is_bounded_witness :
  strlen (generateSummary Demo.platform "One sentence that is far too long." 10) <= 10 + 3.
Proof.
  apply (summary_length_is_bounded Demo.platform "One sentence that is far too long." 10).
  lia.
Defined.

(** ** The two sweeps *)

(** X29. The service sweeps sessions idle for more than 30 minutes, the
    handler those idle for more than two hours. A session idle for longer
    than the first and no longer than the second is dropped by the sweep of
    the service and kept by the sweep of the handler: the handler goes on
    accepting an id the service no longer knows. *)
Theorem idle_session_outlives_its_service_copy (W : World) (h : HandlerState)
    (sessionId : string) (entry : ActiveSession) (session : BrowsingSession) :
  activeSessions h !! sessionId = Some entry ->
  sessions (services h) !! sessionId = Some session ->
  SESSION_TIMEOUT < clock W (tick (services h)) - bs_lastActivityTime session ->
  clock W (S (tick (services h))) - as_lastActivity entry <= handlerExpireTime ->
  let swept :=
    cleanupActiveSessions W
      {| services := snd (cleanupExpiredSessions W (services h));
         activeSessions := activeSessions h |} in
  activeSessions swept !! sessionId = Some entry
  /\ sessions (services swept) !! sessionId = None.
Proof.
  intros Hactive Hsession Hidle Hrecent swept. unfold swept, cleanupActiveSessions.
  cbn [services activeSessions]. unfold dateNow.
  cbn [services activeSessions]. split.
  - rewrite map_lookup_filter, Hactive. simpl.
    rewrite option_guard_True; [reflexivity|].
    simpl. apply Z.ltb_ge.
    unfold cleanupExpiredSessions, bind, dateNow, modify. simpl. exact Hrecent.
  - unfold withTick. cbn [sessions].
    rewrite cleanupExpiredSessions_lookup, Hsession.
    destruct (Z.ltb_spec SESSION_TIMEOUT
                (clock W (tick (services h)) - bs_lastActivityTime session));
      [reflexivity|lia].
Qed.

Lemma idle_session_outlives_its_service_copy_witness :
  exists entry,
    activeSessions Sample.idleHandler !! "s1" = Some entry
    /\ activeSessions
         (cleanupActiveSessions Sample.lateWorld
            {| services := snd (cleanupExpiredSessions Sample.lateWorld
                                  (services Sample.idleHandler));
               activeSessions := activeSessions Sample.idleHandler |}) !! "s1"
       = Some entry
    /\ sessions
         (services
            (cleanupActiveSessions Sample.lateWorld
               {| services := snd (cleanupExpiredSessions Sample.lateWorld
                                     (services Sample.idleHandler));
                  activeSessions := activeSessions Sample.idleHandler |})) !! "s1"
       = None.
Proof.
  destruct (activeSessions Sample.idleHandler !! "s1") as [entry|] eqn:Hactive;
    [|vm_compute in Hactive; discriminate Hactive].
  destruct (sessions (services Sample.idleHandler) !! "s1") as [session|] eqn:Hsession;
    [|vm_compute in Hsession; discriminate Hsession].
  exists entry. split; [reflexivity|].
  apply (idle_session_outlives_its_service_copy Sample.lateWorld Sample.idleHandler "s1"
           entry session Hactive Hsession).
  - vm_compute in Hsession. injection Hsession as <-. vm_compute. reflexivity.
  - vm_compute in Hactive. injection Hactive as <-. vm_compute. discriminate.
Defined.
